(** * Tilt Escape: level simulation and collision engine

A shallow embedding of [tilt_escape.hpp] (namespace [TiltEscape]) and of
the simulation part of [Game.cpp], followed by the properties of the
level loader, the guard patrol, the collision test and the player
physics.

Numbers are modelled as the program has them: [float] is IEEE-754
binary32 (the bit-level specification of the Standard Library,
[SpecFloat], at precision 24), [double] is binary64, [int] and
[Uint32] are integers in [Z] with their conversions written out. *)

From Stdlib Require Import ZArith List Bool Ascii String Lia Permutation.
From Stdlib Require Import SpecFloat.
Import ListNotations.

Local Open Scope Z_scope.

(** ** binary32 arithmetic ([float]) *)

Module F32.

Definition prec : Z := 24.
Definition emax : Z := 128.

Definition float := spec_float.

Definition add : float -> float -> float := SFadd prec emax.
Definition sub : float -> float -> float := SFsub prec emax.
Definition mul : float -> float -> float := SFmul prec emax.
Definition div : float -> float -> float := SFdiv prec emax.
Definition sqrt : float -> float := SFsqrt prec emax.
Definition neg : float -> float := SFopp.
Definition abs : float -> float := SFabs.

(** The comparison operators of C++ on floats: every comparison with a
    NaN is false, and [+0 == -0]. *)
Definition eqb : float -> float -> bool := SFeqb.
Definition ltb : float -> float -> bool := SFltb.
Definition leb : float -> float -> bool := SFleb.
Definition gtb (a b : float) : bool := SFltb b a.
Definition geb (a b : float) : bool := SFleb b a.

(** Conversion of an integer to [float] (round to nearest, ties to even). *)
Definition of_Z (n : Z) : float := binary_normalize prec emax n 0 false.

Definition zero : float := S754_zero false.
Definition one : float := of_Z 1.
Definition two : float := of_Z 2.
(** The literal [0.5f]. *)
Definition half : float := div one two.

Definition is_nan (a : float) : bool :=
  match a with S754_nan => true | _ => false end.

Definition is_finite (a : float) : bool :=
  match a with S754_zero _ | S754_finite _ _ _ => true | _ => false end.

(** [std::roundf]: the nearest integral value, halfway cases away from
    zero; zeros, infinities and NaN are returned unchanged and the sign of
    the argument is kept. *)
Definition roundf (a : float) : float :=
  match a with
  | S754_finite s m e =>
      if 0 <=? e then a
      else
        let d := 2 ^ (- e) in
        let q := Z.pos m / d in
        let r := Z.pos m mod d in
        let q' := if d <=? 2 * r then q + 1 else q in
        binary_normalize prec emax (cond_Zopp s q') 0 s
  | _ => a
  end.

End F32.

(** ** binary64 arithmetic ([double]), as far as the program uses it *)

Module F64.

Definition prec : Z := 53.
Definition emax : Z := 1024.

Definition double := spec_float.

Definition mul : double -> double -> double := SFmul prec emax.
Definition div : double -> double -> double := SFdiv prec emax.
Definition of_Z (n : Z) : double := binary_normalize prec emax n 0 false.

(** Every binary32 value is a binary64 value. *)
Definition of_float (a : F32.float) : double := a.

(** Conversion [double -> float]: rounding to nearest, ties to even. *)
Definition to_float (a : double) : F32.float :=
  match a with
  | S754_finite s m e => binary_round F32.prec F32.emax s m e
  | _ => a
  end.

End F64.

Abbreviation float := F32.float.

(** ** The part of GLM the program uses *)

Module glm.

Record vec2 := mkvec2 { x : float; y : float }.

(** [glm::uvec2]: two 32-bit unsigned integers. *)
Record uvec2 := mkuvec2 { ux : Z; uy : Z }.

Definition vec2_of_Z (a b : Z) : vec2 := mkvec2 (F32.of_Z a) (F32.of_Z b).

(** [vec2 + vec2], [vec2 - vec2], [-vec2] *)
Definition add (a b : vec2) : vec2 := mkvec2 (F32.add (x a) (x b)) (F32.add (y a) (y b)).
Definition sub (a b : vec2) : vec2 := mkvec2 (F32.sub (x a) (x b)) (F32.sub (y a) (y b)).
Definition neg (a : vec2) : vec2 := mkvec2 (F32.neg (x a)) (F32.neg (y a)).
(** [vec2 * vec2] is component-wise. *)
Definition mul (a b : vec2) : vec2 := mkvec2 (F32.mul (x a) (x b)) (F32.mul (y a) (y b)).

(** [vec2 + float], [vec2 * float], [float * vec2], [vec2 / float] *)
Definition add_scalar (a : vec2) (s : float) : vec2 := mkvec2 (F32.add (x a) s) (F32.add (y a) s).
Definition mul_scalar (a : vec2) (s : float) : vec2 := mkvec2 (F32.mul (x a) s) (F32.mul (y a) s).
Definition scalar_mul (s : float) (a : vec2) : vec2 := mkvec2 (F32.mul s (x a)) (F32.mul s (y a)).
Definition div_scalar (a : vec2) (s : float) : vec2 := mkvec2 (F32.div (x a) s) (F32.div (y a) s).

(** The member function [vec2::length()]: the number of components of
    the vector type, not a norm. *)
Definition vec2_length : Z := 2.

(** [glm::dot] on [vec2]: the product is taken component-wise and the two
    components are added. *)
Definition dot (a b : vec2) : float :=
  let tmp := mul a b in F32.add (x tmp) (y tmp).

(** [glm::length]: the Euclidean norm. *)
Definition length (a : vec2) : float := F32.sqrt (dot a a).

Definition inversesqrt (a : float) : float := F32.div F32.one (F32.sqrt a).

(** [glm::normalize] *)
Definition normalize (a : vec2) : vec2 := mul_scalar a (inversesqrt (dot a a)).

(** [glm::min], [glm::max] and [glm::clamp] on scalars and, component-wise,
    on vectors. *)
Definition fmin (a b : float) : float := if F32.ltb b a then b else a.
Definition fmax (a b : float) : float := if F32.ltb a b then b else a.
Definition fclamp (a lo hi : float) : float := fmin (fmax a lo) hi.
Definition clamp (a lo hi : vec2) : vec2 :=
  mkvec2 (fclamp (x a) (x lo) (x hi)) (fclamp (y a) (y lo) (y hi)).

End glm.

Abbreviation vec2 := glm.vec2.

(** ** What the program takes from its environment

The C library's global random source ([std::rand]), the Mersenne
twister each guard owns and the indeterminate content of the members a
constructor leaves uninitialised; the two [libm] functions of the
physics; the level files on disk. None of them is part of the program:
the definitions are parameterised by them. *)

Class Runtime := {
(** state of [std::rand], and one call of it: a result in [0, RAND_MAX] *)
  rand_state : Type;
  std_rand : rand_state -> Z * rand_state;
  RAND_MAX : Z;
(** [std::mt19937]: construction from the seed expression (a [float],
      converted by the constructor call) and one call of [operator()] *)
  mt19937 : Type;
  mt19937_seed : float -> mt19937;
  mt19937_next : mt19937 -> Z * mt19937;
(** the values found in the members the constructor of [Guard] does not
      initialise, [time_at_waypoint] and [next_waypoint], for the guard
      constructed when [n] guards exist already *)
  indeterminate : nat -> float;
  indeterminate_vec2 : nat -> vec2
}.

Class Libm := {
(** [std::sin] on [float] and [std::pow] on [double] *)
  std_sin : float -> float;
  std_pow : F64.double -> F64.double -> F64.double
}.

Class FileSystem := {
(** [data_path] and [std::ifstream]: the lines of a level file, or
      [None] when it cannot be opened *)
  read_lines : string -> option (list string)
}.

(** The expression [2.0f * ((double)std::rand() / RAND_MAX)], assigned to a
    [float]: the product is computed in [double] and rounded once. *)
Definition random_thresh `{Runtime} (r : Z) : float :=
  F64.to_float (F64.mul (F64.of_float F32.two) (F64.div (F64.of_Z r) (F64.of_Z RAND_MAX))).

(** ** namespace TiltEscape *)

Module TiltEscape.

Definition origin : vec2 := glm.vec2_of_Z 0 0.

Module Wall.
Record t := make { position : vec2; size : vec2 }.
End Wall.

Module Player.
Record t := make { position : vec2; radius : float; velocity : vec2 }.

(** [Player()] *)
Definition default : t := make origin F32.half origin.
(** [Player(_position, _radius)] *)
Definition new (_position : vec2) (_radius : float) : t :=
  make _position _radius origin.
End Player.

Module LookDirection.
Inductive t :=
    UP | UP_LEFT | LEFT | DOWN_LEFT | DOWN | DOWN_RIGHT | RIGHT | UP_RIGHT.

(** the value of an enumerator, [(int)d] *)
Definition to_Z (d : t) : Z :=
  match d with
  | UP => 0 | UP_LEFT => 1 | LEFT => 2 | DOWN_LEFT => 3
  | DOWN => 4 | DOWN_RIGHT => 5 | RIGHT => 6 | UP_RIGHT => 7
  end.

(** [static_cast<LookDirection>(n)] for [n] in [0, 7] *)
Definition of_Z (n : Z) : t :=
  match n with
  | 0 => UP | 1 => UP_LEFT | 2 => LEFT | 3 => DOWN_LEFT
  | 4 => DOWN | 5 => DOWN_RIGHT | 6 => RIGHT | _ => UP_RIGHT
  end.
End LookDirection.

Module GuardVision.
Record t := make { radius : float; distance : float; look_direction : LookDirection.t }.
(** [GuardVision()] *)
Definition default : t := make F32.half F32.one LookDirection.DOWN_RIGHT.
End GuardVision.

Module Guard.
Section WithRuntime.
Context {rt : Runtime}.

Record t := make {
  position : vec2;
  guard_id : Z;
  radius : float;
  fov : GuardVision.t;
  time_looking_in_direction : float;
  look_thresh : float;
  mt : mt19937;
  current_waypoint : vec2;
  next_waypoint : vec2;
  wait_thresh : float;
  time_at_waypoint : float;
  velocity : vec2;
(** [std::deque<glm::vec2>]: the front is the head of the list *)
  waypoints : list vec2
}.

Definition set_position (p : vec2) (g : t) : t :=
  make p (guard_id g) (radius g) (fov g) (time_looking_in_direction g)
    (look_thresh g) (mt g) (current_waypoint g) (next_waypoint g)
    (wait_thresh g) (time_at_waypoint g) (velocity g) (waypoints g).
Definition set_guard_id (i : Z) (g : t) : t :=
  make (position g) i (radius g) (fov g) (time_looking_in_direction g)
    (look_thresh g) (mt g) (current_waypoint g) (next_waypoint g)
    (wait_thresh g) (time_at_waypoint g) (velocity g) (waypoints g).
Definition set_current_waypoint (w : vec2) (g : t) : t :=
  make (position g) (guard_id g) (radius g) (fov g) (time_looking_in_direction g)
    (look_thresh g) (mt g) w (next_waypoint g)
    (wait_thresh g) (time_at_waypoint g) (velocity g) (waypoints g).
Definition set_next_waypoint (w : vec2) (g : t) : t :=
  make (position g) (guard_id g) (radius g) (fov g) (time_looking_in_direction g)
    (look_thresh g) (mt g) (current_waypoint g) w
    (wait_thresh g) (time_at_waypoint g) (velocity g) (waypoints g).
Definition set_time_at_waypoint (a : float) (g : t) : t :=
  make (position g) (guard_id g) (radius g) (fov g) (time_looking_in_direction g)
    (look_thresh g) (mt g) (current_waypoint g) (next_waypoint g)
    (wait_thresh g) a (velocity g) (waypoints g).
Definition set_velocity (v : vec2) (g : t) : t :=
  make (position g) (guard_id g) (radius g) (fov g) (time_looking_in_direction g)
    (look_thresh g) (mt g) (current_waypoint g) (next_waypoint g)
    (wait_thresh g) (time_at_waypoint g) v (waypoints g).
Definition set_waypoints (ws : list vec2) (g : t) : t :=
  make (position g) (guard_id g) (radius g) (fov g) (time_looking_in_direction g)
    (look_thresh g) (mt g) (current_waypoint g) (next_waypoint g)
    (wait_thresh g) (time_at_waypoint g) (velocity g) ws.
Definition set_time_looking_in_direction (a : float) (g : t) : t :=
  make (position g) (guard_id g) (radius g) (fov g) a
    (look_thresh g) (mt g) (current_waypoint g) (next_waypoint g)
    (wait_thresh g) (time_at_waypoint g) (velocity g) (waypoints g).
(** the three members [change_look_dir] writes after resetting the timer *)
Definition set_look (d : LookDirection.t) (m : mt19937) (th : float) (g : t) : t :=
  make (position g) (guard_id g) (radius g)
    (GuardVision.make (GuardVision.radius (fov g)) (GuardVision.distance (fov g)) d)
    (time_looking_in_direction g)
    th m (current_waypoint g) (next_waypoint g)
    (wait_thresh g) (time_at_waypoint g) (velocity g) (waypoints g).

(** [Guard(_position, _radius, _fov)]. [n] is the number of guards that
    exist already; the deque is empty, [next_waypoint] and
    [time_at_waypoint] are not initialised. Two numbers are drawn from
    [std::rand], for [look_thresh] and then [wait_thresh]. *)
Definition new (n : nat) (_position : vec2) (_radius : float) (_fov : GuardVision.t)
    (rs : rand_state) : t * rand_state :=
  let '(r1, rs1) := std_rand rs in
  let '(r2, rs2) := std_rand rs1 in
  (make _position (-1) _radius _fov F32.zero (random_thresh r1)
     (mt19937_seed (F32.mul (glm.x _position) (glm.y _position)))
     _position (indeterminate_vec2 n) (random_thresh r2) (indeterminate n)
     origin [],
   rs2).

Definition at_next_waypoint (g : t) : bool :=
  F32.eqb (F32.roundf (glm.x (position g))) (glm.x (next_waypoint g))
  && F32.eqb (F32.roundf (glm.y (position g))) (glm.y (next_waypoint g)).

Definition at_current_waypoint (g : t) : bool :=
  F32.eqb (F32.roundf (glm.x (position g))) (glm.x (current_waypoint g))
  && F32.eqb (F32.roundf (glm.y (position g))) (glm.y (current_waypoint g)).

Definition change_look_dir (g : t) (rs : rand_state) : t * rand_state :=
  let g := set_time_looking_in_direction F32.zero g in
  let '(n, m) := mt19937_next (mt g) in
  let next_dir := n mod (LookDirection.to_Z LookDirection.UP_RIGHT + 1) in
  let '(r, rs') := std_rand rs in
  (set_look (LookDirection.of_Z next_dir) m (random_thresh r) g, rs').

Definition get_fov_offset (g : t) : vec2 :=
  match GuardVision.look_direction (fov g) with
  | LookDirection.UP => glm.vec2_of_Z 0 1
  | LookDirection.UP_LEFT => glm.vec2_of_Z (-1) 1
  | LookDirection.LEFT => glm.vec2_of_Z (-1) 0
  | LookDirection.DOWN_LEFT => glm.vec2_of_Z (-1) (-1)
  | LookDirection.DOWN => glm.vec2_of_Z 0 (-1)
  | LookDirection.DOWN_RIGHT => glm.vec2_of_Z 1 (-1)
  | LookDirection.RIGHT => glm.vec2_of_Z 1 0
  | LookDirection.UP_RIGHT => glm.vec2_of_Z 1 1
  end.

(** The block of [update] that runs while the guard sits at its current
    waypoint. [None] is the undefined behaviour of [front()] and
    [pop_front()] on an empty deque. *)
Definition wait_at_waypoint (elapsed : float) (g : t) : option t :=
  if at_current_waypoint g then
    let g := set_time_at_waypoint (F32.add (time_at_waypoint g) elapsed) g in
    if F32.geb (time_at_waypoint g) (wait_thresh g) then
      match waypoints g with
      | [] => None
      | front :: rest =>
          let g := set_next_waypoint front g in
          let g := set_waypoints (rest ++ [next_waypoint g]) g in
          let g := set_velocity (glm.sub (next_waypoint g) (current_waypoint g)) g in
          Some (set_velocity
                  (glm.div_scalar (velocity g) (F32.of_Z glm.vec2_length)) g)
      end
    else Some g
  else Some g.

Definition head_for_next_waypoint (g : t) : t :=
  if negb (at_current_waypoint g) && negb (at_next_waypoint g)
  then set_velocity (glm.sub (next_waypoint g) (position g)) g
  else g.

Definition arrive_at_next_waypoint (g : t) : t :=
  if at_next_waypoint g && negb (at_current_waypoint g)
  then
    let g := set_velocity origin g in
    let g := set_time_at_waypoint F32.zero g in
    set_current_waypoint (next_waypoint g) g
  else g.

Definition look_around (elapsed : float) (g : t) (rs : rand_state) : t * rand_state :=
  let g := set_time_looking_in_direction
             (F32.add (time_looking_in_direction g) elapsed) g in
  if F32.geb (time_looking_in_direction g) (look_thresh g)
  then change_look_dir g rs
  else (g, rs).

(** [Guard::update(elapsed)] *)
Definition update (elapsed : float) (g : t) (rs : rand_state) : option (t * rand_state) :=
  let g := set_position (glm.add (position g) (glm.mul_scalar (velocity g) elapsed)) g in
  match wait_at_waypoint elapsed g with
  | None => None
  | Some g =>
      let g := head_for_next_waypoint g in
      let g := arrive_at_next_waypoint g in
      Some (look_around elapsed g rs)
  end.

End WithRuntime.
End Guard.

Module Direction.
Inductive t := UP | RIGHT | DOWN | LEFT.

(** An object of the enumeration type holds a value of its underlying
    type [int]: [0] to [3] for the four enumerators, and whatever a cast
    stored into it otherwise. *)
Definition value := Z.

Definition to_Z (d : t) : value :=
  match d with UP => 0 | RIGHT => 1 | DOWN => 2 | LEFT => 3 end.

Definition of_Z (v : value) : option t :=
  match v with
  | 0 => Some UP | 1 => Some RIGHT | 2 => Some DOWN | 3 => Some LEFT
  | _ => None
  end.

(** [(Direction) n] for a [GLuint] [n]: conversion to [int], modulo
    [2^32] into the signed range. *)
Definition cast (n : Z) : value :=
  let m := n mod 2 ^ 32 in
  if m <? 2 ^ 31 then m else m - 2 ^ 32.

(** [a == Direction::d] *)
Definition is_dir (d : t) (a : value) : bool := a =? to_Z d.
End Direction.

(** [typedef std::tuple<GLboolean, Direction, glm::vec2> Collision] *)
Definition Collision : Type := bool * Direction.value * vec2.

Definition compass : list vec2 :=
  [ glm.vec2_of_Z 0 1; glm.vec2_of_Z 1 0; glm.vec2_of_Z 0 (-1); glm.vec2_of_Z (-1) 0 ].

(** One turn of the loop of [vector_direction]: the state is
    [(max, best_match)], [ic] is the index with its compass vector. *)
Definition vector_direction_step (target : vec2) (st : float * Z) (ic : Z * vec2)
    : float * Z :=
  let '(max, best_match) := st in
  let dot_product := glm.dot (glm.normalize target) (snd ic) in
  if F32.gtb dot_product max then (dot_product, fst ic) else (max, best_match).

(** [GLuint best_match = -1] *)
Definition no_match : Z := 2 ^ 32 - 1.

Definition vector_direction_loop (target : vec2) : float * Z :=
  fold_left (vector_direction_step target)
    (combine [0; 1; 2; 3] compass) (F32.zero, no_match).

Definition vector_direction (target : vec2) : Direction.value :=
  Direction.cast (snd (vector_direction_loop target)).

(** [std::isdigit] on a character of a level file *)
Definition isdigit (c : ascii) : bool :=
  let n := Z.of_N (N_of_ascii c) in (48 <=? n) && (n <=? 57).

(** [c - '0'] *)
Definition digit_value (c : ascii) : Z := Z.of_N (N_of_ascii c) - 48.

Definition WALL_SIZE : vec2 := glm.vec2_of_Z 1 1.

(** the sentinel [at] returns, the character of code 0 *)
Definition NUL : ascii := Ascii.zero.

Module Level.
Section WithEnvironment.
Context {rt : Runtime} {fs : FileSystem}.

Record t := make {
  level_matrix : list (list ascii);
  walls : list Wall.t;
  player : Player.t;
  guards : list Guard.t;
  holes : list vec2
}.

(** [Level()] *)
Definition empty : t := make [] [] Player.default [] [].

(** the search loop shared by [has_guard] and [get_guard_index], from
    index [i] on *)
Fixpoint find_guard (guard_id : Z) (gs : list Guard.t) (i : Z) : option Z :=
  match gs with
  | [] => None
  | g :: gs' =>
      if Guard.guard_id g =? guard_id then Some i
      else find_guard guard_id gs' (i + 1)
  end.

Definition has_guard (l : t) (guard_id : Z) : bool :=
  match find_guard guard_id (guards l) 0 with Some _ => true | None => false end.

Definition get_guard_index (l : t) (guard_id : Z) : Z :=
  match find_guard guard_id (guards l) 0 with Some i => i | None => -1 end.

(** [guards[i].waypoints.push_back(w)] for an index inside the vector *)
Fixpoint push_waypoint (gs : list Guard.t) (i : nat) (w : vec2) : list Guard.t :=
  match gs, i with
  | [], _ => []
  | g :: gs', O => Guard.set_waypoints (Guard.waypoints g ++ [w]) g :: gs'
  | g :: gs', S i' => g :: push_waypoint gs' i' w
  end.

(** The body of the inner loop of [load_level] for the character [c] at
    column [i] of the line being read; the row index is
    [level_matrix.size()], which does not change before the line is
    finished. The character itself goes to the row buffer, see
    [load_line]. *)
Definition load_char (i : Z) (c : ascii) (st : t * rand_state) : t * rand_state :=
  let '(l, rs) := st in
  let here := glm.vec2_of_Z i (Z.of_nat (List.length (level_matrix l))) in
  let l :=
    if Ascii.eqb c "#"
    then make (level_matrix l) (walls l ++ [Wall.make here WALL_SIZE])
           (player l) (guards l) (holes l)
    else l in
  let l :=
    if Ascii.eqb c "P"
    then make (level_matrix l) (walls l) (Player.new here F32.half)
           (guards l) (holes l)
    else l in
  let l :=
    if Ascii.eqb c "H"
    then make (level_matrix l) (walls l) (player l) (guards l) (holes l ++ [here])
    else l in
  if isdigit c then
    let guard_id := digit_value c in
    let guard_index := get_guard_index l guard_id in
    if 0 <=? guard_index then
      (make (level_matrix l) (walls l) (player l)
         (push_waypoint (guards l) (Z.to_nat guard_index) here) (holes l), rs)
    else
      let '(new_guard, rs') :=
        Guard.new (List.length (guards l)) here F32.half GuardVision.default rs in
      let new_guard := Guard.set_guard_id guard_id new_guard in
      let new_guard := Guard.set_current_waypoint here new_guard in
      let new_guard := Guard.set_next_waypoint here new_guard in
      let new_guard := Guard.set_waypoints (Guard.waypoints new_guard ++ [here]) new_guard in
      (make (level_matrix l) (walls l) (player l) (guards l ++ [new_guard]) (holes l),
       rs')
  else (l, rs).

(** the characters of a line from column [i] on *)
Fixpoint load_chars (i : Z) (cs : list ascii) (st : t * rand_state) : t * rand_state :=
  match cs with
  | [] => st
  | c :: cs' => load_chars (i + 1) cs' (load_char i c st)
  end.

(** one turn of the [getline] loop: the line is scanned, then its
    characters become a new row of [level_matrix] *)
Definition load_line (st : t * rand_state) (line : string) : t * rand_state :=
  let cs := list_ascii_of_string line in
  let '(l, rs) := load_chars 0 cs st in
  (make (level_matrix l ++ [cs]) (walls l) (player l) (guards l) (holes l), rs).

Definition load_lines (lines : list string) (st : t * rand_state) : t * rand_state :=
  fold_left load_line lines st.

(** [load_level(filename)]; a file that cannot be opened is reported on
    [std::cerr] and the level is left as it is *)
Definition load_level (filename : string) (st : t * rand_state) : t * rand_state :=
  match read_lines filename with
  | None => st
  | Some lines => load_lines lines st
  end.

(** [clear_level()]: the player is kept *)
Definition clear_level (l : t) : t := make [] [] (player l) [] [].

Definition get_length (l : t) : Z :=
  match level_matrix l with
  | row0 :: _ => Z.of_nat (List.length row0)
  | [] => 0
  end.

Definition get_height (l : t) : Z := Z.of_nat (List.length (level_matrix l)).

(** [at(row, col)]. [None] is the undefined behaviour of
    [level_matrix[row][col]] when [col] is not an index of that row
    ([operator[]] does not check). *)
Definition at_ (l : t) (row col : Z) : option ascii :=
  if (0 <=? row) && (0 <=? col) then
    if (row <? Z.of_nat (List.length (level_matrix l)))
       && (col <? Z.of_nat (List.length (nth 0 (level_matrix l) [])))
    then nth_error (nth (Z.to_nat row) (level_matrix l) []) (Z.to_nat col)
    else Some NUL
  else Some NUL.

(** [check_wall_collision(wall)] *)
Definition check_wall_collision (l : t) (wall : Wall.t) : Collision :=
  let player_center := glm.add_scalar (Player.position (player l)) (Player.radius (player l)) in
  let aabb_half_extents :=
    glm.mkvec2 (F32.div (glm.x (Wall.size wall)) F32.two)
               (F32.div (glm.y (Wall.size wall)) F32.two) in
  let aabb_center :=
    glm.mkvec2 (F32.add (glm.x (Wall.position wall)) (glm.x aabb_half_extents))
               (F32.add (glm.y (Wall.position wall)) (glm.y aabb_half_extents)) in
  let difference := glm.sub player_center aabb_center in
  let clamped := glm.clamp difference (glm.neg aabb_half_extents) aabb_half_extents in
  let closest := glm.add aabb_center clamped in
  let difference := glm.sub closest player_center in
  if F32.ltb (glm.length difference) (Player.radius (player l))
  then (true, vector_direction difference, difference)
  else (false, Direction.to_Z Direction.UP, origin).

(** [update(elapsed)]: the guards are updated in order *)
Fixpoint update_guards (elapsed : float) (gs : list Guard.t) (rs : rand_state)
    : option (list Guard.t * rand_state) :=
  match gs with
  | [] => Some ([], rs)
  | g :: gs' =>
      match Guard.update elapsed g rs with
      | None => None
      | Some (g', rs') =>
          match update_guards elapsed gs' rs' with
          | None => None
          | Some (gs'', rs'') => Some (g' :: gs'', rs'')
          end
      end
  end.

Definition update (elapsed : float) (l : t) (rs : rand_state) : option (t * rand_state) :=
  match update_guards elapsed (guards l) rs with
  | None => None
  | Some (gs, rs') =>
      Some (make (level_matrix l) (walls l) (player l) gs (holes l), rs')
  end.

Definition caught_box (g : Guard.t) : Wall.t :=
  let hotspot := glm.add (Guard.position g) (Guard.get_fov_offset g) in
  Wall.make hotspot (glm.vec2_of_Z 1 1).

Definition check_caught_by_guard (l : t) : bool :=
  existsb (fun g => fst (fst (check_wall_collision l (caught_box g)))) (guards l).

(** the test [fell_in_hole] makes for one hole *)
Definition in_hole (p : Player.t) (hole : vec2) : bool :=
  let player_center := glm.add_scalar (Player.position p) F32.half in
  let col_x := F32.gtb (glm.x player_center) (glm.x hole)
               && F32.ltb (glm.x player_center) (F32.add (glm.x hole) F32.one) in
  let col_y := F32.gtb (glm.y player_center) (glm.y hole)
               && F32.ltb (glm.y player_center) (F32.add (glm.y hole) F32.one) in
  col_x && col_y.

Fixpoint fell_in_hole_from (p : Player.t) (hs : list vec2) : bool :=
  match hs with
  | [] => false
  | h :: hs' => if in_hole p h then true else fell_in_hole_from p hs'
  end.

Definition fell_in_hole (l : t) : bool := fell_in_hole_from (player l) (holes l).

End WithEnvironment.
End Level.

End TiltEscape.

(** ** struct Game: the simulation state and the frame update *)

Module Game.
Section WithEnvironment.
Context {rt : Runtime} {fs : FileSystem} {lm : Libm}.

Import TiltEscape.

Record Controls := mkControls {
  tilt_left : bool; tilt_right : bool; tilt_up : bool; tilt_down : bool
}.

Record t := make {
  board_size : glm.uvec2;
  controls : Controls;
  player_acceleration : vec2;
  gravity : float;
  elapsed_tilt_time : float;
  level_names : list string;
  level_index : Z;
  level : Level.t
}.

(** [const float TILT_ANGLE = 45.0f] *)
Definition TILT_ANGLE : float := F32.of_Z 45.

(** the initial value of [gravity], the literal [-9.8f] *)
Definition default_gravity : float := F32.div (F32.of_Z (-98)) (F32.of_Z 10).

Definition default_level_names : list string :=
  ["level1.map"; "level2.map"; "level3.map"; "level4.map"; "level5.map"]%string.

(** [glm::uvec2(level.get_length(), level.get_height())] *)
Definition board_size_of (l : Level.t) : glm.uvec2 :=
  glm.mkuvec2 (Level.get_length l mod 2 ^ 32) (Level.get_height l mod 2 ^ 32).

Definition set_level (l : Level.t) (g : t) : t :=
  make (board_size g) (controls g) (player_acceleration g) (gravity g)
    (elapsed_tilt_time g) (level_names g) (level_index g) l.

Definition set_player (p : Player.t) (g : t) : t :=
  let l := level g in
  set_level (Level.make (Level.level_matrix l) (Level.walls l) p
               (Level.guards l) (Level.holes l)) g.

(** the simulation part of [Game()] *)
Definition new (rs : rand_state) : t * rand_state :=
  let '(l, rs') := Level.load_level (nth 0 default_level_names ""%string) (Level.empty, rs) in
  (make (board_size_of l) (mkControls false false false false) origin
     default_gravity F32.zero default_level_names 0 l, rs').

(** [board_size.x + 1] is computed on [unsigned int] and converted to
    [float] for the comparison. *)
Definition upper_bound (n : Z) : float := F32.of_Z ((n + 1) mod 2 ^ 32).

Definition game_over (g : t) : bool :=
  let p := Player.position (Level.player (level g)) in
  if F32.ltb (glm.x p) (F32.of_Z 0) || F32.gtb (glm.x p) (upper_bound (glm.ux (board_size g)))
  then true
  else if F32.ltb (glm.y p) (F32.of_Z 0) || F32.gtb (glm.y p) (upper_bound (glm.uy (board_size g)))
  then true
  else false.

(** [reset()]. [level_names[level_index]] is read without a check: the
    index is inside the vector in every game ([Game()] starts at 0 and
    [next_level] reduces modulo the size); outside, the model reads the
    empty name. *)
Definition reset (g : t) (rs : rand_state) : t * rand_state :=
  let name := nth (Z.to_nat (level_index g)) (level_names g) ""%string in
  let '(l, rs') := Level.load_level name (Level.clear_level (level g), rs) in
  (make (board_size_of l) (controls g) (player_acceleration g) (gravity g)
     (elapsed_tilt_time g) (level_names g) (level_index g) l, rs').

(** [next_level()] *)
Definition next_level (g : t) (rs : rand_state) : t * rand_state :=
  let index := (level_index g + 1) mod Z.of_nat (List.length (level_names g)) in
  let name := nth (Z.to_nat index) (level_names g) ""%string in
  let '(l, rs') := Level.load_level name (Level.clear_level (level g), rs) in
  (make (board_size_of l) (controls g) (player_acceleration g) (gravity g)
     (elapsed_tilt_time g) (level_names g) index l, rs').

(** What [handle_event] reads of an [SDL_Event]: its type, the repeat
    flag of a key event and the scancode of the key. *)
Inductive EventType := SDL_KEYDOWN | SDL_KEYUP | SDL_OTHER.
Inductive Scancode :=
  SDL_SCANCODE_W | SDL_SCANCODE_S | SDL_SCANCODE_A | SDL_SCANCODE_D | SDL_SCANCODE_OTHER.
Record Event := mkEvent { evt_type : EventType; key_repeat : bool; scancode : Scancode }.

Definition is_keydown (e : Event) : bool :=
  match evt_type e with SDL_KEYDOWN => true | _ => false end.
Definition is_keyup (e : Event) : bool :=
  match evt_type e with SDL_KEYUP => true | _ => false end.

Definition set_controls (c : Controls) (g : t) : t :=
  make (board_size g) c (player_acceleration g) (gravity g)
    (elapsed_tilt_time g) (level_names g) (level_index g) (level g).

(** [handle_event(evt, window_size)]: the new state and the value
    returned, [true] when the event was handled *)
Definition handle_event (evt : Event) (g : t) : t * bool :=
  if is_keydown evt && key_repeat evt then (g, false)
  else if is_keydown evt || is_keyup evt then
    let c := controls g in
    match scancode evt with
    | SDL_SCANCODE_W =>
        (set_controls (mkControls (tilt_left c) (tilt_right c) (is_keydown evt) (tilt_down c)) g,
         true)
    | SDL_SCANCODE_S =>
        (set_controls (mkControls (tilt_left c) (tilt_right c) (tilt_up c) (is_keydown evt)) g,
         true)
    | SDL_SCANCODE_A =>
        (set_controls (mkControls (is_keydown evt) (tilt_right c) (tilt_up c) (tilt_down c)) g,
         true)
    | SDL_SCANCODE_D =>
        (set_controls (mkControls (tilt_left c) (is_keydown evt) (tilt_up c) (tilt_down c)) g,
         true)
    | SDL_SCANCODE_OTHER => (g, false)
    end
  else (g, false).

(** [calculate_acceleration(incline_angle, gravity)] *)
Definition calculate_acceleration (incline_angle gravity : float) : float :=
  F32.mul (F32.mul (F32.div (F32.of_Z 2) (F32.of_Z 3)) gravity) (std_sin incline_angle).

(** [(float)std::pow(time, 2)]: both arguments are promoted to [double] *)
Definition time_squared (time : float) : float :=
  F64.to_float (std_pow (F64.of_float time) (F64.of_Z 2)).

(** [calculate_displacement(time, velocity, acceleration)] *)
Definition calculate_displacement (time : float) (velocity acceleration : vec2) : vec2 :=
  glm.add (glm.mul_scalar velocity time)
    (glm.mul_scalar (glm.scalar_mul (F32.div F32.one F32.two) acceleration)
       (time_squared time)).

(** the acceleration on the X axis chosen by the tilt flags: [acc_x]
    starts at [0.0f], [tilt_left] assigns it, then [tilt_right] does *)
Definition acc_x (c : Controls) (gravity : float) : float :=
  let a := F32.zero in
  let a := if tilt_left c then calculate_acceleration TILT_ANGLE gravity else a in
  let a := if tilt_right c then calculate_acceleration (F32.neg TILT_ANGLE) gravity else a in
  a.

(** and on the Y axis: [tilt_up] assigns, then [tilt_down] does *)
Definition acc_y (c : Controls) (gravity : float) : float :=
  let a := F32.zero in
  let a := if tilt_up c then calculate_acceleration (F32.neg TILT_ANGLE) gravity else a in
  let a := if tilt_down c then calculate_acceleration TILT_ANGLE gravity else a in
  a.

(** The physics of one frame, from the computation of the acceleration
    to the assignment of the new position. *)
Definition integrate_player (elapsed : float) (g : t) : t :=
  let acceleration := glm.mkvec2 (acc_x (controls g) (gravity g))
                                 (acc_y (controls g) (gravity g)) in
  let g := make (board_size g) (controls g) acceleration (gravity g)
             (elapsed_tilt_time g) (level_names g) (level_index g) (level g) in
  let p := Level.player (level g) in
  let displacement :=
    calculate_displacement elapsed (Player.velocity p) (player_acceleration g) in
  let velocity :=
    glm.add (Player.velocity p) (glm.mul_scalar (player_acceleration g) elapsed) in
  let next_pos_x := F32.add (glm.x (Player.position p)) (glm.x displacement) in
  let next_pos_y := F32.add (glm.y (Player.position p)) (glm.y displacement) in
  set_player (Player.make (glm.mkvec2 next_pos_x next_pos_y) (Player.radius p) velocity) g.

(** the resolution of the collision with one wall *)
Definition resolve_collision (l : Level.t) (wall : Wall.t) : Level.t :=
  let '(hit, dir, diff_vector) := Level.check_wall_collision l wall in
  if hit then
    let p := Level.player l in
    let pos := Player.position p in
    let vel := Player.velocity p in
    let p' :=
      if Direction.is_dir Direction.LEFT dir || Direction.is_dir Direction.RIGHT dir then
        let penetration := F32.sub (Player.radius p) (F32.abs (glm.x diff_vector)) in
        let vel := glm.mkvec2 (F32.of_Z 0) (glm.y vel) in
        if Direction.is_dir Direction.LEFT dir
        then Player.make (glm.mkvec2 (F32.add (glm.x pos) penetration) (glm.y pos))
               (Player.radius p) vel
        else Player.make (glm.mkvec2 (F32.sub (glm.x pos) penetration) (glm.y pos))
               (Player.radius p) vel
      else
        let penetration := F32.sub (Player.radius p) (F32.abs (glm.y diff_vector)) in
        let vel := glm.mkvec2 (glm.x vel) (F32.of_Z 0) in
        if Direction.is_dir Direction.UP dir
        then Player.make (glm.mkvec2 (glm.x pos) (F32.sub (glm.y pos) penetration))
               (Player.radius p) vel
        else Player.make (glm.mkvec2 (glm.x pos) (F32.add (glm.y pos) penetration))
               (Player.radius p) vel in
    Level.make (Level.level_matrix l) (Level.walls l) p' (Level.guards l) (Level.holes l)
  else l.

(** the walls are visited in order; none is added or removed on the way *)
Definition resolve_collisions (l : Level.t) : Level.t :=
  fold_left resolve_collision (Level.walls l) l.

(** [Game::update(elapsed)]; [None] is undefined behaviour inside
    [Level::update]. *)
Definition update (elapsed : float) (g : t) (rs : rand_state) : option (t * rand_state) :=
  if game_over g then Some (next_level g rs)
  else if Level.check_caught_by_guard (level g) || Level.fell_in_hole (level g)
  then Some (reset g rs)
  else
    match Level.update elapsed (level g) rs with
    | None => None
    | Some (l, rs') =>
        let g := integrate_player elapsed (set_level l g) in
        Some (set_level (resolve_collisions (level g)) g, rs')
    end.

End WithEnvironment.
End Game.

(** * Definitions used by the statements

Everything below describes the program above from outside: the order
on floats the comparisons compute, the geometry of the collision test,
the cells of a map, runs of several frames, and a small environment on
which the definitions can be run. *)

(** ** The order the float comparisons compute

Every float but NaN has a key; [<] on floats is the lexicographic order
of the keys and [==] is equality of keys (so [+0 == -0]). *)

Definition key (a : float) : option (Z * Z * Z) :=
  match a with
  | S754_nan => None
  | S754_infinity true => Some (-2, 0, 0)
  | S754_finite true m e => Some (-1, - e, - Z.pos m)
  | S754_zero _ => Some (0, 0, 0)
  | S754_finite false m e => Some (1, e, Z.pos m)
  | S754_infinity false => Some (2, 0, 0)
  end.

Definition key_lt (k1 k2 : Z * Z * Z) : Prop :=
  let '(a1, b1, c1) := k1 in
  let '(a2, b2, c2) := k2 in
  a1 < a2 \/ (a1 = a2 /\ (b1 < b2 \/ (b1 = b2 /\ c1 < c2))).

(** A coordinate as the loader produces it: a finite number that is not
    the negative zero. *)
Definition plain (a : float) : bool :=
  match a with
  | S754_zero s => negb s
  | S754_finite _ _ _ => true
  | _ => false
  end.

(** the literals [-0.01f], [1.01f] and a frame of 1/60 s *)
Definition minus_0_01 : float := F32.div (F32.of_Z (-1)) (F32.of_Z 100).
Definition plus_1_01 : float := F32.div (F32.of_Z 101) (F32.of_Z 100).
Definition one_frame : float := F32.div (F32.of_Z 1) (F32.of_Z 60).

(** ** A runtime and a disk to run the definitions on *)

(** [std::rand] and the twister always return 0 (every threshold is then
    [0.0f]), and the uninitialised members hold zeros. *)
Definition zero_runtime : Runtime := {|
  rand_state := unit;
  std_rand := fun _ => (0, tt);
  RAND_MAX := 2147483647;
  mt19937 := unit;
  mt19937_seed := fun _ => tt;
  mt19937_next := fun _ => (0, tt);
  indeterminate := fun _ => F32.zero;
  indeterminate_vec2 := fun _ => TiltEscape.origin
|}.

(** a map with one wall, one player and one hole, and a second map with a
    guard whose digit occurs once *)
Definition small_map : list string := ["#P"; ".H"]%string.
Definition guard_map : list string := ["#####"; "#P.1#"; "#####"]%string.

Definition small_disk : FileSystem := {|
  read_lines := fun name =>
    if String.eqb name "level1.map" then Some small_map
    else if String.eqb name "level2.map" then Some guard_map
    else None
|}.

(** the level and the guards the loader builds from the lines of a map,
    under [zero_runtime] *)
Definition loaded (lines : list string) : TiltEscape.Level.t :=
  fst (TiltEscape.Level.load_lines (rt := zero_runtime) lines
         (TiltEscape.Level.empty (rt := zero_runtime), tt)).

Definition loaded_guards (lines : list string) : list (TiltEscape.Guard.t (rt := zero_runtime)) :=
  TiltEscape.Level.guards (loaded lines).

Definition first_guard (lines : list string) : option (TiltEscape.Guard.t (rt := zero_runtime)) :=
  hd_error (loaded_guards lines).

(** the guard of the map ["11"] as the loader leaves it, the same guard on
    its way from (0,0) to (1,0), about to arrive, and a guard half way from
    (0,0) to (2,0) *)
Definition patrol_guard : TiltEscape.Guard.t (rt := zero_runtime) :=
  TiltEscape.Guard.make (rt := zero_runtime)
    (glm.vec2_of_Z 0 0) 1 F32.half TiltEscape.GuardVision.default
    F32.zero F32.zero tt (glm.vec2_of_Z 0 0) (glm.vec2_of_Z 0 0)
    F32.zero F32.zero (glm.vec2_of_Z 0 0)
    [glm.vec2_of_Z 0 0; glm.vec2_of_Z 1 0].

Definition arriving_guard : TiltEscape.Guard.t (rt := zero_runtime) :=
  TiltEscape.Guard.set_position (glm.mkvec2 (F32.div (F32.of_Z 6) (F32.of_Z 10)) F32.zero)
    (TiltEscape.Guard.set_velocity (glm.mkvec2 (F32.div (F32.of_Z 4) (F32.of_Z 10)) F32.zero)
       (TiltEscape.Guard.set_next_waypoint (glm.vec2_of_Z 1 0) patrol_guard)).

Definition travelling_guard : TiltEscape.Guard.t (rt := zero_runtime) :=
  TiltEscape.Guard.set_position (glm.mkvec2 (F32.div (F32.of_Z 12) (F32.of_Z 10)) F32.zero)
    (TiltEscape.Guard.set_velocity (glm.mkvec2 (F32.div (F32.of_Z 8) (F32.of_Z 10)) F32.zero)
       (TiltEscape.Guard.set_next_waypoint (glm.vec2_of_Z 2 0) patrol_guard)).

(** a guard with two adjacent waypoints, and a map whose second row is
    shorter than its first *)
Definition patrol_map : list string := ["11"]%string.
Definition ragged_map : list string := ["ab"; "c"]%string.

(** ** vector_direction *)

Definition compass_vector (d : TiltEscape.Direction.t) : vec2 :=
  nth (Z.to_nat (TiltEscape.Direction.to_Z d)) TiltEscape.compass TiltEscape.origin.

(** the dot product [vector_direction] compares for a compass vector *)
Definition dot_with (target : vec2) (c : vec2) : float :=
  glm.dot (glm.normalize target) c.

(** What holds of [(max, best_match)] after the loop has seen the compass
    vectors [seen]: nothing matched and no dot product was positive, or the
    best match is the first among the greatest. *)
Definition loop_inv (target : vec2) (seen : list (Z * vec2)) (st : float * Z) : Prop :=
  (st = (F32.zero, TiltEscape.no_match) /\
   Forall (fun ic => F32.gtb (dot_with target (snd ic)) F32.zero = false) seen)
  \/
  (exists pre k c post,
      seen = pre ++ (k, c) :: post /\
      st = (dot_with target c, k) /\
      F32.gtb (dot_with target c) F32.zero = true /\
      Forall (fun ic => F32.gtb (dot_with target (snd ic)) (dot_with target c) = false) seen /\
      Forall (fun ic => F32.eqb (dot_with target (snd ic)) (dot_with target c) = false) pre).

(** ** Guards over several frames *)

Section GuardRuns.
Context {rt : Runtime}.
Import TiltEscape.

(** [update] called once per frame with the elapsed times [ts] *)
Fixpoint run_updates (ts : list float) (g : Guard.t) (rs : rand_state)
    : option (Guard.t * rand_state) :=
  match ts with
  | [] => Some (g, rs)
  | elapsed :: ts' =>
      match Guard.update elapsed g rs with
      | None => None
      | Some (g', rs') => run_updates ts' g' rs'
      end
  end.

(** the front of a deque moved to its back *)
Definition rotate (ws : list vec2) : list vec2 :=
  match ws with
  | [] => []
  | w :: rest => rest ++ [w]
  end.

(** the guard after the position integration that opens [update] *)
Definition moved (elapsed : float) (g : Guard.t) : Guard.t :=
  Guard.set_position
    (glm.add (Guard.position g) (glm.mul_scalar (Guard.velocity g) elapsed)) g.

(** what the patrol of a guard consists of; the look direction and its
    timers are the rest *)
Definition same_patrol (g g' : Guard.t) : Prop :=
  Guard.position g' = Guard.position g /\
  Guard.current_waypoint g' = Guard.current_waypoint g /\
  Guard.next_waypoint g' = Guard.next_waypoint g /\
  Guard.velocity g' = Guard.velocity g /\
  Guard.waypoints g' = Guard.waypoints g /\
  Guard.time_at_waypoint g' = Guard.time_at_waypoint g /\
  Guard.wait_thresh g' = Guard.wait_thresh g.

(** what the look-around of a guard consists of, and what no update
    touches *)
Definition same_look (g g' : Guard.t) : Prop :=
  Guard.fov g' = Guard.fov g /\
  Guard.time_looking_in_direction g' = Guard.time_looking_in_direction g /\
  Guard.look_thresh g' = Guard.look_thresh g /\
  Guard.mt g' = Guard.mt g.

Definition same_identity (g g' : Guard.t) : Prop :=
  Guard.guard_id g' = Guard.guard_id g /\
  Guard.radius g' = Guard.radius g /\
  Guard.wait_thresh g' = Guard.wait_thresh g /\
  GuardVision.radius (Guard.fov g') = GuardVision.radius (Guard.fov g) /\
  GuardVision.distance (Guard.fov g') = GuardVision.distance (Guard.fov g).

(** A guard that stands on the cell [p] with nowhere else to go: its
    position, both waypoints and every queued waypoint are [p], and it
    does not move. *)
Definition stays_at (p : vec2) (g : Guard.t) : Prop :=
  Guard.position g = p /\
  Guard.current_waypoint g = p /\
  Guard.next_waypoint g = p /\
  Guard.velocity g = origin /\
  Guard.waypoints g <> [] /\
  Forall (eq p) (Guard.waypoints g).

(** [p] is a cell of the grid: its coordinates round to themselves *)
Definition grid_cell (p : vec2) : Prop :=
  F32.eqb (F32.roundf (glm.x p)) (glm.x p) = true /\
  F32.eqb (F32.roundf (glm.y p)) (glm.y p) = true /\
  plain (glm.x p) = true /\ plain (glm.y p) = true.
End GuardRuns.

(** ** The collision test *)

Section CollisionGeometry.
Context {rt : Runtime}.
Import TiltEscape.

Definition circle_center (l : Level.t) : vec2 :=
  glm.add_scalar (Player.position (Level.player l)) (Player.radius (Level.player l)).

Definition half_extents (w : Wall.t) : vec2 :=
  glm.mkvec2 (F32.div (glm.x (Wall.size w)) F32.two) (F32.div (glm.y (Wall.size w)) F32.two).

Definition box_center (w : Wall.t) : vec2 := glm.add (Wall.position w) (half_extents w).

(** the difference before clamping *)
Definition raw_difference (l : Level.t) (w : Wall.t) : vec2 :=
  glm.sub (circle_center l) (box_center w).

Definition closest_point (l : Level.t) (w : Wall.t) : vec2 :=
  glm.add (box_center w)
    (glm.clamp (raw_difference l w) (glm.neg (half_extents w)) (half_extents w)).

(** the vector from the circle center to the closest point of the box *)
Definition to_closest (l : Level.t) (w : Wall.t) : vec2 :=
  glm.sub (closest_point l w) (circle_center l).

(** the reading of the collision report under which the direction is
    that of the difference before clamping *)
Definition reports_raw_direction (l : Level.t) (w : Wall.t) : Prop :=
  fst (fst (Level.check_wall_collision l w)) = true ->
  snd (fst (Level.check_wall_collision l w)) = vector_direction (raw_difference l w).

Definition level_with_player (p : Player.t) : Level.t := Level.make [] [] p [] [].

(** ** Holes *)

Definition approximate_center (p : Player.t) : vec2 :=
  glm.add_scalar (Player.position p) F32.half.

Definition strictly_inside (c hole : vec2) : Prop :=
  (F32.ltb (glm.x hole) (glm.x c) = true /\
   F32.ltb (glm.x c) (F32.add (glm.x hole) F32.one) = true) /\
  (F32.ltb (glm.y hole) (glm.y c) = true /\
   F32.ltb (glm.y c) (F32.add (glm.y hole) F32.one) = true).

Definition on_edge (c hole : vec2) : Prop :=
  F32.eqb (glm.x c) (glm.x hole) = true \/
  F32.eqb (glm.x c) (F32.add (glm.x hole) F32.one) = true \/
  F32.eqb (glm.y c) (glm.y hole) = true \/
  F32.eqb (glm.y c) (F32.add (glm.y hole) F32.one) = true.
End CollisionGeometry.

Definition unit_wall_at_origin : TiltEscape.Wall.t :=
  TiltEscape.Wall.make TiltEscape.origin TiltEscape.WALL_SIZE.

(** a player of radius 0.5 at [(0.9, 0)], overlapping the right side of
    the unit wall at the origin *)
Definition player_right_of_wall : TiltEscape.Player.t :=
  TiltEscape.Player.new
    (glm.mkvec2 (F32.div (F32.of_Z 9) (F32.of_Z 10)) F32.zero) F32.half.

(** ** The cells of a map *)

(** the character of a matrix at a row and a column, when there is one *)
Definition cell (m : list (list ascii)) (row col : Z) : option ascii :=
  if (row <? 0) || (col <? 0) then None
  else match nth_error m (Z.to_nat row) with
       | Some r => nth_error r (Z.to_nat col)
       | None => None
       end.

(** every row has the length of the first *)
Definition rectangular (m : list (list ascii)) : Prop :=
  Forall (fun r => List.length r = List.length (nth 0 m [])) m.

(** the columns of a line, from column [i] on, that hold the character [ch] *)
Fixpoint columns_of (ch : ascii) (i : Z) (cs : list ascii) : list Z :=
  match cs with
  | [] => []
  | c :: cs' => (if Ascii.eqb c ch then [i] else []) ++ columns_of ch (i + 1) cs'
  end.

(** the cells [(column, row)] that hold [ch], in scan order; [r] is the
    index of the first line *)
Fixpoint cells_of (ch : ascii) (r : Z) (lines : list string) : list (Z * Z) :=
  match lines with
  | [] => []
  | line :: rest =>
      map (fun c => (c, r)) (columns_of ch 0 (list_ascii_of_string line))
      ++ cells_of ch (r + 1) rest
  end.

Definition cell_position (cell : Z * Z) : vec2 := glm.vec2_of_Z (fst cell) (snd cell).

Definition wall_at (cell : Z * Z) : TiltEscape.Wall.t :=
  TiltEscape.Wall.make (cell_position cell) (glm.vec2_of_Z 1 1).

Definition player_at (cell : Z * Z) : TiltEscape.Player.t :=
  TiltEscape.Player.make (cell_position cell) F32.half TiltEscape.origin.

(** the player a list of ['P'] cells leaves, scanned after [p0]: the last *)
Definition last_player (p0 : TiltEscape.Player.t) (cells : list (Z * Z)) : TiltEscape.Player.t :=
  fold_left (fun _ cell => player_at cell) cells p0.

(** ** The guards of a level *)

Section GuardLookup.
Context {rt : Runtime}.
Import TiltEscape.

(** the first guard of a list with a given identifier *)
Fixpoint guard_with_id (guard_id : Z) (gs : list Guard.t) : option Guard.t :=
  match gs with
  | [] => None
  | g :: gs' => if Guard.guard_id g =? guard_id then Some g else guard_with_id guard_id gs'
  end.

(** the patrol route recorded for an identifier: empty without a guard *)
Definition route (guard_id : Z) (gs : list Guard.t) : list vec2 :=
  match guard_with_id guard_id gs with
  | Some g => Guard.waypoints g
  | None => []
  end.

(** a guard as the loader leaves it: standing still on the first cell of
    its route, which is both its current and its next waypoint *)
Definition at_spawn (g : Guard.t) : Prop :=
  exists cell rest,
    0 <= fst cell /\ 0 <= snd cell /\
    Guard.waypoints g = cell_position cell :: rest /\
    Guard.position g = cell_position cell /\
    Guard.current_waypoint g = cell_position cell /\
    Guard.next_waypoint g = cell_position cell /\
    Guard.velocity g = origin /\
    0 <= Guard.guard_id g <= 9.

(** the guard is on a cell of a map [W] wide and [H] high *)
Definition spawn_within (W H : Z) (g : Guard.t) : Prop :=
  exists c r, 0 <= c < W /\ 0 <= r < H /\ Guard.position g = cell_position (c, r).
End GuardLookup.

(** ** The game *)

Section GameState.
Context {rt : Runtime}.

Definition player_position (g : Game.t) : vec2 :=
  TiltEscape.Player.position (TiltEscape.Level.player (Game.level g)).

Definition player_velocity (g : Game.t) : vec2 :=
  TiltEscape.Player.velocity (TiltEscape.Level.player (Game.level g)).
End GameState.

(** a game on the default board of 5 by 4 cells, nothing loaded, with the
    player at [(x, y)] *)
Definition game_with_player_at (x y : float) : Game.t (rt := zero_runtime) :=
  Game.make (glm.mkuvec2 5 4) (Game.mkControls false false false false)
    TiltEscape.origin Game.default_gravity F32.zero Game.default_level_names 0
    (level_with_player (TiltEscape.Player.new (glm.mkvec2 x y) F32.half)).

Section GameInvariant.
Context {rt : Runtime}.
Import TiltEscape.

(** A game as [Game()] and the level changes leave it: the index names a
    level, the board has the extents of the map and every guard has a
    route. *)
Definition well_formed (g : Game.t) : Prop :=
  0 <= Game.level_index g < Z.of_nat (List.length (Game.level_names g)) /\
  Game.board_size g = Game.board_size_of (Game.level g) /\
  Forall (fun gd => Guard.waypoints gd <> []) (Level.guards (Game.level g)).
(** the tilt flag a key drives *)
Definition flag_of (k : Game.Scancode) (c : Game.Controls) : option bool :=
  match k with
  | Game.SDL_SCANCODE_W => Some (Game.tilt_up c)
  | Game.SDL_SCANCODE_S => Some (Game.tilt_down c)
  | Game.SDL_SCANCODE_A => Some (Game.tilt_left c)
  | Game.SDL_SCANCODE_D => Some (Game.tilt_right c)
  | Game.SDL_SCANCODE_OTHER => None
  end.
End GameInvariant.

Section Kinematics.
Context {rt : Runtime} {lm : Libm}.
Import TiltEscape.

(** the acceleration along a board inclined by [angle]:
    [(2/3) * gravity * sin(angle)], the angle handed to the sine as it
    is *)
Definition incline (gravity angle : float) : float :=
  F32.mul (F32.mul (F32.div (F32.of_Z 2) (F32.of_Z 3)) gravity) (std_sin angle).

(** the acceleration the tilt flags of a game select: on X the angle -45
    for [tilt_right], else 45 for [tilt_left]; on Y the angle 45 for
    [tilt_down], else -45 for [tilt_up]; 0 on an axis without a flag *)
Definition tilt_acceleration (g : Game.t) : vec2 :=
  let c := Game.controls g in
  let gravity := Game.gravity g in
  glm.mkvec2
    (if Game.tilt_right c then incline gravity (F32.neg (F32.of_Z 45))
     else if Game.tilt_left c then incline gravity (F32.of_Z 45)
     else F32.zero)
    (if Game.tilt_down c then incline gravity (F32.of_Z 45)
     else if Game.tilt_up c then incline gravity (F32.neg (F32.of_Z 45))
     else F32.zero).

(** [t^2]: [pow] on [double], converted back to [float] *)
Definition squared (t : float) : float :=
  F64.to_float (std_pow (F64.of_float t) (F64.of_Z 2)).

(** one coordinate after a frame of [t] seconds:
    [x + (v*t + ((1/2)*a)*t^2)] *)
Definition displaced (x v a t : float) : float :=
  F32.add x
    (F32.add (F32.mul v t)
       (F32.mul (F32.mul (F32.div F32.one F32.two) a) (squared t))).

(** the player after the kinematic step of a frame of [elapsed] seconds
    under the acceleration [a]: each coordinate displaced with the
    velocity before the frame, and [v + a*t] for velocity *)
Definition kinematic_step (elapsed : float) (a : vec2) (p : Player.t) : Player.t :=
  let x := Player.position p in
  let v := Player.velocity p in
  Player.make
    (glm.mkvec2 (displaced (glm.x x) (glm.x v) (glm.x a) elapsed)
                (displaced (glm.y x) (glm.y v) (glm.y a) elapsed))
    (Player.radius p)
    (glm.mkvec2 (F32.add (glm.x v) (F32.mul (glm.x a) elapsed))
                (F32.add (glm.y v) (F32.mul (glm.y a) elapsed))).
End Kinematics.

(** A [libm] to run frames on: [pow(t, 2)] is the product [t * t] in
    [double]; the sine is a placeholder, the examples run on it set no tilt flag and
    never call it. *)
Definition plain_libm : Libm := {|
  std_sin := fun a => a;
  std_pow := fun a _ => F64.mul a a
|}.

(** the game [Game()] builds when [level1.map] holds [small_map], and the
    same game at the third level name, for which [small_disk] has no file *)
Definition small_game : Game.t (rt := zero_runtime) :=
  Game.make (Game.board_size_of (loaded small_map))
    (Game.mkControls false false false false) TiltEscape.origin Game.default_gravity
    F32.zero Game.default_level_names 0 (loaded small_map).

Definition small_game_at_level3 : Game.t (rt := zero_runtime) :=
  Game.make (Game.board_size_of (loaded small_map))
    (Game.mkControls false false false false) TiltEscape.origin Game.default_gravity
    F32.zero Game.default_level_names 2 (loaded small_map).

(** A [libm] for a tilted board: [std::sin] at the two arguments the game
    passes, 45 and -45, with the value of [sin(45)] for an angle in
    radians rounded to [float] (0.85090351), and 0 at every other
    argument; [pow(t, 2)] is the product [t * t] in [double]. *)
Definition sin_45 : float := S754_finite false 14275792 (-24).

Definition tilt_libm : Libm := {|
  std_sin := fun a =>
    if F32.eqb a (F32.of_Z 45) then sin_45
    else if F32.eqb a (F32.of_Z (-45)) then F32.neg sin_45
    else F32.zero;
  std_pow := fun a _ => F64.mul a a
|}.

(** [small_game] after W is pressed: the board is tilted up *)
Definition tilted_game : Game.t (rt := zero_runtime) :=
  Game.make (Game.board_size_of (loaded small_map))
    (Game.mkControls false false true false) TiltEscape.origin Game.default_gravity
    F32.zero Game.default_level_names 0 (loaded small_map).

(** What happens to a game: a frame of some elapsed time, or an event. *)
Inductive Input := Frame (elapsed : float) | Key (evt : Game.Event).

Section GameRuns.
Context {rt : Runtime} {fs : FileSystem} {lm : Libm}.

(** the game after a sequence of inputs; [None] when a frame runs into
    undefined behaviour *)
Fixpoint run_inputs (inputs : list Input) (g : Game.t) (rs : rand_state)
    : option (Game.t * rand_state) :=
  match inputs with
  | [] => Some (g, rs)
  | Frame elapsed :: rest =>
      match Game.update elapsed g rs with
      | None => None
      | Some (g', rs') => run_inputs rest g' rs'
      end
  | Key evt :: rest => run_inputs rest (fst (Game.handle_event evt g)) rs
  end.
End GameRuns.

(** ** game_over *)

(** The members of [float] that are binary32 numbers: a finite one has its
    mantissa and exponent in canonical form. Every [float] of the program
    is one. *)
Definition binary32 (x : float) : bool := valid_binary F32.prec F32.emax x.

(** The order of the numbers, on the exact value [(-1)^s * m * 2^e] of a
    finite float: [x] is below 0, and [x] is above the integer [n] (both
    sides of [n < m * 2^e] scaled to integers). A NaN is neither. *)
Definition below_zero (x : float) : bool :=
  match x with
  | S754_infinity true | S754_finite true _ _ => true
  | _ => false
  end.

Definition above (x : float) (n : Z) : bool :=
  match x with
  | S754_nan => false
  | S754_infinity s => negb s
  | S754_zero _ => n <? 0
  | S754_finite s m e =>
      n * 2 ^ Z.max 0 (- e) <? (if s then Z.neg m else Z.pos m) * 2 ^ Z.max 0 e
  end.

(** a game on a board of [bx] by [by_] cells, nothing loaded, with the
    player at [(x, y)] *)
Definition game_on_board (bx by_ : Z) (x y : float) : Game.t (rt := zero_runtime) :=
  Game.make (glm.mkuvec2 bx by_) (Game.mkControls false false false false)
    TiltEscape.origin Game.default_gravity F32.zero Game.default_level_names 0
    (level_with_player (TiltEscape.Player.new (glm.mkvec2 x y) F32.half)).

(** the [float] sum [n + 1.01f] lies beyond [n + 1], for one [n] and for
    the [count] integers from [k] on *)
Definition sum_beyond (n : Z) : bool :=
  F32.gtb (F32.add (F32.of_Z n) plus_1_01) (F32.of_Z (n + 1)).

Fixpoint sum_beyond_from (k : Z) (count : nat) : bool :=
  match count with
  | O => true
  | S count' => sum_beyond k && sum_beyond_from (k + 1) count'
  end.

(** the radian measure of an angle given in degrees, with [pi] rounded to
    [float] *)
Definition pi_f : float := S754_finite false 13176795 (-22).
Definition radians (degrees : float) : float :=
  F32.div (F32.mul degrees pi_f) (F32.of_Z 180).

(** ** check_caught_by_guard *)


(** * Properties *)

(** ** The float comparisons are a strict order with its equality *)

Ltac compare_cases :=
  repeat match goal with
  | |- context [Z.compare ?a ?b] => destruct (Z.compare_spec a b)
  | |- context [Pos.compare_cont Eq ?a ?b] =>
      change (Pos.compare_cont Eq a b) with (Pos.compare a b);
      destruct (Pos.compare_spec a b)
  end.

Lemma compare_Lt_key (a b : float) :
  SFcompare a b = Some Lt <->
  exists ka kb, key a = Some ka /\ key b = Some kb /\ key_lt ka kb.
Proof.
  split.
  - destruct a as [sa|sa| |sa ma ea], b as [sb|sb| |sb mb eb]; simpl;
      try destruct sa; try destruct sb; simpl; try discriminate; intros H;
      try (do 2 eexists; split; [reflexivity|split; [reflexivity|]]; simpl; lia).
    + do 2 eexists; split; [reflexivity|split; [reflexivity|]]; simpl.
      revert H. compare_cases; simpl; try discriminate; intros _; lia.
    + do 2 eexists; split; [reflexivity|split; [reflexivity|]]; simpl.
      revert H. compare_cases; simpl; try discriminate; intros _; lia.
  - intros (ka & kb & Ha & Hb & Hlt).
    destruct a as [sa|sa| |sa ma ea], b as [sb|sb| |sb mb eb]; simpl in *;
      try destruct sa; try destruct sb; simpl in *; try discriminate;
      inversion Ha; inversion Hb; subst; simpl in Hlt; try lia; try reflexivity;
      compare_cases; simpl; try reflexivity; try lia.
Qed.

Lemma compare_Eq_key (a b : float) :
  SFcompare a b = Some Eq <-> exists k, key a = Some k /\ key b = Some k.
Proof.
  split.
  - destruct a as [sa|sa| |sa ma ea], b as [sb|sb| |sb mb eb]; simpl;
      try destruct sa; try destruct sb; simpl; try discriminate; intros H;
      try (eexists; split; reflexivity).
    + revert H. compare_cases; simpl; try discriminate; intros _.
      subst. eexists; split; reflexivity.
    + revert H. compare_cases; simpl; try discriminate; intros _.
      subst. eexists; split; reflexivity.
  - intros (k & Ha & Hb).
    destruct a as [sa|sa| |sa ma ea], b as [sb|sb| |sb mb eb]; simpl in *;
      try destruct sa; try destruct sb; simpl in *; try discriminate;
      try reflexivity; rewrite <- Hb in Ha; try discriminate;
      injection Ha; intros;
      assert (ea = eb) by lia; assert (ma = mb) by lia; subst;
      rewrite Z.compare_refl;
      change (Pos.compare_cont Eq mb mb) with (Pos.compare mb mb);
      rewrite Pos.compare_refl; reflexivity.
Qed.

Lemma key_lt_trans k1 k2 k3 : key_lt k1 k2 -> key_lt k2 k3 -> key_lt k1 k3.
Proof.
  destruct k1 as [[a1 b1] c1], k2 as [[a2 b2] c2], k3 as [[a3 b3] c3]; simpl; lia.
Qed.

Lemma key_lt_irrefl k : ~ key_lt k k.
Proof. destruct k as [[a b] c]; simpl; lia. Qed.

Lemma ltb_spec a b :
  F32.ltb a b = true <-> exists ka kb, key a = Some ka /\ key b = Some kb /\ key_lt ka kb.
Proof.
  rewrite <- compare_Lt_key. unfold F32.ltb, SFltb.
  destruct (SFcompare a b) as [[]|]; split; congruence.
Qed.

Lemma eqb_spec a b :
  F32.eqb a b = true <-> exists k, key a = Some k /\ key b = Some k.
Proof.
  rewrite <- compare_Eq_key. unfold F32.eqb, SFeqb.
  destruct (SFcompare a b) as [[]|]; split; congruence.
Qed.

Lemma ltb_irrefl a : F32.ltb a a = false.
Proof.
  destruct (F32.ltb a a) eqn:E; [|reflexivity].
  apply ltb_spec in E. destruct E as (ka & kb & Ha & Hb & Hlt).
  rewrite Ha in Hb. inversion Hb; subst. now apply key_lt_irrefl in Hlt.
Qed.

Lemma ltb_trans a b c : F32.ltb a b = true -> F32.ltb b c = true -> F32.ltb a c = true.
Proof.
  rewrite !ltb_spec. intros (ka & kb & Ha & Hb & H1) (kb' & kc & Hb' & Hc & H2).
  rewrite Hb in Hb'. inversion Hb'; subst.
  exists ka, kc. eauto using key_lt_trans.
Qed.

Lemma ltb_eqb_r a b c : F32.ltb a b = true -> F32.eqb c b = true -> F32.ltb a c = true.
Proof.
  rewrite !ltb_spec, eqb_spec. intros (ka & kb & Ha & Hb & H1) (k & Hc & Hb').
  rewrite Hb in Hb'. inversion Hb'; subst. exists ka, k. auto.
Qed.

Lemma eqb_not_ltb a b : F32.eqb a b = true -> F32.ltb a b = false /\ F32.ltb b a = false.
Proof.
  rewrite eqb_spec. intros (k & Ha & Hb).
  split.
  - destruct (F32.ltb a b) eqn:E; [|reflexivity].
    apply ltb_spec in E. destruct E as (ka & kb & Ha' & Hb' & Hlt).
    rewrite Ha in Ha'. rewrite Hb in Hb'. inversion Ha'; inversion Hb'; subst.
    now apply key_lt_irrefl in Hlt.
  - destruct (F32.ltb b a) eqn:E; [|reflexivity].
    apply ltb_spec in E. destruct E as (ka & kb & Ha' & Hb' & Hlt).
    rewrite Ha in Hb'. rewrite Hb in Ha'. inversion Ha'; inversion Hb'; subst.
    now apply key_lt_irrefl in Hlt.
Qed.

(** ** Small integers as floats *)

Lemma digits2_pos_iter_xO m k :
  Z.pos (digits2_pos (Pos.iter xO m k)) = Z.pos (digits2_pos m) + Z.pos k.
Proof.
  induction k as [|k IH] using Pos.peano_ind.
  - cbn [Pos.iter digits2_pos]. lia.
  - rewrite Pos.iter_succ. cbn [digits2_pos]. lia.
Qed.

Lemma pos_iter_xO_value m k : Z.pos (Pos.iter xO m k) = Z.pos m * 2 ^ Z.pos k.
Proof.
  induction k as [|k IH] using Pos.peano_ind.
  - cbn [Pos.iter]. lia.
  - rewrite Pos.iter_succ, Pos2Z.inj_succ, Z.pow_succ_r by lia.
    rewrite Pos2Z.inj_xO, IH. lia.
Qed.

Lemma binary_round_aux_exact s mz ez :
  Z.pos (digits2_pos mz) = 24 -> -149 <= ez <= 104 ->
  binary_round_aux F32.prec F32.emax s (Z.pos mz) ez loc_Exact = S754_finite s mz ez.
Proof.
  intros Hd He.
  assert (Hf : fexp F32.prec F32.emax (Z.pos (digits2_pos mz) + ez) - ez = 0).
  { unfold fexp, emin, F32.prec, F32.emax. rewrite Hd. lia. }
  unfold binary_round_aux, shr_fexp. cbn [Zdigits2 shr_record_of_loc].
  fold F32.prec F32.emax. rewrite Hf. cbn [shr shr_m loc_of_shr_record round_nearest_even
                                           Zdigits2 shr_record_of_loc].
  rewrite Hf. cbn [shr shr_m].
  replace (ez <=? F32.emax - F32.prec) with true
    by (symmetry; apply Z.leb_le; unfold F32.emax, F32.prec; lia).
  reflexivity.
Qed.

(** the representation of a positive integer below 2^24 *)
Lemma of_Z_small m :
  Z.pos m < 2 ^ 24 ->
  exists mz ez,
    F32.of_Z (Z.pos m) = S754_finite false mz ez /\
    -23 <= ez <= 0 /\ Z.pos mz = Z.pos m * 2 ^ (- ez).
Proof.
  intros Hm.
  assert (Hd : 1 <= Z.pos (digits2_pos m) <= 24).
  { split; [lia|]. 
    assert (H : forall p, 2 ^ (Z.pos (digits2_pos p) - 1) <= Z.pos p).
    { induction p as [p IH|p IH|]; cbn [digits2_pos].
      - rewrite Pos2Z.inj_succ. replace (Z.succ (Z.pos (digits2_pos p)) - 1)
          with (Z.succ (Z.pos (digits2_pos p) - 1)) by lia.
        rewrite Z.pow_succ_r by lia. lia.
      - rewrite Pos2Z.inj_succ. replace (Z.succ (Z.pos (digits2_pos p)) - 1)
          with (Z.succ (Z.pos (digits2_pos p) - 1)) by lia.
        rewrite Z.pow_succ_r by lia. lia.
      - cbn. lia. }
    specialize (H m).
    destruct (Z_le_gt_dec (Z.pos (digits2_pos m)) 24) as [Hle|Hgt]; [exact Hle|].
    exfalso. assert (2 ^ 24 <= 2 ^ (Z.pos (digits2_pos m) - 1))
      by (apply Z.pow_le_mono_r; lia). lia. }
  unfold F32.of_Z, binary_normalize, binary_round.
  assert (Hf : fexp F32.prec F32.emax (Z.pos (digits2_pos m) + 0)
               = Z.pos (digits2_pos m) - 24).
  { unfold fexp, emin, F32.prec, F32.emax. lia. }
  rewrite Hf. unfold shl_align.
  destruct (Z.pos (digits2_pos m) - 24 - 0) as [|p|p] eqn:E; [| lia |].
  - exists m, 0.
    rewrite binary_round_aux_exact by lia.
    split; [reflexivity|]. split; [lia|]. cbn. lia.
  - exists (Pos.iter xO m p), (Z.pos (digits2_pos m) - 24).
    rewrite binary_round_aux_exact.
    + split; [reflexivity|]. split; [lia|].
      rewrite pos_iter_xO_value. f_equal. f_equal. lia.
    + rewrite digits2_pos_iter_xO. lia.
    + lia.
Qed.

Lemma eqb_refl_finite a : F32.is_finite a = true -> F32.eqb a a = true.
Proof.
  intros H. apply eqb_spec.
  destruct a as [s|s| |s m e]; try discriminate H; cbn [key];
    try destruct s; eauto.
Qed.

(** A coordinate of the map below 2^24 is its own rounding, and a plain
    float. *)
Lemma of_Z_grid n :
  0 <= n < 2 ^ 24 ->
  F32.roundf (F32.of_Z n) = F32.of_Z n /\ plain (F32.of_Z n) = true /\
  F32.eqb (F32.roundf (F32.of_Z n)) (F32.of_Z n) = true.
Proof.
  intros Hn.
  assert (H : F32.roundf (F32.of_Z n) = F32.of_Z n /\ plain (F32.of_Z n) = true).
  { destruct n as [|m|m]; [split; reflexivity | | lia].
    destruct (of_Z_small m) as (mz & ez & Hof & Hez & Hmz); [lia|].
    rewrite Hof. split; [|reflexivity].
    unfold F32.roundf.
    destruct (0 <=? ez) eqn:E; [reflexivity|].
    apply Z.leb_gt in E.
    assert (Hp : 0 < 2 ^ (- ez)) by (apply Z.pow_pos_nonneg; lia).
    rewrite Hmz, Z.div_mul, Z.mod_mul by lia.
    replace (2 ^ (- ez) <=? 2 * 0) with false by (symmetry; apply Z.leb_gt; lia).
    cbn [cond_Zopp]. fold (F32.of_Z (Z.pos m)). exact Hof. }
  destruct H as (Hr & Hp). split; [exact Hr|]. split; [exact Hp|].
  rewrite Hr. apply eqb_refl_finite.
  destruct (F32.of_Z n) as [[]| | |]; try discriminate Hp; reflexivity.
Qed.

(** ** The order of floats and integers *)

Lemma digits2_pos_bounds p :
  2 ^ (Z.pos (digits2_pos p) - 1) <= Z.pos p < 2 ^ Z.pos (digits2_pos p).
Proof.
  induction p as [p IH|p IH|]; cbn [digits2_pos].
  - rewrite Pos2Z.inj_succ.
    replace (Z.succ (Z.pos (digits2_pos p)) - 1) with (Z.succ (Z.pos (digits2_pos p) - 1)) by lia.
    rewrite !Z.pow_succ_r by lia. lia.
  - rewrite Pos2Z.inj_succ.
    replace (Z.succ (Z.pos (digits2_pos p)) - 1) with (Z.succ (Z.pos (digits2_pos p) - 1)) by lia.
    rewrite !Z.pow_succ_r by lia. lia.
  - cbn. lia.
Qed.

(** the mantissa of a positive integer below 2^24 has 24 digits *)
Lemma of_Z_normal m :
  Z.pos m < 2 ^ 24 ->
  exists mz ez,
    F32.of_Z (Z.pos m) = S754_finite false mz ez /\
    -23 <= ez <= 0 /\ Z.pos mz = Z.pos m * 2 ^ (- ez) /\
    2 ^ 23 <= Z.pos mz < 2 ^ 24.
Proof.
  intros Hm.
  pose proof (digits2_pos_bounds m) as Hb.
  assert (Hd : 1 <= Z.pos (digits2_pos m) <= 24).
  { split; [lia|].
    destruct (Z_le_gt_dec (Z.pos (digits2_pos m)) 24) as [Hle|Hgt]; [exact Hle|].
    exfalso. assert (2 ^ 24 <= 2 ^ (Z.pos (digits2_pos m) - 1))
      by (apply Z.pow_le_mono_r; lia). lia. }
  unfold F32.of_Z, binary_normalize, binary_round.
  assert (Hf : fexp F32.prec F32.emax (Z.pos (digits2_pos m) + 0)
               = Z.pos (digits2_pos m) - 24).
  { unfold fexp, emin, F32.prec, F32.emax. lia. }
  rewrite Hf. unfold shl_align.
  destruct (Z.pos (digits2_pos m) - 24 - 0) as [|p|p] eqn:E; [| lia |].
  - exists m, 0.
    rewrite binary_round_aux_exact by lia.
    split; [reflexivity|]. split; [lia|]. split; [cbn; lia|].
    replace (Z.pos (digits2_pos m)) with 24 in Hb by lia. exact Hb.
  - exists (Pos.iter xO m p), (Z.pos (digits2_pos m) - 24).
    assert (Hdi : Z.pos (digits2_pos (Pos.iter xO m p)) = 24)
      by (rewrite digits2_pos_iter_xO; lia).
    rewrite binary_round_aux_exact; [| exact Hdi | lia].
    split; [reflexivity|]. split; [lia|]. split.
    + rewrite pos_iter_xO_value. f_equal. f_equal. lia.
    + pose proof (digits2_pos_bounds (Pos.iter xO m p)) as Hb2.
      rewrite Hdi in Hb2. exact Hb2.
Qed.

Lemma binary32_finite s m e :
  binary32 (S754_finite s m e) = true ->
  Z.pos m < 2 ^ 24 /\ (2 ^ 23 <= Z.pos m \/ e = -149).
Proof.
  unfold binary32, valid_binary, bounded, canonical_mantissa, fexp, emin, F32.prec, F32.emax.
  intros H. apply andb_true_iff in H. destruct H as [H _]. apply Z.eqb_eq in H.
  pose proof (digits2_pos_bounds m) as Hb.
  assert (Hd : Z.pos (digits2_pos m) <= 24) by lia.
  split.
  - assert (2 ^ Z.pos (digits2_pos m) <= 2 ^ 24) by (apply Z.pow_le_mono_r; lia). lia.
  - destruct (Z.eq_dec e (-149)) as [He|He]; [right; exact He|left].
    assert (Z.pos (digits2_pos m) = 24) by lia.
    replace (Z.pos (digits2_pos m)) with 24 in Hb by lia. lia.
Qed.

Lemma ltb_zero_below (x : float) : F32.ltb x (F32.of_Z 0) = below_zero x.
Proof. destruct x as [[]|[]| |[] m e]; reflexivity. Qed.

(** comparison with a positive integer below 2^24 follows the numbers *)
Lemma gtb_of_Z_above (x : float) (n : Z) :
  binary32 x = true -> 0 < n < 2 ^ 24 ->
  F32.gtb x (F32.of_Z n) = above x n.
Proof.
  intros Hx Hn. destruct n as [|n|n]; try lia.
  destruct (of_Z_normal n) as (M & E & -> & HE & HM & HMb); [lia|].
  unfold F32.gtb, SFltb.
  destruct x as [sx|sx| |sx m e].
  - cbn [SFcompare above]. symmetry. apply Z.ltb_ge. lia.
  - destruct sx; reflexivity.
  - reflexivity.
  - cbn [SFcompare above]. destruct sx.
    + symmetry. apply Z.ltb_ge.
      assert (0 < 2 ^ Z.max 0 (- e)) by (apply Z.pow_pos_nonneg; lia).
      assert (0 < 2 ^ Z.max 0 e) by (apply Z.pow_pos_nonneg; lia). nia.
    + apply binary32_finite in Hx. destruct Hx as [Hm Hnorm].
      assert (HpE : 0 < 2 ^ (- E)) by (apply Z.pow_pos_nonneg; lia).
      destruct (Z.compare_spec E e) as [Heq|Hlt|Hgt].
      * subst e. rewrite (Z.max_r 0 (- E)), (Z.max_l 0 E), Z.pow_0_r, Z.mul_1_r by lia.
        rewrite <- HM. rewrite Pos.compare_cont_spec. cbn [Pos.switch_Eq].
        change (Pos.compare M m) with (Z.compare (Z.pos M) (Z.pos m)).
        destruct (Z.compare_spec (Z.pos M) (Z.pos m)); symmetry;
          [apply Z.ltb_ge | apply Z.ltb_lt | apply Z.ltb_ge]; lia.
      * symmetry. apply Z.ltb_lt.
        destruct Hnorm as [Hnorm|He]; [|lia].
        destruct (Z_le_gt_dec e 0) as [Hle|Hpos].
        -- rewrite (Z.max_r 0 (- e)), (Z.max_l 0 e), Z.pow_0_r, Z.mul_1_r by lia.
           assert (Hsplit : 2 ^ (- E) = 2 ^ (- e) * 2 ^ (e - E))
             by (rewrite <- Z.pow_add_r by lia; f_equal; lia).
           assert (H2 : 2 <= 2 ^ (e - E))
             by (change 2 with (2 ^ 1) at 1; apply Z.pow_le_mono_r; lia).
           change (2 ^ 24) with 16777216 in *. change (2 ^ 23) with 8388608 in *.
           rewrite Hsplit in HM.
           set (A := Z.pos n * 2 ^ (- e)) in *. set (K := 2 ^ (e - E)) in *.
           assert (HAK : Z.pos M = A * K) by (unfold A; lia).
           apply (Z.mul_lt_mono_pos_r K); [lia|].
           assert (Z.pos m * 2 <= Z.pos m * K) by (apply Z.mul_le_mono_nonneg_l; lia).
           lia.
        -- rewrite (Z.max_l 0 (- e)), (Z.max_r 0 e), Z.pow_0_r, Z.mul_1_r by lia.
           assert (H2 : 2 <= 2 ^ e)
             by (change 2 with (2 ^ 1) at 1; apply Z.pow_le_mono_r; lia).
           change (2 ^ 24) with 16777216 in *. change (2 ^ 23) with 8388608 in *.
           assert (Z.pos m * 2 <= Z.pos m * 2 ^ e) by (apply Z.mul_le_mono_nonneg_l; lia).
           assert (Z.pos n <= Z.pos n * 2 ^ (- E)) by (apply Z.le_mul_diag_r; lia).
           lia.
      * symmetry. apply Z.ltb_ge.
        rewrite (Z.max_r 0 (- e)), (Z.max_l 0 e), Z.pow_0_r, Z.mul_1_r by lia.
        assert (Hsplit : 2 ^ (- e) = 2 ^ (- E) * 2 ^ (E - e))
          by (rewrite <- Z.pow_add_r by lia; f_equal; lia).
        assert (H2 : 2 <= 2 ^ (E - e))
          by (change 2 with (2 ^ 1) at 1; apply Z.pow_le_mono_r; lia).
        change (2 ^ 24) with 16777216 in *. change (2 ^ 23) with 8388608 in *.
        rewrite Hsplit, Z.mul_assoc, <- HM.
        assert (Z.pos M * 2 <= Z.pos M * 2 ^ (E - e)) by (apply Z.mul_le_mono_nonneg_l; lia).
        lia.
Qed.

(** ** vector_direction *)

Section VectorDirection.
Import TiltEscape.

Lemma gtb_false_from_smaller a b c :
  F32.gtb a c = false -> F32.gtb b c = true -> F32.gtb a b = false.
Proof.
  unfold F32.gtb. intros Hac Hbc.
  destruct (SFltb b a) eqn:E; [|reflexivity].
  change (F32.ltb b a = true) in E. change (F32.ltb c b = true) in Hbc.
  pose proof (ltb_trans _ _ _ Hbc E) as Hx. unfold F32.ltb in Hx. congruence.
Qed.

Lemma eqb_false_from_smaller a b c :
  F32.gtb a c = false -> F32.gtb b c = true -> F32.eqb a b = false.
Proof.
  unfold F32.gtb. intros Hac Hbc.
  destruct (F32.eqb a b) eqn:E; [|reflexivity].
  change (F32.ltb c b = true) in Hbc.
  pose proof (ltb_eqb_r _ _ _ Hbc E) as Hx. unfold F32.ltb in Hx. congruence.
Qed.

Lemma gtb_irrefl a : F32.gtb a a = false.
Proof. apply ltb_irrefl. Qed.

Lemma loop_inv_step target seen st ic :
  loop_inv target seen st ->
  loop_inv target (seen ++ [ic]) (vector_direction_step target st ic).
Proof.
  intros [[-> Hall] | (pre & k & c & post & -> & -> & Hpos & Hmax & Hfirst)];
    unfold vector_direction_step; fold (dot_with target (snd ic));
    destruct ic as [i v]; simpl fst; simpl snd.
  - destruct (F32.gtb (dot_with target v) F32.zero) eqn:E.
    + right. exists seen, i, v, []. repeat split; auto.
      * apply Forall_app. split.
        -- eapply Forall_impl; [|exact Hall]. simpl. intros a Ha.
           eapply gtb_false_from_smaller; eauto.
        -- constructor; [apply gtb_irrefl | constructor].
      * eapply Forall_impl; [|exact Hall]. simpl. intros a Ha.
        eapply eqb_false_from_smaller; eauto.
    + left. split; auto. apply Forall_app. split; auto.
  - destruct (F32.gtb (dot_with target v) (dot_with target c)) eqn:E.
    + right. exists (pre ++ (k, c) :: post), i, v, []. repeat split; auto.
      * unfold F32.gtb in *. eapply ltb_trans; eauto.
      * apply Forall_app. split.
        -- eapply Forall_impl; [|exact Hmax]. simpl. intros a Ha.
           eapply gtb_false_from_smaller; eauto.
        -- constructor; [apply gtb_irrefl | constructor].
      * eapply Forall_impl; [|exact Hmax]. simpl. intros a Ha.
        eapply eqb_false_from_smaller; eauto.
    + right. exists pre, k, c, (post ++ [(i, v)]). repeat split; auto.
      * rewrite <- app_assoc. reflexivity.
      * apply Forall_app. split; auto.
Qed.

Lemma loop_inv_fold target l : forall seen st,
  loop_inv target seen st ->
  loop_inv target (seen ++ l) (fold_left (vector_direction_step target) l st).
Proof.
  induction l as [|ic l IH]; intros seen st H; simpl.
  - now rewrite app_nil_r.
  - replace (seen ++ ic :: l) with ((seen ++ [ic]) ++ l)
      by (rewrite <- app_assoc; reflexivity).
    apply IH. now apply loop_inv_step.
Qed.

Lemma vector_direction_loop_inv target :
  loop_inv target (combine [0; 1; 2; 3] compass) (vector_direction_loop target).
Proof.
  apply (loop_inv_fold target _ [] (F32.zero, no_match)).
  left. split; [reflexivity | constructor].
Qed.

(** The two ways the loop can end: nothing matched, no dot product being
    positive, or the match is the first of the greatest. *)
Lemma vector_direction_cases (target : vec2) :
  (vector_direction target = -1 /\
   forall d, F32.gtb (dot_with target (compass_vector d)) F32.zero = false)
  \/
  (exists best,
     vector_direction target = Direction.to_Z best /\
     F32.gtb (dot_with target (compass_vector best)) F32.zero = true /\
     (forall d, F32.gtb (dot_with target (compass_vector d))
                        (dot_with target (compass_vector best)) = false) /\
     (forall d, Direction.to_Z d < Direction.to_Z best ->
                F32.eqb (dot_with target (compass_vector d))
                        (dot_with target (compass_vector best)) = false)).
Proof.
  pose proof (vector_direction_loop_inv target) as Inv.
  unfold vector_direction.
  destruct Inv as [[Hst Hall] | (pre & k & c & post & Hseen & Hst & Hpos & Hmax & Hfirst)].
  - left. rewrite Hst. split; [reflexivity|].
    intros d. rewrite Forall_forall in Hall.
    apply (Hall (Direction.to_Z d, compass_vector d)). destruct d; simpl; auto.
  - right.
    assert (Hbest : exists best, k = Direction.to_Z best /\ c = compass_vector best /\
              pre = firstn (Z.to_nat k) (combine [0; 1; 2; 3] compass)).
    { destruct pre as [|p0 [|p1 [|p2 [|p3 [|p4 pre]]]]]; simpl in Hseen;
        inversion Hseen; subst.
      - exists Direction.UP; repeat split.
      - exists Direction.RIGHT; repeat split.
      - exists Direction.DOWN; repeat split.
      - exists Direction.LEFT; repeat split. }
    destruct Hbest as (best & -> & -> & ->).
    rewrite Hst. simpl snd.
    exists best. split; [destruct best; reflexivity|].
    split; [exact Hpos|]. rewrite Forall_forall in Hmax, Hfirst. split.
    + intros d. apply (Hmax (Direction.to_Z d, compass_vector d)).
      destruct d; simpl; auto.
    + intros d Hlt. apply (Hfirst (Direction.to_Z d, compass_vector d)).
      destruct d, best; simpl in *; auto; lia.
Qed.


End VectorDirection.


(** ** vector_direction on degenerate vectors *)

Section VectorDirectionEdge.
Import TiltEscape.

(** [vector_direction] returns one of the four directions or -1, never
    anything else. *)
Lemma vector_direction_range (target : vec2) :
  vector_direction target = -1 \/
  exists d, vector_direction target = Direction.to_Z d.
Proof.
  destruct (vector_direction_cases target) as [[Hv _] | (best & Hv & _)];
    [now left | right; eauto].
Qed.

Lemma mul_nan_r a : F32.mul a S754_nan = S754_nan.
Proof. destruct a; reflexivity. Qed.

Lemma add_nan_r a : F32.add a S754_nan = S754_nan.
Proof. destruct a as [[]|[]| |]; reflexivity. Qed.

Lemma normalize_nan_scale a :
  glm.mul_scalar a S754_nan = glm.mkvec2 S754_nan S754_nan.
Proof. unfold glm.mul_scalar. now rewrite !mul_nan_r. Qed.

Lemma no_match_of_nan (target : vec2) :
  glm.normalize target = glm.mkvec2 S754_nan S754_nan ->
  vector_direction target = -1.
Proof.
  intros H.
  destruct (vector_direction_cases target) as [[Hv _] | (best & _ & Hpos & _)];
    [exact Hv|].
  unfold dot_with in Hpos. rewrite H in Hpos. destruct best; discriminate Hpos.
Qed.

(** X1. Degenerate inputs. For a vector with a NaN component and for the
    zero vector (of either sign) no dot product is positive and the
    result is -1. *)
Theorem vector_direction_degenerate (target : vec2) :
  F32.is_nan (glm.x target) = true \/ F32.is_nan (glm.y target) = true \/
  (F32.eqb (glm.x target) F32.zero = true /\ F32.eqb (glm.y target) F32.zero = true) ->
  vector_direction target = -1 /\ Direction.of_Z (vector_direction target) = None.
Proof.
  intros H.
  assert (E : vector_direction target = -1).
  { apply no_match_of_nan. destruct target as [tx ty]. cbn [glm.x glm.y] in H.
    destruct H as [H | [H | [Hx Hy]]].
    - destruct tx; try discriminate H.
      unfold glm.normalize, glm.dot, glm.mul. cbn [glm.x glm.y].
      change (F32.add (F32.mul S754_nan S754_nan) (F32.mul ty ty)) with S754_nan.
      change (glm.inversesqrt S754_nan) with S754_nan.
      apply normalize_nan_scale.
    - destruct ty; try discriminate H.
      unfold glm.normalize, glm.dot, glm.mul. cbn [glm.x glm.y].
      change (F32.mul S754_nan S754_nan) with S754_nan.
      rewrite add_nan_r. change (glm.inversesqrt S754_nan) with S754_nan.
      apply normalize_nan_scale.
    - destruct tx as [sx|sx| |sx mx ex]; try destruct sx; try discriminate Hx;
        destruct ty as [sy|sy| |sy my ey]; try destruct sy; try discriminate Hy;
        reflexivity. }
  rewrite E. split; reflexivity.
Qed.
End VectorDirectionEdge.

Lemma vector_direction_degenerate_witness :
  (F32.is_nan (glm.x (glm.mkvec2 S754_nan F32.one)) = true \/
   F32.is_nan (glm.y (glm.mkvec2 S754_nan F32.one)) = true \/
   (F32.eqb (glm.x (glm.mkvec2 S754_nan F32.one)) F32.zero = true /\
    F32.eqb (glm.y (glm.mkvec2 S754_nan F32.one)) F32.zero = true)) /\
  TiltEscape.vector_direction (glm.mkvec2 S754_nan F32.one) = -1.
Proof.
  assert (H : F32.is_nan (glm.x (glm.mkvec2 S754_nan F32.one)) = true \/
              F32.is_nan (glm.y (glm.mkvec2 S754_nan F32.one)) = true \/
              (F32.eqb (glm.x (glm.mkvec2 S754_nan F32.one)) F32.zero = true /\
               F32.eqb (glm.y (glm.mkvec2 S754_nan F32.one)) F32.zero = true))
    by (left; reflexivity).
  split; [exact H|].
  exact (proj1 (vector_direction_degenerate (glm.mkvec2 S754_nan F32.one) H)).
Defined.

(** ** fell_in_hole and game_over *)

Section Holes.
Context {rt : Runtime}.
Import TiltEscape.

Lemma in_hole_strictly_inside p h :
  Level.in_hole p h = true <-> strictly_inside (approximate_center p) h.
Proof.
  unfold Level.in_hole, strictly_inside, approximate_center, F32.gtb, F32.ltb.
  rewrite !andb_true_iff. tauto.
Qed.

Lemma fell_in_hole_from_exists p hs :
  Level.fell_in_hole_from p hs = true <->
  exists h, In h hs /\ strictly_inside (approximate_center p) h.
Proof.
  induction hs as [|h hs IH]; simpl.
  - split; [discriminate | intros (h & [] & _)].
  - destruct (Level.in_hole p h) eqn:E.
    + split; [intros _ | reflexivity].
      exists h. split; [now left | now apply in_hole_strictly_inside].
    + rewrite IH. split.
      * intros (h' & Hin & Hs). exists h'. auto.
      * intros (h' & [<- | Hin] & Hs).
        -- apply in_hole_strictly_inside in Hs. congruence.
        -- exists h'. auto.
Qed.

Lemma on_edge_not_inside c h : on_edge c h -> ~ strictly_inside c h.
Proof.
  intros Hedge [[Hx1 Hx2] [Hy1 Hy2]].
  destruct Hedge as [E | [E | [E | E]]]; apply eqb_not_ltb in E; destruct E; congruence.
Qed.

(** C4. [fell_in_hole] is true exactly when some hole has
    [player.position + 0.5] strictly inside its unit square on both
    axes; a point on an edge of a cell is not inside that cell. *)
Theorem fell_in_hole_iff_strictly_inside (l : Level.t) :
  (Level.fell_in_hole l = true <->
   exists h, In h (Level.holes l) /\
             strictly_inside (approximate_center (Level.player l)) h)
  /\
  (forall h, on_edge (approximate_center (Level.player l)) h ->
             Level.in_hole (Level.player l) h = false).
Proof.
  split.
  - apply fell_in_hole_from_exists.
  - intros h Hedge. destruct (Level.in_hole (Level.player l) h) eqn:E; [|reflexivity].
    apply in_hole_strictly_inside in E. now apply on_edge_not_inside in E.
Qed.
End Holes.

Lemma fell_in_hole_iff_strictly_inside_witness :
  on_edge (approximate_center (TiltEscape.Player.new (glm.mkvec2 F32.half F32.half) F32.half))
          (glm.vec2_of_Z 1 1)
  /\ TiltEscape.Level.in_hole
       (TiltEscape.Player.new (glm.mkvec2 F32.half F32.half) F32.half) (glm.vec2_of_Z 1 1)
     = false.
Proof.
  assert (H : on_edge
                (approximate_center
                   (TiltEscape.Player.new (glm.mkvec2 F32.half F32.half) F32.half))
                (glm.vec2_of_Z 1 1))
    by (left; vm_compute; reflexivity).
  split; [exact H|].
  exact (proj2 (fell_in_hole_iff_strictly_inside (rt := zero_runtime)
                  (level_with_player
                     (TiltEscape.Player.new (glm.mkvec2 F32.half F32.half) F32.half)))
               (glm.vec2_of_Z 1 1) H).
Defined.

Lemma binary_round_aux_not_negative mx ex lx :
  SFltb (binary_round_aux F32.prec F32.emax false mx ex lx) (S754_zero false) = false.
Proof.
  unfold binary_round_aux.
  destruct (shr_fexp F32.prec F32.emax mx ex lx) as [mrs' e'].
  destruct (shr_fexp F32.prec F32.emax _ e' loc_Exact) as [mrs'' e''].
  destruct (shr_m mrs''); [reflexivity | | reflexivity].
  destruct (Z.leb _ _); reflexivity.
Qed.

Lemma of_Z_not_negative n : 0 <= n -> F32.ltb (F32.of_Z n) (F32.of_Z 0) = false.
Proof.
  intros Hn. destruct n as [|m|m]; [reflexivity | | lia].
  unfold F32.of_Z, binary_normalize, binary_round, F32.ltb.
  destruct (shl_align _ _ _) as [mz ez]. apply binary_round_aux_not_negative.
Qed.

Lemma sum_beyond_from_spec count : forall k j,
  sum_beyond_from k count = true -> k <= j < k + Z.of_nat count -> sum_beyond j = true.
Proof.
  induction count as [|count IH]; intros k j H Hj; [lia|].
  cbn [sum_beyond_from] in H. apply andb_true_iff in H. destruct H as [H1 H2].
  destruct (Z.eq_dec j k) as [->|Hne]; [exact H1|].
  apply (IH (k + 1)); [exact H2 | lia].
Qed.

(** checked value by value; at 262143 the sum is 262144 *)
Lemma sum_beyond_262143 j : 0 <= j < 262143 -> sum_beyond j = true.
Proof.
  intros Hj. apply (sum_beyond_from_spec (Z.to_nat 262143) 0); [vm_compute; reflexivity|].
  rewrite Z2Nat.id by lia. lia.
Qed.

Section GameOver.
Context {rt : Runtime}.
Import TiltEscape.

Lemma upper_bound_small (n : Z) :
  0 <= n < 2 ^ 24 - 1 -> Game.upper_bound n = F32.of_Z (n + 1).
Proof.
  intros Hn. unfold Game.upper_bound. f_equal. apply Z.mod_small.
  change (2 ^ 24) with 16777216 in Hn. change (2 ^ 32) with 4294967296. lia.
Qed.

(** C5, as amended. On a board of fewer than 2^24 - 1 cells a side and
    for a player position of binary32 numbers, [game_over] is true
    exactly when the X or the Y coordinate is, as a number, below 0 or
    above [board_size + 1] on its axis; so it is true at X = -0.01,
    false at X = board_size.x + 1 when Y is inside its interval, and
    true at the [float] sum X = board_size.x + 1.01f on boards narrower
    than 262143 cells (from there on the sum rounds to
    board_size.x + 1). *)
Theorem game_over_iff_outside_board (g : Game.t) :
  let p := player_position g in
  let bx := glm.ux (Game.board_size g) in
  let by_ := glm.uy (Game.board_size g) in
  binary32 (glm.x p) = true -> binary32 (glm.y p) = true ->
  0 <= bx < 2 ^ 24 - 1 -> 0 <= by_ < 2 ^ 24 - 1 ->
  (Game.game_over g = true <->
     below_zero (glm.x p) = true \/ above (glm.x p) (bx + 1) = true \/
     below_zero (glm.y p) = true \/ above (glm.y p) (by_ + 1) = true)
  /\ (glm.x p = minus_0_01 -> Game.game_over g = true)
  /\ (bx < 262143 -> glm.x p = F32.add (F32.of_Z bx) plus_1_01 ->
      Game.game_over g = true)
  /\ (glm.x p = F32.of_Z (bx + 1) ->
      below_zero (glm.y p) = false -> above (glm.y p) (by_ + 1) = false ->
      Game.game_over g = false).
Proof.
  intros p bx by_ Hvx Hvy Hbx Hby.
  assert (Hnx : 0 < bx + 1 < 2 ^ 24) by lia.
  assert (Hny : 0 < by_ + 1 < 2 ^ 24) by lia.
  assert (Hax : F32.gtb (glm.x p) (Game.upper_bound bx) = above (glm.x p) (bx + 1))
    by (rewrite upper_bound_small by exact Hbx; now apply gtb_of_Z_above).
  assert (Hay : F32.gtb (glm.y p) (Game.upper_bound by_) = above (glm.y p) (by_ + 1))
    by (rewrite upper_bound_small by exact Hby; now apply gtb_of_Z_above).
  assert (Hiff : Game.game_over g = true <->
     below_zero (glm.x p) = true \/ above (glm.x p) (bx + 1) = true \/
     below_zero (glm.y p) = true \/ above (glm.y p) (by_ + 1) = true).
  { rewrite <- Hax, <- Hay, <- !ltb_zero_below.
    unfold Game.game_over. fold (player_position g). fold p. fold bx. fold by_.
    destruct (F32.ltb (glm.x p) (F32.of_Z 0)), (F32.gtb (glm.x p) (Game.upper_bound bx)),
      (F32.ltb (glm.y p) (F32.of_Z 0)), (F32.gtb (glm.y p) (Game.upper_bound by_));
      simpl; intuition congruence. }
  split; [exact Hiff|]. split; [|split].
  - intros Hx. apply Hiff. left. rewrite Hx. reflexivity.
  - intros Hb Hx. apply Hiff. right. left.
    rewrite <- (gtb_of_Z_above (glm.x p) (bx + 1) Hvx Hnx), Hx.
    apply sum_beyond_262143. lia.
  - intros Hx Hy1 Hy2.
    apply not_true_is_false. intros E.
    apply Hiff in E. rewrite Hy1, Hy2 in E.
    rewrite <- (gtb_of_Z_above (glm.x p) (bx + 1) Hvx Hnx) in E.
    rewrite <- ltb_zero_below in E. rewrite Hx in E.
    unfold F32.gtb in E. fold (F32.ltb (F32.of_Z (bx + 1)) (F32.of_Z (bx + 1))) in E.
    rewrite ltb_irrefl in E.
    rewrite of_Z_not_negative in E by lia.
    intuition congruence.
Qed.
End GameOver.

Lemma game_over_iff_outside_board_witness :
  (binary32 minus_0_01 = true /\ binary32 F32.one = true /\
   0 <= 5 < 2 ^ 24 - 1 /\ 0 <= 4 < 2 ^ 24 - 1 /\
   Game.game_over (game_with_player_at minus_0_01 F32.one) = true)
  /\ (binary32 (F32.add (F32.of_Z 5) plus_1_01) = true /\ 5 < 262143 /\
      Game.game_over (game_with_player_at (F32.add (F32.of_Z 5) plus_1_01) F32.one) = true)
  /\ (binary32 (F32.of_Z (5 + 1)) = true /\
      below_zero F32.one = false /\ above F32.one (4 + 1) = false /\
      Game.game_over (game_with_player_at (F32.of_Z (5 + 1)) F32.one) = false).
Proof.
  assert (Hy : binary32 F32.one = true) by (vm_compute; reflexivity).
  assert (Hbx : 0 <= 5 < 2 ^ 24 - 1) by (change (2 ^ 24) with 16777216; lia).
  assert (Hby : 0 <= 4 < 2 ^ 24 - 1) by (change (2 ^ 24) with 16777216; lia).
  split; [|split].
  - assert (Hx : binary32 minus_0_01 = true) by (vm_compute; reflexivity).
    split; [exact Hx|]. split; [exact Hy|]. split; [exact Hbx|]. split; [exact Hby|].
    exact (proj1 (proj2 (game_over_iff_outside_board
                           (game_with_player_at minus_0_01 F32.one) Hx Hy Hbx Hby)) eq_refl).
  - assert (Hx : binary32 (F32.add (F32.of_Z 5) plus_1_01) = true) by (vm_compute; reflexivity).
    assert (H : 5 < 262143) by lia.
    split; [exact Hx|]. split; [exact H|].
    exact (proj1 (proj2 (proj2 (game_over_iff_outside_board
             (game_with_player_at (F32.add (F32.of_Z 5) plus_1_01) F32.one)
             Hx Hy Hbx Hby))) H eq_refl).
  - assert (Hx : binary32 (F32.of_Z (5 + 1)) = true) by (vm_compute; reflexivity).
    assert (H1 : below_zero F32.one = false) by (vm_compute; reflexivity).
    assert (H2 : above F32.one (4 + 1) = false) by (vm_compute; reflexivity).
    split; [exact Hx|]. split; [exact H1|]. split; [exact H2|].
    exact (proj2 (proj2 (proj2 (game_over_iff_outside_board
             (game_with_player_at (F32.of_Z (5 + 1)) F32.one) Hx Hy Hbx Hby))) eq_refl H1 H2).
Defined.

(** C5, the claim as first stated, on wide boards. On a board 262143
    cells wide the [float] sum board_size.x + 1.01f is board_size.x + 1
    and [game_over] is false there; on a board 16777218 cells wide the
    bound board_size.x + 1 rounds up to 16777220, and [game_over] is
    false at X = 16777220, a number above board_size.x + 1. *)
Lemma game_over_false_beyond_wide_board :
  (F32.add (F32.of_Z 262143) plus_1_01 = F32.of_Z (262143 + 1) /\
   Game.game_over
     (game_on_board 262143 4 (F32.add (F32.of_Z 262143) plus_1_01) F32.one) = false)
  /\ (binary32 (F32.of_Z 16777220) = true /\
      above (F32.of_Z 16777220) (16777218 + 1) = true /\
      Game.game_over (game_on_board 16777218 4 (F32.of_Z 16777220) F32.one) = false).
Proof.
  split; [split | split; [|split]]; vm_compute; reflexivity.
Qed.

(** ** check_wall_collision *)

Section Collision.
Context {rt : Runtime}.
Import TiltEscape.

Lemma check_wall_collision_unfold l w :
  Level.check_wall_collision l w =
  if F32.ltb (glm.length (to_closest l w)) (Player.radius (Level.player l))
  then (true, vector_direction (to_closest l w), to_closest l w)
  else (false, Direction.to_Z Direction.UP, origin).
Proof. reflexivity. Qed.

(** C2, as amended. The circle center is [player.position +
    player.radius] on both axes; the closest point is the box center plus
    the difference of the two centers clamped to the half extents; a
    collision is reported exactly when the closest point is nearer to the
    circle center than [player.radius]; the direction reported then is
    that of the vector from the circle center to the closest point, which
    is also the vector reported; otherwise the result is UP and the zero
    vector. *)
Theorem check_wall_collision_closest_point (l : Level.t) (w : Wall.t) :
  let r := Player.radius (Level.player l) in
  circle_center l = glm.add_scalar (Player.position (Level.player l)) r
  /\ closest_point l w =
     glm.add (box_center w)
       (glm.clamp (glm.sub (circle_center l) (box_center w))
          (glm.neg (half_extents w)) (half_extents w))
  /\ (fst (fst (Level.check_wall_collision l w)) = true <->
      F32.ltb (glm.length (glm.sub (closest_point l w) (circle_center l))) r = true)
  /\ (fst (fst (Level.check_wall_collision l w)) = true ->
      Level.check_wall_collision l w =
      (true, vector_direction (glm.sub (closest_point l w) (circle_center l)),
       glm.sub (closest_point l w) (circle_center l)))
  /\ (fst (fst (Level.check_wall_collision l w)) = false ->
      Level.check_wall_collision l w = (false, Direction.to_Z Direction.UP, origin)).
Proof.
  intros r. rewrite check_wall_collision_unfold. fold r. fold (to_closest l w).
  split; [reflexivity|]. split; [reflexivity|].
  destruct (F32.ltb (glm.length (to_closest l w)) r); cbn [fst snd].
  - split; [tauto|]. split; [reflexivity | discriminate].
  - split; [split; discriminate|]. split; [discriminate | reflexivity].
Qed.
End Collision.

Lemma check_wall_collision_closest_point_witness :
  fst (fst (TiltEscape.Level.check_wall_collision (rt := zero_runtime)
              (level_with_player player_right_of_wall) unit_wall_at_origin)) = true
  /\ TiltEscape.Level.check_wall_collision (rt := zero_runtime)
       (level_with_player player_right_of_wall) unit_wall_at_origin
     = (true, TiltEscape.Direction.to_Z TiltEscape.Direction.LEFT,
        glm.sub (closest_point (rt := zero_runtime)
                   (level_with_player player_right_of_wall) unit_wall_at_origin)
                (circle_center (rt := zero_runtime)
                   (level_with_player player_right_of_wall))).
Proof.
  assert (H : fst (fst (TiltEscape.Level.check_wall_collision (rt := zero_runtime)
                          (level_with_player player_right_of_wall) unit_wall_at_origin)) = true)
    by (vm_compute; reflexivity).
  split; [exact H|].
  pose proof (check_wall_collision_closest_point (rt := zero_runtime)
                (level_with_player player_right_of_wall) unit_wall_at_origin) as T.
  cbv zeta in T. destruct T as (_ & _ & _ & T & _).
  rewrite (T H). vm_compute. reflexivity.
Defined.

(** C2, as stated, fails: for the player at (0.9, 0) and the unit wall at
    the origin the difference before clamping points RIGHT and the
    collision reports LEFT. *)
Lemma check_wall_collision_not_raw_direction :
  ~ reports_raw_direction (rt := zero_runtime)
      (level_with_player player_right_of_wall) unit_wall_at_origin.
Proof.
  unfold reports_raw_direction. intros H.
  assert (T : TiltEscape.Level.check_wall_collision (rt := zero_runtime)
                (level_with_player player_right_of_wall) unit_wall_at_origin
              = (true, TiltEscape.Direction.to_Z TiltEscape.Direction.LEFT,
                 glm.mkvec2 (S754_finite true 13421772 (-25)) (S754_zero false)))
    by (vm_compute; reflexivity).
  assert (R : TiltEscape.vector_direction
                (raw_difference (rt := zero_runtime)
                   (level_with_player player_right_of_wall) unit_wall_at_origin)
              = TiltEscape.Direction.to_Z TiltEscape.Direction.RIGHT)
    by (vm_compute; reflexivity).
  rewrite T, R in H. cbn [fst snd] in H. specialize (H eq_refl). discriminate H.
Qed.

(** ** Guard::update *)

Ltac guard_fields :=
  cbn [TiltEscape.Guard.set_position TiltEscape.Guard.set_guard_id
       TiltEscape.Guard.set_current_waypoint TiltEscape.Guard.set_next_waypoint
       TiltEscape.Guard.set_time_at_waypoint TiltEscape.Guard.set_velocity
       TiltEscape.Guard.set_waypoints TiltEscape.Guard.set_time_looking_in_direction
       TiltEscape.Guard.set_look
       TiltEscape.Guard.position TiltEscape.Guard.guard_id TiltEscape.Guard.radius
       TiltEscape.Guard.fov TiltEscape.Guard.time_looking_in_direction
       TiltEscape.Guard.look_thresh TiltEscape.Guard.mt
       TiltEscape.Guard.current_waypoint TiltEscape.Guard.next_waypoint
       TiltEscape.Guard.wait_thresh TiltEscape.Guard.time_at_waypoint
       TiltEscape.Guard.velocity TiltEscape.Guard.waypoints
       TiltEscape.GuardVision.radius TiltEscape.GuardVision.distance
       TiltEscape.GuardVision.look_direction] in *.

Section GuardUpdate.
Context {rt : Runtime}.
Import TiltEscape.

Lemma change_look_dir_same_patrol g rs :
  same_patrol g (fst (Guard.change_look_dir g rs)).
Proof.
  unfold Guard.change_look_dir.
  destruct (mt19937_next _) as [n m]. destruct (std_rand rs) as [r rs'].
  cbn [fst]. unfold same_patrol. guard_fields. repeat split.
Qed.

Lemma look_around_same_patrol elapsed g rs :
  same_patrol g (fst (Guard.look_around elapsed g rs)).
Proof.
  unfold Guard.look_around.
  destruct (F32.geb _ _).
  - pose proof (change_look_dir_same_patrol
                  (Guard.set_time_looking_in_direction
                     (F32.add (Guard.time_looking_in_direction g) elapsed) g) rs) as H.
    unfold same_patrol in *. guard_fields. exact H.
  - cbn [fst]. unfold same_patrol. guard_fields. repeat split.
Qed.

Lemma head_for_next_waypoint_waypoints g :
  Guard.waypoints (Guard.head_for_next_waypoint g) = Guard.waypoints g.
Proof. unfold Guard.head_for_next_waypoint. destruct (_ && _); reflexivity. Qed.

Lemma arrive_at_next_waypoint_waypoints g :
  Guard.waypoints (Guard.arrive_at_next_waypoint g) = Guard.waypoints g.
Proof. unfold Guard.arrive_at_next_waypoint. destruct (_ && _); reflexivity. Qed.

Lemma wait_at_waypoint_waypoints elapsed g :
  match Guard.wait_at_waypoint elapsed g with
  | Some g' => Guard.waypoints g' = Guard.waypoints g \/
               (Guard.waypoints g <> [] /\ Guard.waypoints g' = rotate (Guard.waypoints g))
  | None => Guard.waypoints g = []
  end.
Proof.
  unfold Guard.wait_at_waypoint.
  destruct (Guard.at_current_waypoint g); [|now left].
  destruct (F32.geb _ _); [|now left].
  guard_fields. destruct (Guard.waypoints g) as [|front rest]; [reflexivity|].
  guard_fields. right. split; [discriminate | reflexivity].
Qed.

(** One update leaves the deque as it is or moves its front to the back,
    and fails only on an empty deque. *)
Lemma update_waypoints elapsed g rs :
  match Guard.update elapsed g rs with
  | Some (g', _) => Guard.waypoints g' = Guard.waypoints g \/
                    (Guard.waypoints g <> [] /\ Guard.waypoints g' = rotate (Guard.waypoints g))
  | None => Guard.waypoints g = []
  end.
Proof.
  unfold Guard.update.
  pose proof (wait_at_waypoint_waypoints elapsed (moved elapsed g)) as H.
  fold (moved elapsed g).
  destruct (Guard.wait_at_waypoint elapsed (moved elapsed g)) as [g1|]; [|exact H].
  destruct (Guard.look_around elapsed _ rs) as [g2 rs2] eqn:E.
  pose proof (look_around_same_patrol elapsed
                (Guard.arrive_at_next_waypoint (Guard.head_for_next_waypoint g1)) rs) as P.
  rewrite E in P. cbn [fst] in P. destruct P as (_ & _ & _ & _ & P & _).
  rewrite P, arrive_at_next_waypoint_waypoints, head_for_next_waypoint_waypoints.
  exact H.
Qed.

Lemma rotate_Permutation (ws : list vec2) : Permutation ws (rotate ws).
Proof.
  destruct ws as [|w rest]; [constructor|]. simpl.
  change (w :: rest) with ([w] ++ rest). apply Permutation_app_comm.
Qed.

Lemma rotate_length (ws : list vec2) : List.length (rotate ws) = List.length ws.
Proof.
  destruct ws as [|w rest]; [reflexivity|]. simpl.
  rewrite length_app. simpl. lia.
Qed.

Lemma iter_rotate_Permutation k (ws : list vec2) : Permutation ws (Nat.iter k rotate ws).
Proof.
  induction k as [|k IH]; simpl; [reflexivity|].
  etransitivity; [exact IH | apply rotate_Permutation].
Qed.

Lemma iter_rotate_length k (ws : list vec2) :
  List.length (Nat.iter k rotate ws) = List.length ws.
Proof.
  induction k as [|k IH]; simpl; [reflexivity|]. now rewrite rotate_length.
Qed.

Lemma iter_rotate_nonempty k (ws : list vec2) : ws <> [] -> Nat.iter k rotate ws <> [].
Proof.
  intros H E. apply (f_equal (@List.length _)) in E.
  rewrite iter_rotate_length in E. destruct ws; [congruence | discriminate].
Qed.

(** C9. On a guard whose deque is not empty every sequence of updates
    succeeds and leaves the deque a rotation of what it was: the same
    length, the same elements with their multiplicities, never empty. *)
Theorem update_rotates_waypoints (g : Guard.t) :
  Guard.waypoints g <> [] ->
  forall (ts : list float) (rs : rand_state),
  exists g' rs' k,
    run_updates ts g rs = Some (g', rs') /\
    Guard.waypoints g' = Nat.iter k rotate (Guard.waypoints g) /\
    Permutation (Guard.waypoints g) (Guard.waypoints g') /\
    List.length (Guard.waypoints g') = List.length (Guard.waypoints g) /\
    Guard.waypoints g' <> [].
Proof.
  intros Hne ts. revert g Hne.
  induction ts as [|elapsed ts IH]; intros g Hne rs.
  - exists g, rs, O. simpl. repeat split; auto.
  - simpl. pose proof (update_waypoints elapsed g rs) as H.
    destruct (Guard.update elapsed g rs) as [[g1 rs1]|]; [|contradiction].
    assert (Hk : exists k1, Guard.waypoints g1 = Nat.iter k1 rotate (Guard.waypoints g)).
    { destruct H as [H | [_ H]]; [exists O | exists 1%nat]; exact H. }
    destruct Hk as [k1 Hk1].
    assert (Hne1 : Guard.waypoints g1 <> [])
      by (rewrite Hk1; now apply iter_rotate_nonempty).
    destruct (IH g1 Hne1 rs1) as (g' & rs' & k & Hrun & Hws & _).
    exists g', rs', (k + k1)%nat. split; [exact Hrun|].
    assert (E : Guard.waypoints g' = Nat.iter (k + k1) rotate (Guard.waypoints g))
      by (rewrite Hws, Hk1, Nat.iter_add; reflexivity).
    rewrite E. repeat split.
    + apply iter_rotate_Permutation.
    + apply iter_rotate_length.
    + now apply iter_rotate_nonempty.
Qed.
End GuardUpdate.

Lemma update_rotates_waypoints_witness :
  exists g,
    first_guard patrol_map = Some g /\
    TiltEscape.Guard.waypoints g <> [] /\
    exists g' rs' k,
      run_updates [one_frame; one_frame; one_frame] g tt = Some (g', rs') /\
      TiltEscape.Guard.waypoints g' = Nat.iter k rotate (TiltEscape.Guard.waypoints g) /\
      Permutation (TiltEscape.Guard.waypoints g) (TiltEscape.Guard.waypoints g') /\
      List.length (TiltEscape.Guard.waypoints g') = List.length (TiltEscape.Guard.waypoints g) /\
      TiltEscape.Guard.waypoints g' <> [].
Proof.
  eexists. split; [vm_compute; reflexivity|].
  assert (H : TiltEscape.Guard.waypoints (rt := zero_runtime)
                (TiltEscape.Guard.make (rt := zero_runtime)
                   (glm.vec2_of_Z 0 0) 1 F32.half TiltEscape.GuardVision.default
                   F32.zero F32.zero tt (glm.vec2_of_Z 0 0) (glm.vec2_of_Z 0 0)
                   F32.zero F32.zero (glm.vec2_of_Z 0 0)
                   [glm.vec2_of_Z 0 0; glm.vec2_of_Z 1 0]) <> [])
    by (cbn [TiltEscape.Guard.waypoints]; discriminate).
  split; [exact H|].
  exact (update_rotates_waypoints _ H [one_frame; one_frame; one_frame] tt).
Defined.

Lemma add_zero_times (a e : float) :
  plain a = true -> F32.is_finite e = true -> F32.add a (F32.mul (F32.of_Z 0) e) = a.
Proof.
  destruct a as [[]| | |sa ma ea], e as [[]| | |[] me ee]; try discriminate; reflexivity.
Qed.

Lemma sub_self (a : float) : plain a = true -> F32.sub a a = S754_zero false.
Proof.
  destruct a as [[]| | |sa ma ea]; try discriminate; intros _; [reflexivity|].
  unfold F32.sub, SFsub. rewrite Z.sub_diag. reflexivity.
Qed.

Section GuardStays.
Context {rt : Runtime}.
Import TiltEscape.

Lemma moved_stays p g elapsed :
  plain (glm.x p) = true -> plain (glm.y p) = true ->
  F32.is_finite elapsed = true ->
  Guard.position g = p -> Guard.velocity g = origin ->
  Guard.position (moved elapsed g) = p.
Proof.
  intros Hx Hy He Hp Hv. unfold moved. guard_fields. rewrite Hp, Hv.
  unfold glm.add, glm.mul_scalar, origin, glm.vec2_of_Z. cbn [glm.x glm.y].
  rewrite !add_zero_times by assumption. destruct p; reflexivity.
Qed.

Lemma halved_null_direction p :
  plain (glm.x p) = true -> plain (glm.y p) = true ->
  glm.div_scalar (glm.sub p p) (F32.of_Z glm.vec2_length) = origin.
Proof.
  intros Hx Hy. unfold glm.div_scalar, glm.sub. cbn [glm.x glm.y].
  rewrite !sub_self by assumption. reflexivity.
Qed.

Lemma update_stays p g elapsed rs :
  grid_cell p -> F32.is_finite elapsed = true -> stays_at p g ->
  exists g' rs', Guard.update elapsed g rs = Some (g', rs') /\ stays_at p g'.
Proof.
  intros (Rx & Ry & Px & Py) He (Hpos & Hcur & Hnext & Hvel & Hne & Hall).
  pose proof (moved_stays p g elapsed Px Py He Hpos Hvel) as Hm.
  unfold Guard.update. fold (moved elapsed g).
  assert (Hat : forall g1, Guard.position g1 = p -> Guard.current_waypoint g1 = p ->
                           Guard.at_current_waypoint g1 = true).
  { intros g1 H1 H2. unfold Guard.at_current_waypoint. rewrite H1, H2, Rx, Ry. reflexivity. }
  assert (Hw : exists g1, Guard.wait_at_waypoint elapsed (moved elapsed g) = Some g1 /\
                          stays_at p g1).
  { assert (Hcm : Guard.current_waypoint (moved elapsed g) = p) by exact Hcur.
    assert (Hnm : Guard.next_waypoint (moved elapsed g) = p) by exact Hnext.
    assert (Hwm : Guard.waypoints (moved elapsed g) = Guard.waypoints g) by reflexivity.
    assert (Hvm : Guard.velocity (moved elapsed g) = origin) by exact Hvel.
    rewrite <- Hwm in Hne, Hall. clear Hwm.
    generalize dependent (moved elapsed g). intros gm Hne Hall Hm Hcm Hnm Hvm.
    unfold Guard.wait_at_waypoint. rewrite (Hat gm Hm Hcm).
    destruct (F32.geb _ _).
    - guard_fields.
      destruct (Guard.waypoints gm) as [|front rest] eqn:Ews; [congruence|].
      inversion Hall as [|? ? Hfront Hrest]; subst.
      eexists. split; [reflexivity|]. unfold stays_at. guard_fields.
      rewrite Hcm. repeat split; auto.
      + now apply halved_null_direction.
      + destruct rest; discriminate.
      + apply Forall_app. split; [exact Hrest | repeat constructor].
    - eexists. split; [reflexivity|]. unfold stays_at. guard_fields.
      repeat split; auto. }
  destruct Hw as (g1 & -> & (Hpos1 & Hcur1 & Hnext1 & Hvel1 & Hne1 & Hall1)).
  pose proof (Hat g1 Hpos1 Hcur1) as Hat1.
  assert (Hh : Guard.head_for_next_waypoint g1 = g1)
    by (unfold Guard.head_for_next_waypoint; rewrite Hat1; reflexivity).
  assert (Ha : Guard.arrive_at_next_waypoint g1 = g1)
    by (unfold Guard.arrive_at_next_waypoint; rewrite Hat1, andb_false_r; reflexivity).
  rewrite Hh, Ha.
  destruct (Guard.look_around elapsed g1 rs) as [g2 rs2] eqn:E.
  exists g2, rs2. split; [reflexivity|].
  pose proof (look_around_same_patrol elapsed g1 rs) as P. rewrite E in P. cbn [fst] in P.
  destruct P as (P1 & P2 & P3 & P4 & P5 & _).
  unfold stays_at. rewrite P1, P2, P3, P4, P5. repeat split; auto.
Qed.

Lemma run_updates_stay (p : vec2) (ts : list float) :
  grid_cell p -> Forall (fun elapsed => F32.is_finite elapsed = true) ts ->
  forall (g : Guard.t) (rs : rand_state), stays_at p g ->
  exists g' rs', run_updates ts g rs = Some (g', rs') /\ stays_at p g'.
Proof.
  intros Hp Hts.
  induction Hts as [|elapsed ts He Hts IH]; intros g rs Hs.
  - exists g, rs. split; [reflexivity | exact Hs].
  - simpl. destruct (update_stays p g elapsed rs Hp He Hs) as (g1 & rs1 & -> & Hs1).
    apply IH. exact Hs1.
Qed.

(** C10. A guard standing on a grid cell that is its current waypoint,
    its next waypoint and every waypoint of its deque, with no velocity,
    stays there: after any sequence of updates with finite elapsed times
    its position is that cell and its velocity is zero. *)
Theorem lone_guard_never_moves (p : vec2) (g : Guard.t) :
  grid_cell p -> stays_at p g ->
  forall ts : list float, Forall (fun elapsed => F32.is_finite elapsed = true) ts ->
  forall rs : rand_state,
  exists g' rs',
    run_updates ts g rs = Some (g', rs') /\
    Guard.position g' = p /\ Guard.velocity g' = origin.
Proof.
  intros Hp Hs ts Hts. revert g Hs.
  induction Hts as [|elapsed ts He Hts IH]; intros g Hs rs.
  - exists g, rs. destruct Hs as (H1 & _ & _ & H4 & _). simpl. auto.
  - simpl. destruct (update_stays p g elapsed rs Hp He Hs) as (g1 & rs1 & -> & Hs1).
    apply IH. exact Hs1.
Qed.
End GuardStays.

Lemma lone_guard_never_moves_witness :
  exists g,
    first_guard guard_map = Some g /\
    grid_cell (glm.vec2_of_Z 3 1) /\
    stays_at (glm.vec2_of_Z 3 1) g /\
    Forall (fun elapsed => F32.is_finite elapsed = true) [one_frame; F32.one] /\
    exists g' rs',
      run_updates [one_frame; F32.one] g tt = Some (g', rs') /\
      TiltEscape.Guard.position g' = glm.vec2_of_Z 3 1 /\
      TiltEscape.Guard.velocity g' = TiltEscape.origin.
Proof.
  eexists. split; [vm_compute; reflexivity|].
  assert (Hc : grid_cell (glm.vec2_of_Z 3 1)) by (repeat split; vm_compute; reflexivity).
  assert (Hs : stays_at (rt := zero_runtime) (glm.vec2_of_Z 3 1)
                 (TiltEscape.Guard.make (rt := zero_runtime)
                    (glm.vec2_of_Z 3 1) 1 F32.half TiltEscape.GuardVision.default
                    F32.zero F32.zero tt (glm.vec2_of_Z 3 1) (glm.vec2_of_Z 3 1)
                    F32.zero F32.zero TiltEscape.origin [glm.vec2_of_Z 3 1])).
  { unfold stays_at. cbn [TiltEscape.Guard.position TiltEscape.Guard.current_waypoint
                          TiltEscape.Guard.next_waypoint TiltEscape.Guard.velocity
                          TiltEscape.Guard.waypoints].
    repeat split; try reflexivity; [discriminate | repeat constructor]. }
  assert (Ht : Forall (fun elapsed => F32.is_finite elapsed = true) [one_frame; F32.one])
    by (repeat constructor).
  split; [exact Hc|]. split; [exact Hs|]. split; [exact Ht|].
  exact (lone_guard_never_moves _ _ Hc Hs _ Ht tt).
Defined.

Section GuardLeaves.
Context {rt : Runtime}.
Import TiltEscape.

(** X2. Leaving a waypoint. When the guard, after the integration, is at its
    current waypoint and has waited [wait_thresh], the front of the deque
    becomes the next waypoint and moves to the back, and the velocity is
    the vector from the current to the next waypoint divided by 2, the
    number of components of a [vec2]. *)
Theorem update_leaves_waypoint elapsed g rs front rest :
  Guard.at_current_waypoint (moved elapsed g) = true ->
  F32.geb (F32.add (Guard.time_at_waypoint g) elapsed) (Guard.wait_thresh g) = true ->
  Guard.waypoints g = front :: rest ->
  exists g' rs',
    Guard.update elapsed g rs = Some (g', rs') /\
    Guard.next_waypoint g' = front /\
    Guard.waypoints g' = rest ++ [front] /\
    Guard.velocity g' =
      glm.div_scalar (glm.sub front (Guard.current_waypoint g)) (F32.of_Z 2).
Proof.
  intros Hat Hge Hws. unfold Guard.update. fold (moved elapsed g).
  assert (Hw : exists g1,
             Guard.wait_at_waypoint elapsed (moved elapsed g) = Some g1 /\
             Guard.position g1 = Guard.position (moved elapsed g) /\
             Guard.current_waypoint g1 = Guard.current_waypoint g /\
             Guard.next_waypoint g1 = front /\
             Guard.waypoints g1 = rest ++ [front] /\
             Guard.velocity g1 =
               glm.div_scalar (glm.sub front (Guard.current_waypoint g)) (F32.of_Z 2)).
  { unfold Guard.wait_at_waypoint. rewrite Hat.
    assert (Ht : Guard.time_at_waypoint (moved elapsed g) = Guard.time_at_waypoint g)
      by reflexivity.
    assert (Hth : Guard.wait_thresh (moved elapsed g) = Guard.wait_thresh g) by reflexivity.
    assert (Hwm : Guard.waypoints (moved elapsed g) = front :: rest) by exact Hws.
    assert (Hcm : Guard.current_waypoint (moved elapsed g) = Guard.current_waypoint g)
      by reflexivity.
    generalize dependent (moved elapsed g). intros gm Hat Ht Hth Hwm Hcm.
    guard_fields. rewrite Ht, Hth, Hge, Hwm. guard_fields.
    eexists. split; [reflexivity|]. guard_fields. rewrite Hcm. repeat split. }
  destruct Hw as (g1 & -> & Hp1 & Hc1 & Hn1 & Hw1 & Hv1).
  assert (Hat1 : Guard.at_current_waypoint g1 = true).
  { unfold Guard.at_current_waypoint in *. rewrite Hp1, Hc1. exact Hat. }
  assert (Hh : Guard.head_for_next_waypoint g1 = g1)
    by (unfold Guard.head_for_next_waypoint; rewrite Hat1; reflexivity).
  assert (Ha : Guard.arrive_at_next_waypoint g1 = g1)
    by (unfold Guard.arrive_at_next_waypoint; rewrite Hat1, andb_false_r; reflexivity).
  rewrite Hh, Ha.
  destruct (Guard.look_around elapsed g1 rs) as [g2 rs2] eqn:E.
  exists g2, rs2. split; [reflexivity|].
  pose proof (look_around_same_patrol elapsed g1 rs) as P. rewrite E in P. cbn [fst] in P.
  destruct P as (P1 & P2 & P3 & P4 & P5 & _).
  rewrite P3, P4, P5. auto.
Qed.
End GuardLeaves.

Lemma update_leaves_waypoint_witness :
  TiltEscape.Guard.at_current_waypoint (moved one_frame patrol_guard) = true /\
  F32.geb (F32.add (TiltEscape.Guard.time_at_waypoint patrol_guard) one_frame)
          (TiltEscape.Guard.wait_thresh patrol_guard) = true /\
  exists g' rs',
    TiltEscape.Guard.update one_frame patrol_guard tt = Some (g', rs') /\
    TiltEscape.Guard.next_waypoint g' = glm.vec2_of_Z 0 0 /\
    TiltEscape.Guard.waypoints g' = [glm.vec2_of_Z 1 0] ++ [glm.vec2_of_Z 0 0] /\
    TiltEscape.Guard.velocity g'
      = glm.div_scalar (glm.sub (glm.vec2_of_Z 0 0)
                          (TiltEscape.Guard.current_waypoint patrol_guard)) (F32.of_Z 2).
Proof.
  assert (H1 : TiltEscape.Guard.at_current_waypoint (moved one_frame patrol_guard) = true)
    by (vm_compute; reflexivity).
  assert (H2 : F32.geb (F32.add (TiltEscape.Guard.time_at_waypoint patrol_guard) one_frame)
                       (TiltEscape.Guard.wait_thresh patrol_guard) = true)
    by (vm_compute; reflexivity).
  split; [exact H1|]. split; [exact H2|].
  exact (update_leaves_waypoint one_frame patrol_guard tt
           (glm.vec2_of_Z 0 0) [glm.vec2_of_Z 1 0] H1 H2 eq_refl).
Defined.

Section GuardExample.
Import TiltEscape.

(** C1, at the failing input. The guard of the map ["11"], whose thresholds
    are 0, leaves its waypoint (0,0) for (1,0) in its second update:
    [next_waypoint] is the popped front, the direction normalized would be
    (1,0), and the velocity set is (0.5, 0), of length 0.5: the direction
    divided by [velocity.length()], the number of components, 2. *)
Theorem update_velocity_is_halved_not_normalized :
  exists g0 g rs,
    loaded_guards patrol_map = [g0] /\
    run_updates [one_frame; one_frame] g0 tt = Some (g, rs) /\
    Guard.current_waypoint g = glm.vec2_of_Z 0 0 /\
    Guard.next_waypoint g = glm.vec2_of_Z 1 0 /\
    glm.normalize (glm.sub (Guard.next_waypoint g) (Guard.current_waypoint g))
      = glm.vec2_of_Z 1 0 /\
    Guard.velocity g = glm.mkvec2 F32.half F32.zero /\
    glm.length (Guard.velocity g) = F32.half /\
    F32.eqb (glm.length (Guard.velocity g)) F32.one = false.
Proof.
  eexists. eexists. eexists.
  split; [vm_compute; reflexivity|].
  split; [vm_compute; reflexivity|].
  repeat split; vm_compute; reflexivity.
Qed.

End GuardExample.

(** ** Guard::update, phase by phase *)

Section GuardPhases.
Context {rt : Runtime}.
Import TiltEscape.

Lemma update_phases elapsed g rs :
  Guard.update elapsed g rs =
  match Guard.wait_at_waypoint elapsed (moved elapsed g) with
  | None => None
  | Some g1 =>
      Some (Guard.look_around elapsed
              (Guard.arrive_at_next_waypoint (Guard.head_for_next_waypoint g1)) rs)
  end.
Proof. reflexivity. Qed.

Lemma wait_at_waypoint_elsewhere elapsed g :
  Guard.at_current_waypoint g = false -> Guard.wait_at_waypoint elapsed g = Some g.
Proof. intros H. unfold Guard.wait_at_waypoint. now rewrite H. Qed.

(** X3. Arriving. A guard that the integration brings to its next
    waypoint, away from its current one, stops there: the velocity is
    zero, the waiting time restarts and the next waypoint becomes the
    current one; the deque is not touched. *)
Theorem update_arrives (elapsed : float) (g : Guard.t) (rs : rand_state) :
  Guard.at_current_waypoint (moved elapsed g) = false ->
  Guard.at_next_waypoint (moved elapsed g) = true ->
  exists g' rs',
    Guard.update elapsed g rs = Some (g', rs') /\
    Guard.position g' = Guard.position (moved elapsed g) /\
    Guard.velocity g' = origin /\
    Guard.time_at_waypoint g' = F32.zero /\
    Guard.current_waypoint g' = Guard.next_waypoint g /\
    Guard.next_waypoint g' = Guard.next_waypoint g /\
    Guard.waypoints g' = Guard.waypoints g.
Proof.
  intros Hc Hn. rewrite update_phases, (wait_at_waypoint_elsewhere _ _ Hc).
  assert (Hh : Guard.head_for_next_waypoint (moved elapsed g) = moved elapsed g)
    by (unfold Guard.head_for_next_waypoint; rewrite Hc, Hn; reflexivity).
  rewrite Hh. unfold Guard.arrive_at_next_waypoint. rewrite Hc, Hn. cbn [negb andb].
  destruct (Guard.look_around elapsed _ rs) as [g2 rs2] eqn:E.
  exists g2, rs2. split; [reflexivity|].
  match type of E with Guard.look_around _ ?a _ = _ =>
    pose proof (look_around_same_patrol elapsed a rs) as P end.
  rewrite E in P. cbn [fst] in P. destruct P as (P1 & P2 & P3 & P4 & P5 & P6 & _).
  rewrite P1, P2, P3, P4, P5, P6. repeat split.
Qed.

(** X4. In transit. Away from both waypoints the velocity is reset, each
    frame, to the vector from the new position to the next waypoint, not
    normalised; waypoints and waiting time are left alone. *)
Theorem update_in_transit (elapsed : float) (g : Guard.t) (rs : rand_state) :
  Guard.at_current_waypoint (moved elapsed g) = false ->
  Guard.at_next_waypoint (moved elapsed g) = false ->
  exists g' rs',
    Guard.update elapsed g rs = Some (g', rs') /\
    Guard.position g' = Guard.position (moved elapsed g) /\
    Guard.velocity g' = glm.sub (Guard.next_waypoint g) (Guard.position (moved elapsed g)) /\
    Guard.time_at_waypoint g' = Guard.time_at_waypoint g /\
    Guard.current_waypoint g' = Guard.current_waypoint g /\
    Guard.next_waypoint g' = Guard.next_waypoint g /\
    Guard.waypoints g' = Guard.waypoints g.
Proof.
  intros Hc Hn. rewrite update_phases, (wait_at_waypoint_elsewhere _ _ Hc).
  unfold Guard.head_for_next_waypoint. rewrite Hc, Hn. cbn [negb andb].
  set (g1 := Guard.set_velocity _ (moved elapsed g)).
  assert (Hn1 : Guard.at_next_waypoint g1 = false) by exact Hn.
  unfold Guard.arrive_at_next_waypoint. rewrite Hn1. cbn [andb].
  destruct (Guard.look_around elapsed g1 rs) as [g2 rs2] eqn:E.
  exists g2, rs2. split; [reflexivity|].
  pose proof (look_around_same_patrol elapsed g1 rs) as P.
  rewrite E in P. cbn [fst] in P. destruct P as (P1 & P2 & P3 & P4 & P5 & P6 & _).
  rewrite P1, P2, P3, P4, P5, P6. repeat split.
Qed.

Lemma phases_same_look elapsed g g1 :
  Guard.wait_at_waypoint elapsed (moved elapsed g) = Some g1 ->
  same_look g (Guard.arrive_at_next_waypoint (Guard.head_for_next_waypoint g1)) /\
  same_identity g (Guard.arrive_at_next_waypoint (Guard.head_for_next_waypoint g1)).
Proof.
  unfold Guard.wait_at_waypoint, Guard.arrive_at_next_waypoint, Guard.head_for_next_waypoint.
  destruct (Guard.at_current_waypoint (moved elapsed g)).
  - destruct (F32.geb _ _).
    + unfold moved at 1 2. guard_fields.
      destruct (Guard.waypoints g) as [|front rest]; [discriminate|].
      intros H. injection H as <-.
      destruct (negb _ && negb _); destruct (_ && negb _);
        unfold same_look, same_identity, moved; guard_fields; repeat split.
    + intros H. injection H as <-.
      destruct (negb _ && negb _); destruct (_ && negb _);
        unfold same_look, same_identity, moved; guard_fields; repeat split.
  - intros H. injection H as <-.
    destruct (negb _ && negb _); destruct (_ && negb _);
      unfold same_look, same_identity, moved; guard_fields; repeat split.
Qed.

(** X5. Looking around. The look direction changes only in an update in
    which the accumulated look time reaches [look_thresh]: the timer is
    then reset to 0, the direction is the one numbered [mt() mod 8] and a
    new threshold is drawn from [std::rand]; otherwise the time is
    accumulated and neither the vision nor a random source is touched. *)
Theorem update_look_direction (elapsed : float) (g g' : Guard.t) (rs rs' : rand_state) :
  Guard.update elapsed g rs = Some (g', rs') ->
  let t := F32.add (Guard.time_looking_in_direction g) elapsed in
  (F32.geb t (Guard.look_thresh g) = false ->
     Guard.fov g' = Guard.fov g /\
     Guard.time_looking_in_direction g' = t /\
     Guard.look_thresh g' = Guard.look_thresh g /\
     Guard.mt g' = Guard.mt g /\ rs' = rs)
  /\
  (F32.geb t (Guard.look_thresh g) = true ->
     Guard.time_looking_in_direction g' = F32.zero /\
     GuardVision.look_direction (Guard.fov g')
       = LookDirection.of_Z (fst (mt19937_next (Guard.mt g)) mod 8) /\
     Guard.mt g' = snd (mt19937_next (Guard.mt g)) /\
     Guard.look_thresh g' = random_thresh (fst (std_rand rs)) /\
     rs' = snd (std_rand rs)).
Proof.
  rewrite update_phases.
  destruct (Guard.wait_at_waypoint elapsed (moved elapsed g)) as [g1|] eqn:Ew;
    [|discriminate].
  destruct (phases_same_look _ _ _ Ew) as ((L1 & L2 & L3 & L4) & _).
  set (g2 := Guard.arrive_at_next_waypoint (Guard.head_for_next_waypoint g1)) in *.
  clearbody g2. clear Ew g1.
  unfold Guard.look_around. guard_fields. rewrite L2, L3.
  intros H. cbv zeta.
  destruct (F32.geb _ _).
  - split; [discriminate|]. intros _.
    unfold Guard.change_look_dir in H. guard_fields. rewrite L4 in H.
    destruct (mt19937_next (Guard.mt g)) as [n m].
    destruct (std_rand rs) as [r rs1].
    injection H as <- <-. guard_fields. repeat split.
  - split; [|discriminate]. intros _.
    injection H as <- <-. guard_fields. repeat split; auto.
Qed.

Lemma update_same_identity (elapsed : float) (g g' : Guard.t) (rs rs' : rand_state) :
  Guard.update elapsed g rs = Some (g', rs') -> same_identity g g'.
Proof.
  rewrite update_phases.
  destruct (Guard.wait_at_waypoint elapsed (moved elapsed g)) as [g1|] eqn:Ew;
    [|discriminate].
  destruct (phases_same_look _ _ _ Ew) as (_ & (I1 & I2 & I3 & I4 & I5)).
  set (g2 := Guard.arrive_at_next_waypoint (Guard.head_for_next_waypoint g1)) in *.
  clearbody g2. clear Ew g1.
  unfold Guard.look_around, Guard.change_look_dir, same_identity. guard_fields.
  destruct (F32.geb _ _).
  - destruct (mt19937_next _) as [n m]. destruct (std_rand rs) as [r rs1].
    intros H. injection H as <- <-. guard_fields. repeat split; auto.
  - intros H. injection H as <- <-. guard_fields. repeat split; auto.
Qed.

(** X6. What no sequence of updates changes: the identifier, the body
    radius, the waiting threshold, and the radius and distance of the
    vision. *)
Theorem update_keeps_identity (ts : list float) : forall (g g' : Guard.t) (rs rs' : rand_state),
  run_updates ts g rs = Some (g', rs') ->
  Guard.guard_id g' = Guard.guard_id g /\
  Guard.radius g' = Guard.radius g /\
  Guard.wait_thresh g' = Guard.wait_thresh g /\
  GuardVision.radius (Guard.fov g') = GuardVision.radius (Guard.fov g) /\
  GuardVision.distance (Guard.fov g') = GuardVision.distance (Guard.fov g).
Proof.
  induction ts as [|elapsed ts IH]; intros g g' rs rs'; cbn [run_updates].
  - intros H. injection H as <- <-. repeat split.
  - destruct (Guard.update elapsed g rs) as [[g1 rs1]|] eqn:E; [|discriminate].
    intros H. destruct (IH _ _ _ _ H) as (J1 & J2 & J3 & J4 & J5).
    destruct (update_same_identity _ _ _ _ _ E) as (I1 & I2 & I3 & I4 & I5).
    rewrite J1, J2, J3, J4, J5. auto.
Qed.
End GuardPhases.

Lemma update_arrives_witness :
  TiltEscape.Guard.at_current_waypoint (moved one_frame arriving_guard) = false /\
  TiltEscape.Guard.at_next_waypoint (moved one_frame arriving_guard) = true /\
  exists g' rs',
    TiltEscape.Guard.update one_frame arriving_guard tt = Some (g', rs') /\
    TiltEscape.Guard.position g' = TiltEscape.Guard.position (moved one_frame arriving_guard) /\
    TiltEscape.Guard.velocity g' = TiltEscape.origin /\
    TiltEscape.Guard.time_at_waypoint g' = F32.zero /\
    TiltEscape.Guard.current_waypoint g' = TiltEscape.Guard.next_waypoint arriving_guard /\
    TiltEscape.Guard.next_waypoint g' = TiltEscape.Guard.next_waypoint arriving_guard /\
    TiltEscape.Guard.waypoints g' = TiltEscape.Guard.waypoints arriving_guard.
Proof.
  assert (H1 : TiltEscape.Guard.at_current_waypoint (moved one_frame arriving_guard) = false)
    by (vm_compute; reflexivity).
  assert (H2 : TiltEscape.Guard.at_next_waypoint (moved one_frame arriving_guard) = true)
    by (vm_compute; reflexivity).
  split; [exact H1|]. split; [exact H2|].
  exact (update_arrives one_frame arriving_guard tt H1 H2).
Defined.

Lemma update_in_transit_witness :
  TiltEscape.Guard.at_current_waypoint (moved one_frame travelling_guard) = false /\
  TiltEscape.Guard.at_next_waypoint (moved one_frame travelling_guard) = false /\
  exists g' rs',
    TiltEscape.Guard.update one_frame travelling_guard tt = Some (g', rs') /\
    TiltEscape.Guard.position g' = TiltEscape.Guard.position (moved one_frame travelling_guard) /\
    TiltEscape.Guard.velocity g'
      = glm.sub (TiltEscape.Guard.next_waypoint travelling_guard)
                (TiltEscape.Guard.position (moved one_frame travelling_guard)) /\
    TiltEscape.Guard.time_at_waypoint g' = TiltEscape.Guard.time_at_waypoint travelling_guard /\
    TiltEscape.Guard.current_waypoint g' = TiltEscape.Guard.current_waypoint travelling_guard /\
    TiltEscape.Guard.next_waypoint g' = TiltEscape.Guard.next_waypoint travelling_guard /\
    TiltEscape.Guard.waypoints g' = TiltEscape.Guard.waypoints travelling_guard.
Proof.
  assert (H1 : TiltEscape.Guard.at_current_waypoint (moved one_frame travelling_guard) = false)
    by (vm_compute; reflexivity).
  assert (H2 : TiltEscape.Guard.at_next_waypoint (moved one_frame travelling_guard) = false)
    by (vm_compute; reflexivity).
  split; [exact H1|]. split; [exact H2|].
  exact (update_in_transit one_frame travelling_guard tt H1 H2).
Defined.

Lemma update_look_direction_witness :
  exists g' rs',
    TiltEscape.Guard.update one_frame patrol_guard tt = Some (g', rs') /\
    F32.geb (F32.add (TiltEscape.Guard.time_looking_in_direction patrol_guard) one_frame)
            (TiltEscape.Guard.look_thresh patrol_guard) = true /\
    TiltEscape.Guard.time_looking_in_direction g' = F32.zero /\
    TiltEscape.GuardVision.look_direction (TiltEscape.Guard.fov g')
      = TiltEscape.LookDirection.UP.
Proof.
  destruct (TiltEscape.Guard.update one_frame patrol_guard tt) as [[g' rs']|] eqn:E;
    [|vm_compute in E; discriminate E].
  exists g', rs'. split; [reflexivity|].
  assert (H : F32.geb (F32.add (TiltEscape.Guard.time_looking_in_direction patrol_guard)
                         one_frame)
                      (TiltEscape.Guard.look_thresh patrol_guard) = true)
    by (vm_compute; reflexivity).
  split; [exact H|].
  destruct (proj2 (update_look_direction one_frame patrol_guard g' rs' rs' E) H)
    as (T1 & T2 & _).
  split; [exact T1 | exact T2].
Defined.

Lemma update_keeps_identity_witness :
  exists g' rs',
    run_updates [one_frame; one_frame] patrol_guard tt = Some (g', rs') /\
    TiltEscape.Guard.guard_id g' = 1 /\
    TiltEscape.Guard.radius g' = F32.half.
Proof.
  destruct (run_updates [one_frame; one_frame] patrol_guard tt) as [[g' rs']|] eqn:E;
    [|vm_compute in E; discriminate E].
  exists g', rs'. split; [reflexivity|].
  destruct (update_keeps_identity _ patrol_guard g' tt rs' E) as (T1 & T2 & _).
  split; [exact T1 | exact T2].
Defined.

(** ** Level::at *)

Section LevelAt.
Import TiltEscape.

(** C3, at the failing input. The rows "ab" and "c" are loaded as they
    are; [at(1, 1)] passes the bounds test, which uses the length of row 0,
    and reads [level_matrix[1][1]], which does not exist. *)
Theorem at_reads_past_a_short_row :
  Level.level_matrix (loaded ragged_map) = [["a"; "b"]; ["c"]]%char /\
  Level.at_ (loaded ragged_map) 1 1 = None.
Proof. split; vm_compute; reflexivity. Qed.
End LevelAt.

(** ** Level::load_level *)

Ltac level_fields :=
  cbn [TiltEscape.Level.level_matrix TiltEscape.Level.walls TiltEscape.Level.player
       TiltEscape.Level.guards TiltEscape.Level.holes fst snd] in *.

Section Loader.
Context {rt : Runtime} {fs : FileSystem}.
Import TiltEscape.

(** the entities one character adds *)
Lemma load_char_entities i c l rs :
  let l' := fst (Level.load_char i c (l, rs)) in
  let cell := (i, Level.get_height l) in
  Level.level_matrix l' = Level.level_matrix l /\
  Level.walls l' = Level.walls l ++ map wall_at (if Ascii.eqb c "#" then [cell] else []) /\
  Level.holes l' = Level.holes l ++ map cell_position (if Ascii.eqb c "H" then [cell] else []) /\
  Level.player l' = last_player (Level.player l) (if Ascii.eqb c "P" then [cell] else []).
Proof.
  unfold Level.load_char, Level.get_height.
  destruct (Ascii.eqb c "#"), (Ascii.eqb c "P"), (Ascii.eqb c "H"); level_fields;
    (destruct (isdigit c);
     [ destruct (0 <=? _);
       [ | destruct (Guard.new _ _ _ _ rs) as [ng rs'] ] | ]);
    level_fields; cbn [map last_player fold_left]; rewrite ?app_nil_r;
    repeat split; reflexivity.
Qed.

Lemma load_chars_entities cs : forall i l rs,
  let l' := fst (Level.load_chars i cs (l, rs)) in
  let cells ch := map (fun c => (c, Level.get_height l)) (columns_of ch i cs) in
  Level.level_matrix l' = Level.level_matrix l /\
  Level.walls l' = Level.walls l ++ map wall_at (cells "#"%char) /\
  Level.holes l' = Level.holes l ++ map cell_position (cells "H"%char) /\
  Level.player l' = last_player (Level.player l) (cells "P"%char).
Proof.
  induction cs as [|c cs IH]; intros i l rs; cbn [Level.load_chars columns_of].
  - cbn [map fst last_player fold_left]. rewrite !app_nil_r. repeat split.
  - pose proof (load_char_entities i c l rs) as H. cbv zeta in H.
    destruct (Level.load_char i c (l, rs)) as [l1 rs1]. cbn [fst] in H.
    destruct H as (Hm & Hw & Hh & Hp).
    specialize (IH (i + 1) l1 rs1). cbv zeta in IH.
    destruct IH as (Hm' & Hw' & Hh' & Hp').
    assert (Hht : Level.get_height l1 = Level.get_height l)
      by (unfold Level.get_height; now rewrite Hm).
    rewrite Hht in *. cbv zeta.
    rewrite Hm', Hw', Hh', Hp', Hm, Hw, Hh, Hp.
    rewrite !map_app, <- !app_assoc. unfold last_player. rewrite !fold_left_app.
    destruct (Ascii.eqb c "#"), (Ascii.eqb c "H"), (Ascii.eqb c "P");
      repeat split.
Qed.

Lemma load_line_entities line l rs :
  let l' := fst (Level.load_line (l, rs) line) in
  let cells ch := map (fun c => (c, Level.get_height l))
                    (columns_of ch 0 (list_ascii_of_string line)) in
  Level.get_height l' = Level.get_height l + 1 /\
  Level.walls l' = Level.walls l ++ map wall_at (cells "#"%char) /\
  Level.holes l' = Level.holes l ++ map cell_position (cells "H"%char) /\
  Level.player l' = last_player (Level.player l) (cells "P"%char).
Proof.
  unfold Level.load_line.
  pose proof (load_chars_entities (list_ascii_of_string line) 0 l rs) as H. cbv zeta in H.
  destruct (Level.load_chars 0 (list_ascii_of_string line) (l, rs)) as [l1 rs1].
  cbn [fst] in *. destruct H as (Hm & Hw & Hh & Hp). cbv zeta.
  unfold Level.get_height at 1. level_fields.
  rewrite Hm, length_app. cbn [List.length]. unfold Level.get_height.
  repeat split; auto. lia.
Qed.

Lemma load_lines_entities lines : forall l rs,
  let l' := fst (Level.load_lines lines (l, rs)) in
  Level.walls l' = Level.walls l ++ map wall_at (cells_of "#" (Level.get_height l) lines) /\
  Level.holes l' = Level.holes l ++ map cell_position (cells_of "H" (Level.get_height l) lines) /\
  Level.player l' = last_player (Level.player l) (cells_of "P" (Level.get_height l) lines).
Proof.
  unfold Level.load_lines.
  induction lines as [|line lines IH]; intros l rs; cbn [fold_left cells_of].
  - cbn [map fst last_player fold_left]. rewrite !app_nil_r. repeat split.
  - pose proof (load_line_entities line l rs) as H. cbv zeta in H.
    destruct (Level.load_line (l, rs) line) as [l1 rs1]. cbn [fst] in H.
    destruct H as (Hht & Hw & Hh & Hp).
    specialize (IH l1 rs1). cbv zeta in IH. destruct IH as (Hw' & Hh' & Hp').
    cbv zeta. rewrite Hw', Hh', Hp', Hw, Hh, Hp, Hht.
    rewrite !map_app, <- !app_assoc. unfold last_player. rewrite !fold_left_app.
    repeat split.
Qed.

Lemma last_player_last p0 cells cell : last_player p0 (cells ++ [cell]) = player_at cell.
Proof. unfold last_player. rewrite fold_left_app. reflexivity. Qed.

(** C8. [load_level] appends, in scan order, a unit wall for every '#'
    and a hole for every 'H' at (column, row), and the player is the one
    created for the last 'P' scanned, at that cell with radius 0.5; so a
    map with one '#', one 'H' and one 'P', loaded into a level without
    walls and holes, gives one wall, one hole and the player at the cell
    of the 'P'. *)
Theorem load_level_walls_holes_player (filename : string) (lines : list string)
    (l0 : Level.t) (rs : rand_state) :
  read_lines filename = Some lines ->
  let l := fst (Level.load_level filename (l0, rs)) in
  let r0 := Level.get_height l0 in
  Level.walls l = Level.walls l0 ++ map wall_at (cells_of "#" r0 lines)
  /\ Level.holes l = Level.holes l0 ++ map cell_position (cells_of "H" r0 lines)
  /\ Level.player l = last_player (Level.player l0) (cells_of "P" r0 lines)
  /\ (forall cells cell, cells_of "P" r0 lines = cells ++ [cell] ->
      Level.player l = player_at cell)
  /\ (forall w h p,
        Level.walls l0 = [] -> Level.holes l0 = [] ->
        cells_of "#" r0 lines = [w] -> cells_of "H" r0 lines = [h] ->
        cells_of "P" r0 lines = [p] ->
        List.length (Level.walls l) = 1%nat /\ List.length (Level.holes l) = 1%nat /\
        Level.walls l = [wall_at w] /\ Level.holes l = [cell_position h] /\
        Player.position (Level.player l) = glm.vec2_of_Z (fst p) (snd p) /\
        Player.radius (Level.player l) = F32.half).
Proof.
  intros Hread l r0. subst l. unfold Level.load_level. rewrite Hread.
  pose proof (load_lines_entities lines l0 rs) as H. cbv zeta in H. fold r0 in H.
  destruct H as (Hw & Hh & Hp).
  split; [exact Hw|]. split; [exact Hh|]. split; [exact Hp|]. split.
  - intros cells cell E. rewrite Hp, E. apply last_player_last.
  - intros w h p Hw0 Hh0 Ew Eh Ep.
    rewrite Hw, Hh, Hp, Hw0, Hh0, Ew, Eh, Ep. repeat split.
Qed.
End Loader.

Lemma load_level_walls_holes_player_witness :
  read_lines (FileSystem := small_disk) "level1.map" = Some small_map
  /\ TiltEscape.Level.walls
       (fst (TiltEscape.Level.load_level (rt := zero_runtime) (fs := small_disk)
               "level1.map" (TiltEscape.Level.empty, tt)))
     = [wall_at (0, 0)]
  /\ TiltEscape.Level.holes
       (fst (TiltEscape.Level.load_level (rt := zero_runtime) (fs := small_disk)
               "level1.map" (TiltEscape.Level.empty, tt)))
     = [cell_position (1, 1)]
  /\ TiltEscape.Player.position
       (TiltEscape.Level.player
          (fst (TiltEscape.Level.load_level (rt := zero_runtime) (fs := small_disk)
                  "level1.map" (TiltEscape.Level.empty, tt))))
     = glm.vec2_of_Z 1 0.
Proof.
  assert (H : read_lines (FileSystem := small_disk) "level1.map" = Some small_map)
    by reflexivity.
  split; [exact H|].
  pose proof (load_level_walls_holes_player (rt := zero_runtime) (fs := small_disk)
                "level1.map" small_map TiltEscape.Level.empty tt H) as T.
  cbv zeta in T. destruct T as (_ & _ & _ & _ & T).
  destruct (T (0, 0) (1, 1) (1, 0) eq_refl eq_refl eq_refl eq_refl eq_refl)
    as (_ & _ & Hw & Hh & Hp & _).
  split; [exact Hw|]. split; [exact Hh | exact Hp].
Defined.

(** ** Level::at, get_length, get_height *)

Section LevelAtGeneral.
Context {rt : Runtime}.
Import TiltEscape.

Lemma nth_nth_error {A} (l : list A) n d :
  nth n l d = match nth_error l n with Some a => a | None => d end.
Proof.
  revert n; induction l as [|a l IH]; intros [|n]; simpl; auto.
Qed.

(** X7. [at] performs an out-of-bounds read exactly when the row exists, the
    column is inside row 0 and the row is too short for the column. *)
Theorem at_out_of_bounds_iff (l : Level.t) (row col : Z) :
  Level.at_ l row col = None <->
  0 <= row < Level.get_height l /\ 0 <= col < Level.get_length l /\
  Z.of_nat (List.length (nth (Z.to_nat row) (Level.level_matrix l) [])) <= col.
Proof.
  unfold Level.at_, Level.get_height, Level.get_length.
  assert (Hl : Z.of_nat (List.length (nth 0 (Level.level_matrix l) []))
               = match Level.level_matrix l with
                 | row0 :: _ => Z.of_nat (List.length row0)
                 | [] => 0
                 end) by (destruct (Level.level_matrix l); reflexivity).
  rewrite <- Hl.
  destruct (0 <=? row) eqn:Er, (0 <=? col) eqn:Ec; cbn [andb];
    try (split; [discriminate | lia]).
  destruct (row <? _) eqn:Er2, (col <? _) eqn:Ec2; cbn [andb];
    try (split; [discriminate | lia]).
  rewrite nth_error_None. split; intros H; [lia|].
  destruct H as (_ & _ & H). lia.
Qed.

(** X8. On a matrix whose rows all have the length of row 0, [at] never reads
    out of bounds: it returns the character of the cell when the cell
    exists and the character of code 0 otherwise. *)
Theorem at_rectangular (l : Level.t) (row col : Z) :
  rectangular (Level.level_matrix l) ->
  Level.at_ l row col =
  Some (match cell (Level.level_matrix l) row col with Some c => c | None => NUL end).
Proof.
  intros Hrect. unfold Level.at_, cell.
  destruct (0 <=? row) eqn:Er, (0 <=? col) eqn:Ec; cbn [andb];
    try (replace ((row <? 0) || (col <? 0)) with true
           by (symmetry; apply orb_true_iff; lia); reflexivity).
  replace ((row <? 0) || (col <? 0)) with false
    by (symmetry; apply orb_false_iff; lia).
  destruct (row <? Z.of_nat (List.length (Level.level_matrix l))) eqn:Er2; cbn [andb].
  - assert (Hrow : (Z.to_nat row < List.length (Level.level_matrix l))%nat) by lia.
    destruct (nth_error (Level.level_matrix l) (Z.to_nat row)) as [r|] eqn:En;
      [|apply nth_error_None in En; lia].
    rewrite (nth_nth_error _ (Z.to_nat row)), En.
    assert (Hlen : List.length r = List.length (nth 0 (Level.level_matrix l) [])).
    { unfold rectangular in Hrect. rewrite Forall_forall in Hrect.
      apply Hrect. eapply nth_error_In; eauto. }
    rewrite <- Hlen.
    destruct (col <? Z.of_nat (List.length r)) eqn:Ec2.
    + destruct (nth_error r (Z.to_nat col)) eqn:Ecol; [reflexivity|].
      apply nth_error_None in Ecol. lia.
    + destruct (nth_error r (Z.to_nat col)) eqn:Ecol; [|reflexivity].
      assert (nth_error r (Z.to_nat col) <> None) by congruence.
      apply nth_error_Some in H. lia.
  - destruct (nth_error (Level.level_matrix l) (Z.to_nat row)) eqn:En; [|reflexivity].
    assert (nth_error (Level.level_matrix l) (Z.to_nat row) <> None) by congruence.
    apply nth_error_Some in H. lia.
Qed.

Lemma load_lines_level_matrix (lines : list string) (l : Level.t) (rs : rand_state) :
  Level.level_matrix (fst (Level.load_lines lines (l, rs)))
    = Level.level_matrix l ++ map list_ascii_of_string lines.
Proof.
  unfold Level.load_lines. revert l rs.
  induction lines as [|line lines IH]; intros l rs; cbn [fold_left map].
  - cbn [fst]. now rewrite app_nil_r.
  - unfold Level.load_line at 2.
    pose proof (load_chars_entities (list_ascii_of_string line) 0 l rs) as H.
    cbv zeta in H.
    destruct (Level.load_chars 0 (list_ascii_of_string line) (l, rs)) as [l1 rs1].
    cbn [fst] in H. destruct H as (Hm & _).
    rewrite IH. level_fields. rewrite Hm, <- app_assoc. reflexivity.
Qed.

Lemma load_lines_extents (lines : list string) (l : Level.t) (rs : rand_state) :
  Level.level_matrix l = [] ->
  Level.get_height (fst (Level.load_lines lines (l, rs))) = Z.of_nat (List.length lines) /\
  Level.get_length (fst (Level.load_lines lines (l, rs)))
    = match lines with
      | first :: _ => Z.of_nat (String.length first)
      | [] => 0
      end.
Proof.
  intros Hl. unfold Level.get_height, Level.get_length.
  rewrite load_lines_level_matrix, Hl. cbn [app].
  rewrite length_map. split; [reflexivity|].
  destruct lines as [|first rest]; [reflexivity|]. cbn [map].
  f_equal. clear. induction first as [|c s IH]; simpl; [reflexivity | now rewrite IH].
Qed.

(** X9. The rows of a level. [load_level] appends every line of the file,
    verbatim, as a new last row; loaded into an empty matrix the file
    gives a height equal to its number of lines and a length equal to
    the length of its first line (0 without lines), whatever the other
    lines are. A file that cannot be opened leaves the level and the
    random source as they are. *)
Theorem load_level_rows {fs : FileSystem} (filename : string) (l : Level.t)
    (rs : rand_state) :
  (forall lines, read_lines filename = Some lines ->
     let l' := fst (Level.load_level filename (l, rs)) in
     Level.level_matrix l' = Level.level_matrix l ++ map list_ascii_of_string lines /\
     (Level.level_matrix l = [] ->
      Level.get_height l' = Z.of_nat (List.length lines) /\
      Level.get_length l'
        = match lines with
          | first :: _ => Z.of_nat (String.length first)
          | [] => 0
          end))
  /\ (read_lines filename = None -> Level.load_level filename (l, rs) = (l, rs)).
Proof.
  unfold Level.load_level. split.
  - intros lines ->. cbv zeta. split; [apply load_lines_level_matrix|].
    intros Hl. now apply load_lines_extents.
  - intros ->. reflexivity.
Qed.
End LevelAtGeneral.

Lemma at_rectangular_witness :
  rectangular (TiltEscape.Level.level_matrix (loaded small_map)) /\
  TiltEscape.Level.at_ (loaded small_map) 1 1 = Some "H"%char /\
  TiltEscape.Level.at_ (loaded small_map) 1 2 = Some TiltEscape.NUL.
Proof.
  assert (H : rectangular (TiltEscape.Level.level_matrix (loaded small_map)))
    by (repeat constructor).
  split; [exact H|].
  split; [rewrite (at_rectangular (rt := zero_runtime) (loaded small_map) 1 1 H)
         |rewrite (at_rectangular (rt := zero_runtime) (loaded small_map) 1 2 H)];
    vm_compute; reflexivity.
Defined.

Lemma at_out_of_bounds_iff_witness :
  (0 <= 1 < TiltEscape.Level.get_height (loaded ragged_map) /\
   0 <= 1 < TiltEscape.Level.get_length (loaded ragged_map) /\
   Z.of_nat (List.length (nth (Z.to_nat 1)
                            (TiltEscape.Level.level_matrix (loaded ragged_map)) [])) <= 1)
  /\ TiltEscape.Level.at_ (loaded ragged_map) 1 1 = None.
Proof.
  assert (H : 0 <= 1 < TiltEscape.Level.get_height (loaded ragged_map) /\
              0 <= 1 < TiltEscape.Level.get_length (loaded ragged_map) /\
              Z.of_nat (List.length (nth (Z.to_nat 1)
                          (TiltEscape.Level.level_matrix (loaded ragged_map)) [])) <= 1)
    by (vm_compute; repeat split; discriminate).
  split; [exact H|].
  exact (proj2 (at_out_of_bounds_iff (rt := zero_runtime) (loaded ragged_map) 1 1) H).
Defined.

Lemma load_level_rows_witness :
  read_lines (FileSystem := small_disk) "level1.map" = Some small_map /\
  TiltEscape.Level.level_matrix
    (fst (TiltEscape.Level.load_level (rt := zero_runtime) (fs := small_disk)
            "level1.map" (TiltEscape.Level.empty, tt)))
  = [["#"; "P"]; ["."; "H"]]%char /\
  read_lines (FileSystem := small_disk) "level9.map" = None /\
  TiltEscape.Level.load_level (rt := zero_runtime) (fs := small_disk)
    "level9.map" (TiltEscape.Level.empty, tt) = (TiltEscape.Level.empty, tt).
Proof.
  assert (H1 : read_lines (FileSystem := small_disk) "level1.map" = Some small_map)
    by reflexivity.
  assert (H2 : read_lines (FileSystem := small_disk) "level9.map" = None) by reflexivity.
  split; [exact H1|]. split; [|split; [exact H2|]].
  - pose proof (proj1 (load_level_rows (rt := zero_runtime) (fs := small_disk)
                         "level1.map" TiltEscape.Level.empty tt) small_map H1) as T.
    cbv zeta in T. destruct T as (T & _). exact T.
  - exact (proj2 (load_level_rows (rt := zero_runtime) (fs := small_disk)
                    "level9.map" TiltEscape.Level.empty tt) H2).
Defined.

(** ** The guards of a level *)

Section GuardsOfLevel.
Context {rt : Runtime} {fs : FileSystem}.
Import TiltEscape.

Lemma find_guard_spec guard_id gs : forall i,
  match Level.find_guard guard_id gs i with
  | Some j =>
      i <= j < i + Z.of_nat (List.length gs) /\
      (exists g, nth_error gs (Z.to_nat (j - i)) = Some g /\ Guard.guard_id g = guard_id /\
                 guard_with_id guard_id gs = Some g) /\
      (forall k g, (k < Z.to_nat (j - i))%nat -> nth_error gs k = Some g ->
                   Guard.guard_id g <> guard_id)
  | None => Forall (fun g => Guard.guard_id g <> guard_id) gs /\
            guard_with_id guard_id gs = None
  end.
Proof.
  induction gs as [|g gs IH]; intros i; cbn [Level.find_guard guard_with_id].
  - split; [constructor | reflexivity].
  - destruct (Guard.guard_id g =? guard_id) eqn:E.
    + apply Z.eqb_eq in E. cbn [List.length]. split; [lia|].
      replace (i - i) with 0 by lia. split.
      * exists g. repeat split; auto.
      * intros k g' Hk. cbn in Hk. lia.
    + apply Z.eqb_neq in E. specialize (IH (i + 1)).
      destruct (Level.find_guard guard_id gs (i + 1)) as [j|].
      * destruct IH as (Hj & (g' & Hn & Hid & Hw) & Hfirst).
        cbn [List.length]. split; [lia|].
        replace (Z.to_nat (j - i)) with (S (Z.to_nat (j - (i + 1)))) by lia.
        split.
        -- exists g'. repeat split; auto.
        -- intros [|k] g'' Hk Hn'; cbn in Hn'.
           ++ injection Hn' as <-. exact E.
           ++ apply (Hfirst k g''); [lia | exact Hn'].
      * destruct IH as (Hall & Hw). split; [constructor; auto | exact Hw].
Qed.

(** X10. [get_guard_index] returns the index of the first guard with the
    identifier, and -1 exactly when no guard has it; [has_guard] agrees. *)
Theorem get_guard_index_first (l : Level.t) (guard_id : Z) :
  let i := Level.get_guard_index l guard_id in
  (i = -1 \/ 0 <= i < Z.of_nat (List.length (Level.guards l)))
  /\ (i = -1 <-> Forall (fun g => Guard.guard_id g <> guard_id) (Level.guards l))
  /\ (0 <= i ->
      exists g, nth_error (Level.guards l) (Z.to_nat i) = Some g /\
                Guard.guard_id g = guard_id /\
                forall k g', (k < Z.to_nat i)%nat ->
                             nth_error (Level.guards l) k = Some g' ->
                             Guard.guard_id g' <> guard_id)
  /\ (Level.has_guard l guard_id = true <-> 0 <= i).
Proof.
  unfold Level.get_guard_index, Level.has_guard.
  pose proof (find_guard_spec guard_id (Level.guards l) 0) as H.
  destruct (Level.find_guard guard_id (Level.guards l) 0) as [j|]; cbv zeta.
  - destruct H as (Hj & (g & Hn & Hid & _) & Hfirst).
    replace (j - 0) with j in * by lia.
    split; [right; lia|]. split; [|split].
    + split; [lia|]. intros Hall. exfalso.
      rewrite Forall_forall in Hall. apply (Hall g); [|exact Hid].
      eapply nth_error_In; eauto.
    + intros _. exists g. repeat split; auto.
    + split; [lia | reflexivity].
  - destruct H as (Hall & _).
    split; [now left|]. split; [|split].
    + split; auto.
    + lia.
    + split; [discriminate | lia].
Qed.
End GuardsOfLevel.

Lemma get_guard_index_first_witness :
  0 <= TiltEscape.Level.get_guard_index (loaded guard_map) 1 /\
  TiltEscape.Level.get_guard_index (loaded guard_map) 1 = 0 /\
  TiltEscape.Level.get_guard_index (loaded guard_map) 2 = -1 /\
  TiltEscape.Level.has_guard (loaded guard_map) 1 = true.
Proof.
  assert (H : 0 <= TiltEscape.Level.get_guard_index (loaded guard_map) 1)
    by (vm_compute; discriminate).
  split; [exact H|].
  pose proof (get_guard_index_first (rt := zero_runtime) (loaded guard_map) 1) as T.
  cbv zeta in T. destruct T as (_ & _ & _ & T).
  split; [vm_compute; reflexivity|]. split; [vm_compute; reflexivity|].
  exact (proj2 T H).
Defined.

(** ** The guards the loader builds *)

Section LoaderGuards.
Context {rt : Runtime} {fs : FileSystem}.
Import TiltEscape.

Lemma guard_with_id_app guard_id gs1 gs2 :
  guard_with_id guard_id (gs1 ++ gs2) =
  match guard_with_id guard_id gs1 with
  | Some g => Some g
  | None => guard_with_id guard_id gs2
  end.
Proof.
  induction gs1 as [|g gs1 IH]; cbn [app guard_with_id]; [reflexivity|].
  destruct (Guard.guard_id g =? guard_id); auto.
Qed.

Lemma route_push_waypoint w gs : forall k g,
  nth_error gs k = Some g ->
  (forall k' g', (k' < k)%nat -> nth_error gs k' = Some g' ->
                 Guard.guard_id g' <> Guard.guard_id g) ->
  forall d, route d (Level.push_waypoint gs k w) =
            route d gs ++ (if Guard.guard_id g =? d then [w] else []).
Proof.
  induction gs as [|g0 gs IH]; intros [|k] g Hn Hfirst d; cbn in Hn; try discriminate.
  - injection Hn as <-. unfold route. cbn [Level.push_waypoint guard_with_id].
    guard_fields. destruct (Guard.guard_id g0 =? d); guard_fields; [reflexivity|].
    now rewrite app_nil_r.
  - unfold route in *. cbn [Level.push_waypoint guard_with_id].
    assert (Hne : Guard.guard_id g0 <> Guard.guard_id g)
      by (apply (Hfirst O g0); [lia | reflexivity]).
    destruct (Guard.guard_id g0 =? d) eqn:E0.
    + apply Z.eqb_eq in E0. subst d.
      destruct (Guard.guard_id g =? Guard.guard_id g0) eqn:E1;
        [apply Z.eqb_eq in E1; congruence | now rewrite app_nil_r].
    + apply (IH k g Hn).
      intros k' g' Hk Hn'. apply (Hfirst (S k') g'); [lia | exact Hn'].
Qed.

Lemma ids_push_waypoint w gs : forall k,
  map Guard.guard_id (Level.push_waypoint gs k w) = map Guard.guard_id gs.
Proof.
  induction gs as [|g gs IH]; intros [|k]; cbn [Level.push_waypoint map]; auto.
  now rewrite IH.
Qed.

Lemma at_spawn_push_waypoint w gs : forall k,
  Forall at_spawn gs -> Forall at_spawn (Level.push_waypoint gs k w).
Proof.
  induction gs as [|g gs IH]; intros [|k] H; cbn [Level.push_waypoint]; auto;
    inversion H as [|? ? Hg Hgs]; subst; constructor; auto.
  destruct Hg as (cell & rest & H1 & H2 & H3 & H4 & H5 & H6 & H7 & H8).
  exists cell, (rest ++ [w]). guard_fields. rewrite H3. repeat split; auto; lia.
Qed.

Lemma spawn_within_push_waypoint W H w gs : forall k,
  Forall (spawn_within W H) gs -> Forall (spawn_within W H) (Level.push_waypoint gs k w).
Proof.
  induction gs as [|g gs IH]; intros [|k] Hs; cbn [Level.push_waypoint]; auto;
    inversion Hs as [|? ? Hg Hgs]; subst; constructor; auto.
Qed.

Lemma isdigit_digit_value c : isdigit c = true -> 0 <= digit_value c <= 9.
Proof.
  unfold isdigit, digit_value. rewrite andb_true_iff, !Z.leb_le. lia.
Qed.

Lemma digit_value_inj c ch :
  isdigit ch = true ->
  (isdigit c && (digit_value c =? digit_value ch)) = Ascii.eqb c ch.
Proof.
  intros Hch. destruct (Ascii.eqb c ch) eqn:E.
  - apply Ascii.eqb_eq in E. subst c. rewrite Hch, Z.eqb_refl. reflexivity.
  - apply andb_false_iff. destruct (isdigit c); [right | now left].
    apply Z.eqb_neq. intros H. apply Ascii.eqb_neq in E. apply E.
    unfold digit_value in H.
    assert (N_of_ascii c = N_of_ascii ch) by lia.
    rewrite <- (ascii_N_embedding c), <- (ascii_N_embedding ch). congruence.
Qed.

(** the guards one character adds or extends *)
Lemma load_char_guards i c l rs :
  0 <= i ->
  let gs' := Level.guards (fst (Level.load_char i c (l, rs))) in
  let here := cell_position (i, Level.get_height l) in
  (forall d, route d gs' =
             route d (Level.guards l)
             ++ (if isdigit c && (digit_value c =? d) then [here] else [])) /\
  (Forall at_spawn (Level.guards l) -> Forall at_spawn gs') /\
  (NoDup (map Guard.guard_id (Level.guards l)) -> NoDup (map Guard.guard_id gs')) /\
  (forall W H, i < W -> Level.get_height l < H ->
     Forall (spawn_within W H) (Level.guards l) -> Forall (spawn_within W H) gs').
Proof.
  intros Hi. unfold Level.load_char, Level.get_height, cell_position. cbn [fst snd].
  set (here := glm.vec2_of_Z i (Z.of_nat (List.length (Level.level_matrix l)))).
  assert (Hg : forall l1 : Level.t,
             Level.guards l1 = Level.guards l ->
             Level.level_matrix l1 = Level.level_matrix l ->
             let gs' := Level.guards
                          (fst (if isdigit c then
                                  if 0 <=? Level.get_guard_index l1 (digit_value c) then
                                    (Level.make (Level.level_matrix l1) (Level.walls l1)
                                       (Level.player l1)
                                       (Level.push_waypoint (Level.guards l1)
                                          (Z.to_nat (Level.get_guard_index l1 (digit_value c)))
                                          here) (Level.holes l1), rs)
                                  else
                                    let '(new_guard, rs') :=
                                      Guard.new (List.length (Level.guards l1)) here
                                        F32.half GuardVision.default rs in
                                    (Level.make (Level.level_matrix l1) (Level.walls l1)
                                       (Level.player l1)
                                       (Level.guards l1 ++
                                          [Guard.set_waypoints
                                             (Guard.waypoints
                                                (Guard.set_next_waypoint here
                                                   (Guard.set_current_waypoint here
                                                      (Guard.set_guard_id (digit_value c)
                                                         new_guard))) ++ [here])
                                             (Guard.set_next_waypoint here
                                                (Guard.set_current_waypoint here
                                                   (Guard.set_guard_id (digit_value c)
                                                      new_guard)))])
                                       (Level.holes l1), rs')
                                else (l1, rs))) in
             (forall d, route d gs' =
                        route d (Level.guards l)
                        ++ (if isdigit c && (digit_value c =? d) then [here] else [])) /\
             (Forall at_spawn (Level.guards l) -> Forall at_spawn gs') /\
             (NoDup (map Guard.guard_id (Level.guards l)) ->
              NoDup (map Guard.guard_id gs')) /\
             (forall W H, i < W -> Z.of_nat (List.length (Level.level_matrix l)) < H ->
                Forall (spawn_within W H) (Level.guards l) ->
                Forall (spawn_within W H) gs')).
  { intros l1 Hgs Hm. cbv zeta.
    destruct (isdigit c) eqn:Ed; cbn [andb fst].
    2:{ rewrite Hgs. repeat split; auto. intros d. now rewrite app_nil_r. }
    unfold Level.get_guard_index. rewrite Hgs.
    pose proof (find_guard_spec (digit_value c) (Level.guards l) 0) as Hf.
    destruct (Level.find_guard (digit_value c) (Level.guards l) 0) as [j|].
    - destruct Hf as (Hj & (g & Hn & Hid & _) & Hfirst).
      replace (j - 0) with j in * by lia.
      replace (0 <=? j) with true by (symmetry; apply Z.leb_le; lia).
      level_fields. split; [|split; [|split]].
      + intros d. rewrite (route_push_waypoint here _ _ g Hn).
        * now rewrite Hid.
        * intros k' g' Hk Hn'. rewrite Hid. eapply Hfirst; eauto.
      + apply at_spawn_push_waypoint.
      + now rewrite ids_push_waypoint.
      + intros W H _ _. apply spawn_within_push_waypoint.
    - destruct Hf as (Hall & Hnone). change (0 <=? -1) with false. cbv iota.
      unfold Guard.new.
      destruct (std_rand rs) as [r1 rs1]. destruct (std_rand rs1) as [r2 rs2].
      level_fields. guard_fields. split; [|split; [|split]].
      + intros d. unfold route. rewrite guard_with_id_app.
        cbn [guard_with_id]. guard_fields.
        destruct (digit_value c =? d) eqn:E.
        * apply Z.eqb_eq in E. subst d. rewrite Hnone. reflexivity.
        * destruct (guard_with_id d (Level.guards l)); now rewrite app_nil_r.
      + intros Hs. apply Forall_app. split; [exact Hs|]. constructor; [|constructor].
        exists (i, Z.of_nat (List.length (Level.level_matrix l))), [].
        guard_fields. unfold cell_position. cbn [fst snd].
        pose proof (isdigit_digit_value c Ed).
        repeat split; auto; lia.
      + intros Hnd. rewrite map_app. cbn [map]. guard_fields.
        apply NoDup_app; [exact Hnd | repeat constructor; intros [] |].
        intros a Hin [<-|[]]. rewrite Forall_forall in Hall.
        apply in_map_iff in Hin. destruct Hin as (g & Hid & Hin).
        apply (Hall g Hin Hid).
      + intros W H HW HH Hs. apply Forall_app. split; [exact Hs|].
        constructor; [|constructor].
        exists i, (Z.of_nat (List.length (Level.level_matrix l))).
        guard_fields. repeat split; auto; lia. }
  destruct (Ascii.eqb c "#"), (Ascii.eqb c "P"), (Ascii.eqb c "H");
    apply Hg; reflexivity.
Qed.

Lemma load_chars_guards cs : forall i l rs,
  0 <= i ->
  let gs' := Level.guards (fst (Level.load_chars i cs (l, rs))) in
  (forall ch, isdigit ch = true ->
     route (digit_value ch) gs' =
     route (digit_value ch) (Level.guards l)
     ++ map cell_position (map (fun c => (c, Level.get_height l)) (columns_of ch i cs))) /\
  (Forall at_spawn (Level.guards l) -> Forall at_spawn gs') /\
  (NoDup (map Guard.guard_id (Level.guards l)) -> NoDup (map Guard.guard_id gs')) /\
  (forall W H, i + Z.of_nat (List.length cs) <= W -> Level.get_height l < H ->
     Forall (spawn_within W H) (Level.guards l) -> Forall (spawn_within W H) gs').
Proof.
  induction cs as [|c cs IH]; intros i l rs Hi; cbn [Level.load_chars columns_of].
  - cbn [fst map]. repeat split; auto. intros ch _. now rewrite app_nil_r.
  - pose proof (load_char_guards i c l rs Hi) as H. cbv zeta in H.
    pose proof (load_char_entities i c l rs) as He. cbv zeta in He.
    destruct (Level.load_char i c (l, rs)) as [l1 rs1]. cbn [fst] in H, He.
    destruct H as (Hr & Hs & Hn & Hw). destruct He as (Hm & _).
    assert (Hi1 : 0 <= i + 1) by lia.
    specialize (IH (i + 1) l1 rs1 Hi1). cbv zeta in IH.
    destruct IH as (Hr' & Hs' & Hn' & Hw').
    assert (Hht : Level.get_height l1 = Level.get_height l)
      by (unfold Level.get_height; now rewrite Hm).
    rewrite Hht in Hr', Hw'. cbv zeta. split; [|split; [|split]]; auto.
    + intros ch Hch. rewrite (Hr' ch Hch), Hr, (digit_value_inj c ch Hch).
      rewrite !map_app, <- app_assoc.
      destruct (Ascii.eqb c ch); reflexivity.
    + intros W H HW HH Hsp. cbn [List.length] in HW.
      apply Hw'; [lia | exact HH |]. apply Hw; [lia | exact HH | exact Hsp].
Qed.

Lemma load_line_guards line l rs :
  let gs' := Level.guards (fst (Level.load_line (l, rs) line)) in
  (forall ch, isdigit ch = true ->
     route (digit_value ch) gs' =
     route (digit_value ch) (Level.guards l)
     ++ map cell_position
          (map (fun c => (c, Level.get_height l))
             (columns_of ch 0 (list_ascii_of_string line)))) /\
  (Forall at_spawn (Level.guards l) -> Forall at_spawn gs') /\
  (NoDup (map Guard.guard_id (Level.guards l)) -> NoDup (map Guard.guard_id gs')) /\
  (forall W H, Z.of_nat (String.length line) <= W -> Level.get_height l < H ->
     Forall (spawn_within W H) (Level.guards l) -> Forall (spawn_within W H) gs').
Proof.
  unfold Level.load_line.
  pose proof (load_chars_guards (list_ascii_of_string line) 0 l rs (Z.le_refl 0)) as H.
  cbv zeta in H.
  destruct (Level.load_chars 0 (list_ascii_of_string line) (l, rs)) as [l1 rs1].
  cbn [fst] in *. level_fields.
  destruct H as (H1 & H2 & H3 & H4). repeat split; auto.
  intros W H HW. apply H4.
  replace (List.length (list_ascii_of_string line)) with (String.length line); [lia|].
  clear. induction line as [|c s IH]; simpl; [reflexivity | now rewrite IH].
Qed.

Lemma load_lines_routes (lines : list string) (l : Level.t) (rs : rand_state)
    (ch : ascii) :
  isdigit ch = true ->
  route (digit_value ch) (Level.guards (fst (Level.load_lines lines (l, rs))))
  = route (digit_value ch) (Level.guards l)
    ++ map cell_position (cells_of ch (Level.get_height l) lines).
Proof.
  intros Hch. unfold Level.load_lines. revert l rs.
  induction lines as [|line lines IH]; intros l rs; cbn [fold_left cells_of].
  - cbn [fst map]. now rewrite app_nil_r.
  - pose proof (load_line_guards line l rs) as H. cbv zeta in H.
    pose proof (load_line_entities line l rs) as He. cbv zeta in He.
    destruct (Level.load_line (l, rs) line) as [l1 rs1]. cbn [fst] in H, He.
    destruct H as (Hr & _). destruct He as (Hht & _).
    rewrite IH, (Hr ch Hch), Hht, map_app, app_assoc. reflexivity.
Qed.

Lemma load_lines_guards (lines : list string) (l : Level.t) (rs : rand_state) :
  Forall at_spawn (Level.guards l) ->
  NoDup (map Guard.guard_id (Level.guards l)) ->
  let gs' := Level.guards (fst (Level.load_lines lines (l, rs))) in
  Forall at_spawn gs' /\ NoDup (map Guard.guard_id gs') /\
  Forall (fun g => Guard.waypoints g <> []) gs'.
Proof.
  unfold Level.load_lines. revert l rs.
  induction lines as [|line lines IH]; intros l rs Hs Hn; cbn [fold_left].
  - cbn [fst]. split; [exact Hs|]. split; [exact Hn|].
    eapply Forall_impl; [|exact Hs].
    intros g (cell & rest & _ & _ & Hw & _). rewrite Hw. discriminate.
  - pose proof (load_line_guards line l rs) as H. cbv zeta in H.
    destruct (Level.load_line (l, rs) line) as [l1 rs1]. cbn [fst] in H.
    destruct H as (_ & Hs' & Hn' & _). apply IH; auto.
Qed.

Lemma load_lines_spawn_within W H (lines : list string) : forall (l : Level.t) rs,
  Forall (fun line => Z.of_nat (String.length line) <= W) lines ->
  Level.get_height l + Z.of_nat (List.length lines) <= H ->
  Forall (spawn_within W H) (Level.guards l) ->
  Forall (spawn_within W H) (Level.guards (fst (Level.load_lines lines (l, rs)))).
Proof.
  unfold Level.load_lines.
  induction lines as [|line lines IH]; intros l rs Hl Hh Hs; cbn [fold_left].
  - exact Hs.
  - inversion Hl as [|? ? Hline Hlines]; subst. cbn [List.length] in Hh.
    pose proof (load_line_guards line l rs) as HG. cbv zeta in HG.
    pose proof (load_line_entities line l rs) as He. cbv zeta in He.
    destruct (Level.load_line (l, rs) line) as [l1 rs1]. cbn [fst] in HG, He.
    destruct HG as (_ & _ & _ & Hw). destruct He as (Hht & _).
    apply IH; [exact Hlines | lia |]. apply Hw; [exact Hline | lia | exact Hs].
Qed.

(** X11. The route of a guard. [load_level] appends to the deque of the guard
    of a digit, in scan order, the cells of the map that hold this digit
    (the guard is created at the first of them); so in a level loaded
    from scratch the route of a digit is the list of its cells, and a
    digit that is not in the map has no guard. *)
Theorem load_level_routes (filename : string) (lines : list string) (l : Level.t)
    (rs : rand_state) (ch : ascii) :
  read_lines filename = Some lines ->
  isdigit ch = true ->
  let gs' := Level.guards (fst (Level.load_level filename (l, rs))) in
  route (digit_value ch) gs'
  = route (digit_value ch) (Level.guards l)
    ++ map cell_position (cells_of ch (Level.get_height l) lines)
  /\ (Level.guards l = [] -> cells_of ch (Level.get_height l) lines = [] ->
      Forall (fun g => Guard.guard_id g <> digit_value ch) gs').
Proof.
  intros Hread Hch. unfold Level.load_level. rewrite Hread. cbv zeta.
  pose proof (load_lines_routes lines l rs ch Hch) as Hr.
  split; [exact Hr|].
  intros Hnil Hcells. rewrite Hcells, Hnil in Hr. cbn [map app] in Hr.
  pose proof (load_lines_guards lines l rs) as HG. rewrite Hnil in HG.
  specialize (HG (Forall_nil _) (NoDup_nil _)). cbv zeta in HG.
  destruct HG as (_ & _ & Hne).
  set (gs' := Level.guards (fst (Level.load_lines lines (l, rs)))) in *.
  clearbody gs'. unfold route in Hr. cbn [guard_with_id] in Hr.
  induction gs' as [|g gs IH]; [constructor|].
  inversion Hne as [|? ? Hg Hgs]; subst. cbn [guard_with_id] in Hr.
  destruct (Guard.guard_id g =? digit_value ch) eqn:E; [contradiction|].
  apply Z.eqb_neq in E. constructor; [exact E | now apply IH].
Qed.

(** X12. The guards of a loaded level. [load_level], whether the file opens or
    not, keeps the identifiers of the guards pairwise distinct and leaves
    every guard standing still on the first cell of its route, which is
    its current and its next waypoint; so no guard of a level loaded from
    scratch has an empty deque. *)
Theorem load_level_guards (filename : string) (l : Level.t) (rs : rand_state) :
  Forall at_spawn (Level.guards l) ->
  NoDup (map Guard.guard_id (Level.guards l)) ->
  let gs' := Level.guards (fst (Level.load_level filename (l, rs))) in
  Forall at_spawn gs' /\ NoDup (map Guard.guard_id gs') /\
  Forall (fun g => Guard.waypoints g <> []) gs'.
Proof.
  intros Hs Hn. unfold Level.load_level.
  destruct (read_lines filename) as [lines|]; cbv zeta.
  - now apply load_lines_guards.
  - cbn [fst]. split; [exact Hs|]. split; [exact Hn|].
    eapply Forall_impl; [|exact Hs].
    intros g (cell & rest & _ & _ & Hw & _). rewrite Hw. discriminate.
Qed.
End LoaderGuards.

Lemma load_level_routes_witness :
  read_lines (FileSystem := small_disk) "level2.map" = Some guard_map /\
  TiltEscape.isdigit "1" = true /\
  route 1
    (TiltEscape.Level.guards
       (fst (TiltEscape.Level.load_level (rt := zero_runtime) (fs := small_disk)
               "level2.map" (TiltEscape.Level.empty, tt))))
  = [cell_position (3, 1)].
Proof.
  assert (H1 : read_lines (FileSystem := small_disk) "level2.map" = Some guard_map)
    by reflexivity.
  assert (H2 : TiltEscape.isdigit "1" = true) by reflexivity.
  split; [exact H1|]. split; [exact H2|].
  pose proof (load_level_routes (rt := zero_runtime) (fs := small_disk)
                "level2.map" guard_map TiltEscape.Level.empty tt "1" H1 H2) as T.
  cbv zeta in T. destruct T as (T & _). exact T.
Defined.

Lemma load_level_guards_witness :
  Forall (at_spawn (rt := zero_runtime)) [] /\
  NoDup (map (TiltEscape.Guard.guard_id (rt := zero_runtime)) []) /\
  Forall (fun g => TiltEscape.Guard.waypoints g <> [])
    (TiltEscape.Level.guards
       (fst (TiltEscape.Level.load_level (rt := zero_runtime) (fs := small_disk)
               "level2.map" (TiltEscape.Level.empty, tt)))).
Proof.
  assert (H1 : Forall (at_spawn (rt := zero_runtime)) []) by constructor.
  assert (H2 : NoDup (map (TiltEscape.Guard.guard_id (rt := zero_runtime)) []))
    by constructor.
  split; [exact H1|]. split; [exact H2|].
  exact (proj2 (proj2 (load_level_guards (rt := zero_runtime) (fs := small_disk)
                         "level2.map" TiltEscape.Level.empty tt H1 H2))).
Defined.

Section LoadedGuards.
Context {rt : Runtime} {fs : FileSystem}.
Import TiltEscape.

Lemma cell_position_grid c r :
  0 <= c < 2 ^ 24 -> 0 <= r < 2 ^ 24 -> grid_cell (cell_position (c, r)).
Proof.
  intros Hc Hr. unfold grid_cell, cell_position, glm.vec2_of_Z. cbn [fst snd glm.x glm.y].
  destruct (of_Z_grid c Hc) as (_ & Pc & Ec). destruct (of_Z_grid r Hr) as (_ & Pr & Er).
  auto.
Qed.

Lemma guard_with_id_In guard_id gs g :
  guard_with_id guard_id gs = Some g -> In g gs /\ Guard.guard_id g = guard_id.
Proof.
  induction gs as [|g0 gs IH]; cbn [guard_with_id]; [discriminate|].
  destruct (Guard.guard_id g0 =? guard_id) eqn:E.
  - intros H. injection H as <-. apply Z.eqb_eq in E. split; [now left | exact E].
  - intros H. destruct (IH H). split; [now right | assumption].
Qed.

(** X13. A guard whose digit occurs once in the map. In a level loaded from a
    map of at most 2^24 rows and columns, the guard of a digit that
    occurs in exactly one cell stands on that cell and stays there: after
    any sequence of updates with finite elapsed times its position is
    that cell and its velocity is zero. *)
Theorem loaded_lone_guard_never_moves (lines : list string) (rs : rand_state)
    (ch : ascii) (cell : Z * Z) :
  Forall (fun line => Z.of_nat (String.length line) <= 2 ^ 24) lines ->
  Z.of_nat (List.length lines) <= 2 ^ 24 ->
  isdigit ch = true ->
  cells_of ch 0 lines = [cell] ->
  exists g,
    guard_with_id (digit_value ch)
      (Level.guards (fst (Level.load_lines lines (Level.empty, rs)))) = Some g /\
    Guard.position g = cell_position cell /\
    forall ts : list float, Forall (fun elapsed => F32.is_finite elapsed = true) ts ->
    forall rs0 : rand_state,
    exists g' rs',
      run_updates ts g rs0 = Some (g', rs') /\
      Guard.position g' = cell_position cell /\ Guard.velocity g' = origin.
Proof.
  intros Hw Hh Hch Hcells.
  pose proof (load_lines_routes lines Level.empty rs ch Hch) as Hroute.
  change (Level.get_height Level.empty) with 0 in Hroute.
  rewrite Hcells in Hroute. cbn [map app] in Hroute.
  change (Level.guards Level.empty) with (@nil Guard.t) in Hroute.
  unfold route at 2 in Hroute. cbn [guard_with_id app] in Hroute.
  unfold route in Hroute.
  destruct (guard_with_id (digit_value ch) _) as [g|] eqn:Eg; [|discriminate Hroute].
  exists g. split; [reflexivity|].
  destruct (guard_with_id_In _ _ _ Eg) as (Hin & _).
  pose proof (load_lines_guards lines Level.empty rs (Forall_nil _) (NoDup_nil _)) as HG.
  cbv zeta in HG. destruct HG as (Hs & _).
  rewrite Forall_forall in Hs. specialize (Hs g Hin).
  destruct Hs as (cell' & rest & _ & _ & Hwp & Hpos & Hcur & Hnext & Hvel & _).
  rewrite Hroute in Hwp.
  assert (Hcell : cell_position cell = cell_position cell')
    by (apply (f_equal (fun ws => hd origin ws)) in Hwp; exact Hwp).
  rewrite <- Hcell in Hpos, Hcur, Hnext.
  pose proof (load_lines_spawn_within (2 ^ 24) (2 ^ 24) lines Level.empty rs Hw) as HW.
  assert (Hh0 : Level.get_height Level.empty + Z.of_nat (List.length lines) <= 2 ^ 24)
    by (change (Level.get_height Level.empty) with 0; lia).
  specialize (HW Hh0 (Forall_nil _)).
  rewrite Forall_forall in HW. destruct (HW g Hin) as (c & r & Hc & Hr & Hp).
  assert (Hgrid : grid_cell (cell_position cell)).
  { rewrite <- Hpos, Hp. now apply cell_position_grid. }
  split; [exact Hpos|].
  intros ts Hts rs0.
  assert (Hstay : stays_at (cell_position cell) g)
    by (unfold stays_at; rewrite Hroute; repeat split; auto; discriminate).
  destruct (run_updates_stay _ ts Hgrid Hts g rs0 Hstay) as (g' & rs' & Hrun & Hs').
  exists g', rs'. destruct Hs' as (H1 & _ & _ & H4 & _). auto.
Qed.
End LoadedGuards.

Lemma loaded_lone_guard_never_moves_witness :
  Forall (fun line => Z.of_nat (String.length line) <= 2 ^ 24) guard_map /\
  Z.of_nat (List.length guard_map) <= 2 ^ 24 /\
  TiltEscape.isdigit "1" = true /\
  cells_of "1" 0 guard_map = [(3, 1)] /\
  exists g,
    guard_with_id 1 (loaded_guards guard_map) = Some g /\
    TiltEscape.Guard.position g = cell_position (3, 1) /\
    exists g' rs',
      run_updates [one_frame; F32.one] g tt = Some (g', rs') /\
      TiltEscape.Guard.position g' = cell_position (3, 1) /\
      TiltEscape.Guard.velocity g' = TiltEscape.origin.
Proof.
  assert (H1 : Forall (fun line => Z.of_nat (String.length line) <= 2 ^ 24) guard_map)
    by (repeat constructor; vm_compute; discriminate).
  assert (H2 : Z.of_nat (List.length guard_map) <= 2 ^ 24) by (vm_compute; discriminate).
  assert (H3 : TiltEscape.isdigit "1" = true) by reflexivity.
  assert (H4 : cells_of "1" 0 guard_map = [(3, 1)]) by reflexivity.
  split; [exact H1|]. split; [exact H2|]. split; [exact H3|]. split; [exact H4|].
  destruct (loaded_lone_guard_never_moves (rt := zero_runtime) guard_map tt "1" (3, 1)
              H1 H2 H3 H4) as (g & Hg & Hp & Hrun).
  exists g. split; [exact Hg|]. split; [exact Hp|].
  apply Hrun. repeat constructor.
Defined.

(** ** The player physics of Game::update *)

Section Physics.
Context {rt : Runtime} {fs : FileSystem} {lm : Libm}.
Import TiltEscape.

(** C7, at the failing input. With [tilt_left] alone (or [tilt_right]
    alone) the acceleration on X is [(2/3) * gravity * sin(a)] where the
    argument handed to [std::sin], which takes radians, is the number 45
    (or -45) itself, not the radian measure of 45 degrees (pi/4, about
    0.785). *)
Theorem tilt_angle_reaches_sin_in_degrees (gravity : float) (up down : bool) :
  Game.acc_x (Game.mkControls true false up down) gravity
    = F32.mul (F32.mul (F32.div (F32.of_Z 2) (F32.of_Z 3)) gravity) (std_sin (F32.of_Z 45))
  /\ Game.acc_x (Game.mkControls false true up down) gravity
    = F32.mul (F32.mul (F32.div (F32.of_Z 2) (F32.of_Z 3)) gravity)
        (std_sin (F32.neg (F32.of_Z 45)))
  /\ radians (F32.of_Z 45) = S754_finite false 13176795 (-24)
  /\ F32.eqb (F32.of_Z 45) (radians (F32.of_Z 45)) = false.
Proof.
  split; [reflexivity|]. split; [reflexivity|].
  split; vm_compute; reflexivity.
Qed.
End Physics.

(** ** Level::update *)

Ltac game_fields :=
  cbn [Game.board_size Game.controls Game.player_acceleration Game.gravity
       Game.elapsed_tilt_time Game.level_names Game.level_index Game.level
       Game.set_level Game.set_player Game.set_controls
       Game.tilt_left Game.tilt_right Game.tilt_up Game.tilt_down
       TiltEscape.Player.position TiltEscape.Player.radius TiltEscape.Player.velocity
       glm.x glm.y] in *.

Section LevelUpdate.
Context {rt : Runtime} {fs : FileSystem}.
Import TiltEscape.

Lemma update_guards_routes elapsed gs : forall rs,
  Forall (fun g => Guard.waypoints g <> []) gs ->
  exists gs' rs',
    Level.update_guards elapsed gs rs = Some (gs', rs') /\
    Forall (fun g => Guard.waypoints g <> []) gs' /\
    map Guard.guard_id gs' = map Guard.guard_id gs.
Proof.
  induction gs as [|g gs IH]; intros rs Hne; cbn [Level.update_guards].
  - exists [], rs. repeat split; auto.
  - inversion Hne as [|? ? Hg Hgs]; subst.
    pose proof (update_waypoints elapsed g rs) as Hw.
    destruct (Guard.update elapsed g rs) as [[g1 rs1]|] eqn:E; [|contradiction].
    destruct (IH rs1 Hgs) as (gs' & rs' & -> & Hne' & Hids).
    exists (g1 :: gs'), rs'. split; [reflexivity|]. split.
    + constructor; [|exact Hne'].
      destruct Hw as [-> | [_ ->]]; [exact Hg|].
      replace (rotate (Guard.waypoints g)) with (Nat.iter 1 rotate (Guard.waypoints g))
        by reflexivity.
      now apply iter_rotate_nonempty.
    + cbn [map]. rewrite Hids.
      destruct (update_same_identity elapsed g g1 rs rs1 E) as (-> & _). reflexivity.
Qed.

Lemma level_update_result (elapsed : float) (l : Level.t) (rs : rand_state) :
  Forall (fun g => Guard.waypoints g <> []) (Level.guards l) ->
  exists gs' rs',
    Level.update elapsed l rs
      = Some (Level.make (Level.level_matrix l) (Level.walls l) (Level.player l) gs'
                (Level.holes l), rs') /\
    map Guard.guard_id gs' = map Guard.guard_id (Level.guards l) /\
    Forall (fun g => Guard.waypoints g <> []) gs'.
Proof.
  intros Hne. unfold Level.update.
  destruct (update_guards_routes elapsed (Level.guards l) rs Hne)
    as (gs' & rs' & -> & Hne' & Hids).
  exists gs', rs'. auto.
Qed.

(** X14. [Level::update] succeeds when every guard has a route; it changes
    nothing but the guards, of which it keeps the number, the order, the
    identifiers and the non-empty routes. *)
Theorem level_update_keeps_level (elapsed : float) (l : Level.t) (rs : rand_state) :
  Forall (fun g => Guard.waypoints g <> []) (Level.guards l) ->
  exists l' rs',
    Level.update elapsed l rs = Some (l', rs') /\
    Level.level_matrix l' = Level.level_matrix l /\
    Level.walls l' = Level.walls l /\
    Level.player l' = Level.player l /\
    Level.holes l' = Level.holes l /\
    map Guard.guard_id (Level.guards l') = map Guard.guard_id (Level.guards l) /\
    Forall (fun g => Guard.waypoints g <> []) (Level.guards l').
Proof.
  intros Hne.
  destruct (level_update_result elapsed l rs Hne) as (gs' & rs' & -> & Hids & Hne').
  eexists. eexists. split; [reflexivity|]. level_fields. repeat split; auto.
Qed.
End LevelUpdate.

(** ** Game::update *)

Section GameUpdate.
Context {rt : Runtime} {fs : FileSystem} {lm : Libm}.
Import TiltEscape.

(** Opposite flags. With both flags of an axis set the later assignment
    wins: right over left, down over up; with none the acceleration on
    the axis is 0. *)
Lemma later_tilt_flag_wins (gravity : float) (l r u d : bool) :
  Game.acc_x (Game.mkControls l true u d) gravity
    = Game.calculate_acceleration (F32.neg Game.TILT_ANGLE) gravity
  /\ Game.acc_x (Game.mkControls true false u d) gravity
    = Game.calculate_acceleration Game.TILT_ANGLE gravity
  /\ Game.acc_x (Game.mkControls false false u d) gravity = F32.zero
  /\ Game.acc_y (Game.mkControls l r u true) gravity
    = Game.calculate_acceleration Game.TILT_ANGLE gravity
  /\ Game.acc_y (Game.mkControls l r true false) gravity
    = Game.calculate_acceleration (F32.neg Game.TILT_ANGLE) gravity
  /\ Game.acc_y (Game.mkControls l r false false) gravity = F32.zero.
Proof.
  unfold Game.acc_x, Game.acc_y. game_fields.
  destruct l, u; repeat split.
Qed.

Lemma resolve_collisions_no_hit (l : Level.t) (ws : list Wall.t) :
  Forall (fun w => fst (fst (Level.check_wall_collision l w)) = false) ws ->
  fold_left Game.resolve_collision ws l = l.
Proof.
  induction ws as [|w ws IH]; intros H; cbn [fold_left]; [reflexivity|].
  inversion H as [|? ? Hw Hws]; subst.
  assert (E : Game.resolve_collision l w = l).
  { unfold Game.resolve_collision.
    destruct (Level.check_wall_collision l w) as [[hit dir] diff].
    cbn [fst] in Hw. now rewrite Hw. }
  rewrite E. now apply IH.
Qed.

Lemma resolve_collision_only_player (l : Level.t) (w : Wall.t) :
  Level.level_matrix (Game.resolve_collision l w) = Level.level_matrix l /\
  Level.walls (Game.resolve_collision l w) = Level.walls l /\
  Level.guards (Game.resolve_collision l w) = Level.guards l /\
  Level.holes (Game.resolve_collision l w) = Level.holes l /\
  Player.radius (Level.player (Game.resolve_collision l w))
    = Player.radius (Level.player l).
Proof.
  unfold Game.resolve_collision.
  destruct (Level.check_wall_collision l w) as [[hit dir] diff].
  destruct hit; [|repeat split].
  destruct (Direction.is_dir Direction.LEFT dir || Direction.is_dir Direction.RIGHT dir);
    [destruct (Direction.is_dir Direction.LEFT dir)
    |destruct (Direction.is_dir Direction.UP dir)];
    level_fields; repeat split.
Qed.

Lemma fold_resolve_collision_only_player (ws : list Wall.t) : forall l : Level.t,
  let l' := fold_left Game.resolve_collision ws l in
  Level.level_matrix l' = Level.level_matrix l /\
  Level.walls l' = Level.walls l /\
  Level.guards l' = Level.guards l /\
  Level.holes l' = Level.holes l /\
  Player.radius (Level.player l') = Player.radius (Level.player l).
Proof.
  induction ws as [|w ws IH]; intros l; cbn [fold_left]; [repeat split|].
  specialize (IH (Game.resolve_collision l w)). cbv zeta in IH.
  destruct IH as (I1 & I2 & I3 & I4 & I5).
  destruct (resolve_collision_only_player l w) as (R1 & R2 & R3 & R4 & R5).
  cbv zeta. rewrite I1, I2, I3, I4, I5. auto.
Qed.

(** X15. A frame without collision. When the game is neither over nor lost and
    the player, after the kinematic step, touches no wall, the frame
    stores the acceleration the tilt flags select ((2/3) g sin(-45) for
    [tilt_right] and [tilt_up], (2/3) g sin(45) for [tilt_left] and
    [tilt_down], right before left and down before up), moves each
    coordinate of the player by [v*t + ((1/2)*a)*t^2] with the velocity
    before the frame, and adds [a*t] to the velocity. *)
Theorem update_free_flight (elapsed : float) (g : Game.t) (rs : rand_state) :
  Game.game_over g = false ->
  Level.check_caught_by_guard (Game.level g) = false ->
  Level.fell_in_hole (Game.level g) = false ->
  Forall (fun gd => Guard.waypoints gd <> []) (Level.guards (Game.level g)) ->
  let a := tilt_acceleration g in
  let p := Level.player (Game.level g) in
  Forall (fun w => fst (fst (Level.check_wall_collision
                               (level_with_player (kinematic_step elapsed a p)) w)) = false)
         (Level.walls (Game.level g)) ->
  exists g' rs',
    Game.update elapsed g rs = Some (g', rs') /\
    Game.player_acceleration g' = a /\
    Level.player (Game.level g') = kinematic_step elapsed a p.
Proof.
  intros Hover Hcaught Hfell Hroutes a p Hfree.
  unfold Game.update. rewrite Hover, Hcaught, Hfell. cbn [orb].
  destruct (level_update_result elapsed (Game.level g) rs Hroutes)
    as (gs1 & rs1 & -> & _).
  set (l1 := Level.make (Level.level_matrix (Game.level g)) (Level.walls (Game.level g))
               (Level.player (Game.level g)) gs1 (Level.holes (Game.level g))).
  assert (Hw : Level.walls l1 = Level.walls (Game.level g)) by reflexivity.
  assert (Hp : Level.player l1 = Level.player (Game.level g)) by reflexivity.
  clearbody l1.
  eexists. eexists. split; [reflexivity|].
  unfold Game.integrate_player. game_fields. level_fields. rewrite Hp. fold p.
  change (glm.mkvec2 (Game.acc_x (Game.controls g) (Game.gravity g))
                     (Game.acc_y (Game.controls g) (Game.gravity g))) with a.
  match goal with |- context [Game.resolve_collisions ?l] => set (l2 := l) end.
  assert (Hl2 : Level.player l2 = kinematic_step elapsed a p) by reflexivity.
  assert (Hfix : Game.resolve_collisions l2 = l2).
  { unfold Game.resolve_collisions. apply resolve_collisions_no_hit.
    change (Level.walls l2) with (Level.walls l1). rewrite Hw.
    eapply Forall_impl; [|exact Hfree]. intros w Hwf. exact Hwf. }
  rewrite Hfix, Hl2. repeat split.
Qed.

Lemma load_level_from_cleared (name : string) (l0 : Level.t) (rs : rand_state) :
  let l := fst (Level.load_level name (Level.clear_level l0, rs)) in
  Forall (fun gd => Guard.waypoints gd <> []) (Level.guards l).
Proof.
  unfold Level.load_level. destruct (read_lines name) as [lines|]; cbv zeta.
  - pose proof (load_lines_guards lines (Level.clear_level l0) rs
                  (Forall_nil _) (NoDup_nil _)) as H.
    cbv zeta in H. destruct H as (_ & _ & H). exact H.
  - cbn [fst]. constructor.
Qed.

(** The frame update never runs into undefined behaviour on a
    well-formed game and leaves it well formed. *)
Lemma update_well_formed (elapsed : float) (g : Game.t) (rs : rand_state) :
  well_formed g ->
  exists g' rs', Game.update elapsed g rs = Some (g', rs') /\ well_formed g'.
Proof.
  intros (Hidx & Hboard & Hroutes). unfold Game.update.
  destruct (Game.game_over g).
  - unfold Game.next_level.
    match goal with |- context [Level.load_level ?n ?st] =>
      pose proof (load_level_from_cleared n (Game.level g) rs) as HL;
      destruct (Level.load_level n st) as [l1 rs1] end.
    cbv zeta in HL. cbn [fst] in HL.
    eexists. eexists. split; [reflexivity|]. unfold well_formed. game_fields.
    split; [apply Z.mod_pos_bound; lia|]. split; [reflexivity | exact HL].
  - destruct (Level.check_caught_by_guard (Game.level g) || Level.fell_in_hole (Game.level g)).
    + unfold Game.reset.
      match goal with |- context [Level.load_level ?n ?st] =>
        pose proof (load_level_from_cleared n (Game.level g) rs) as HL;
        destruct (Level.load_level n st) as [l1 rs1] end.
      cbv zeta in HL. cbn [fst] in HL.
      eexists. eexists. split; [reflexivity|]. unfold well_formed. game_fields.
      split; [exact Hidx|]. split; [reflexivity | exact HL].
    + destruct (level_update_result elapsed (Game.level g) rs Hroutes)
        as (gs1 & rs1 & -> & _ & Hr0).
      set (l1 := Level.make (Level.level_matrix (Game.level g))
                   (Level.walls (Game.level g)) (Level.player (Game.level g)) gs1
                   (Level.holes (Game.level g))).
      assert (Hm : Level.level_matrix l1 = Level.level_matrix (Game.level g))
        by reflexivity.
      assert (Hr : Forall (fun g => Guard.waypoints g <> []) (Level.guards l1))
        by exact Hr0.
      clearbody l1.
      eexists. eexists. split; [reflexivity|].
      unfold Game.integrate_player, Game.resolve_collisions. game_fields.
      match goal with |- context [fold_left Game.resolve_collision ?ws ?l] =>
        pose proof (fold_resolve_collision_only_player ws l) as HF;
        set (l3 := fold_left Game.resolve_collision ws l) in * end.
      cbv zeta in HF. level_fields. destruct HF as (F1 & _ & F3 & _).
      unfold well_formed. game_fields.
      split; [exact Hidx|]. split.
      * rewrite Hboard. unfold Game.board_size_of, Level.get_length, Level.get_height.
        rewrite F1, Hm. reflexivity.
      * rewrite F3. exact Hr.
Qed.

(** X16. [reset] rebuilds the level from its file and nothing else: walls and
    holes are those of the map, the rows are its lines, the board gets
    the length of the first line and the number of lines, the index is
    kept; the player is the one of the last 'P', and without a 'P' the
    player of the level before, with its position and velocity. *)
Theorem reset_rebuilds_level (g : Game.t) (rs : rand_state) (lines : list string) :
  read_lines (nth (Z.to_nat (Game.level_index g)) (Game.level_names g) ""%string)
    = Some lines ->
  let g' := fst (Game.reset g rs) in
  let l' := Game.level g' in
  Level.level_matrix l' = map list_ascii_of_string lines /\
  Level.walls l' = map wall_at (cells_of "#" 0 lines) /\
  Level.holes l' = map cell_position (cells_of "H" 0 lines) /\
  Level.player l' = last_player (Level.player (Game.level g)) (cells_of "P" 0 lines) /\
  (cells_of "P" 0 lines = [] -> Level.player l' = Level.player (Game.level g)) /\
  Game.board_size g'
    = glm.mkuvec2
        (match lines with
         | first :: _ => Z.of_nat (String.length first)
         | [] => 0
         end mod 2 ^ 32)
        (Z.of_nat (List.length lines) mod 2 ^ 32) /\
  Game.level_index g' = Game.level_index g.
Proof.
  intros Hread. unfold Game.reset, Level.load_level. rewrite Hread.
  pose proof (load_lines_entities lines (Level.clear_level (Game.level g)) rs) as He.
  pose proof (load_lines_level_matrix lines (Level.clear_level (Game.level g)) rs) as Hm.
  pose proof (load_lines_extents lines (Level.clear_level (Game.level g)) rs eq_refl) as Hx.
  cbv zeta in He.
  destruct (Level.load_lines lines (Level.clear_level (Game.level g), rs)) as [l1 rs1].
  cbn [fst] in *. game_fields.
  destruct He as (Hw & Hh & Hp). destruct Hx as (Hht & Hlen).
  change (Level.get_height (Level.clear_level (Game.level g))) with 0 in *.
  change (Level.walls (Level.clear_level (Game.level g))) with (@nil Wall.t) in Hw.
  change (Level.holes (Level.clear_level (Game.level g))) with (@nil vec2) in Hh.
  change (Level.player (Level.clear_level (Game.level g)))
    with (Level.player (Game.level g)) in Hp.
  change (Level.level_matrix (Level.clear_level (Game.level g)))
    with (@nil (list ascii)) in Hm.
  split; [exact Hm|]. split; [exact Hw|]. split; [exact Hh|]. split; [exact Hp|].
  split; [intros E; rewrite Hp, E; reflexivity|].
  split; [|reflexivity].
  unfold Game.board_size_of. rewrite Hht, Hlen. reflexivity.
Qed.

(** X17. A level file that cannot be opened: [reset] leaves an empty level,
    a board of 0 by 0 and the player where it was. *)
Theorem reset_without_file (g : Game.t) (rs : rand_state) :
  read_lines (nth (Z.to_nat (Game.level_index g)) (Game.level_names g) ""%string) = None ->
  fst (Game.reset g rs)
  = Game.make (glm.mkuvec2 0 0) (Game.controls g) (Game.player_acceleration g)
      (Game.gravity g) (Game.elapsed_tilt_time g) (Game.level_names g)
      (Game.level_index g)
      (Level.make [] [] (Level.player (Game.level g)) [] []) /\
  snd (Game.reset g rs) = rs.
Proof.
  intros Hread. unfold Game.reset, Level.load_level. rewrite Hread.
  split; reflexivity.
Qed.

(** X18. [next_level] steps the index cyclically through the level names and
    loads that level: after the last name comes the first. *)
Theorem next_level_cycles (g : Game.t) (rs : rand_state) :
  0 <= Game.level_index g < Z.of_nat (List.length (Game.level_names g)) ->
  let g' := fst (Game.next_level g rs) in
  let n := Z.of_nat (List.length (Game.level_names g)) in
  Game.level_index g'
    = (if Game.level_index g + 1 =? n then 0 else Game.level_index g + 1) /\
  0 <= Game.level_index g' < n /\
  Game.level_names g' = Game.level_names g /\
  Game.level g'
    = fst (Level.load_level
             (nth (Z.to_nat (Game.level_index g')) (Game.level_names g) ""%string)
             (Level.clear_level (Game.level g), rs)) /\
  Game.board_size g' = Game.board_size_of (Game.level g').
Proof.
  intros Hidx. unfold Game.next_level.
  set (n := Z.of_nat (List.length (Game.level_names g))) in *.
  set (i' := (Game.level_index g + 1) mod n).
  destruct (Level.load_level _ _) as [l1 rs1] eqn:E.
  cbv zeta. cbn [fst]. game_fields.
  assert (Hi' : i' = if Game.level_index g + 1 =? n then 0 else Game.level_index g + 1).
  { unfold i'. destruct (Game.level_index g + 1 =? n) eqn:En.
    - apply Z.eqb_eq in En. rewrite En. apply Z.mod_same. lia.
    - apply Z.eqb_neq in En. apply Z.mod_small. lia. }
  split; [exact Hi'|]. split; [apply Z.mod_pos_bound; lia|].
  split; [reflexivity|]. split; [|reflexivity].
  rewrite E. reflexivity.
Qed.
End GameUpdate.
Lemma level_update_keeps_level_witness :
Forall (fun g => TiltEscape.Guard.waypoints g <> []) (loaded_guards guard_map) /\
exists l' rs',
  TiltEscape.Level.update one_frame (loaded guard_map) tt = Some (l', rs') /\
  TiltEscape.Level.walls l' = TiltEscape.Level.walls (loaded guard_map) /\
  TiltEscape.Level.player l' = TiltEscape.Level.player (loaded guard_map).
Proof.
assert (H : Forall (fun g => TiltEscape.Guard.waypoints g <> [])
              (TiltEscape.Level.guards (loaded guard_map)))
  by (exact (proj2 (proj2 (load_lines_guards (rt := zero_runtime) guard_map
                             TiltEscape.Level.empty tt (Forall_nil _) (NoDup_nil _))))).
split; [exact H|].
destruct (level_update_keeps_level (rt := zero_runtime) one_frame (loaded guard_map) tt H)
  as (l' & rs' & E & _ & Hw & Hp & _).
exists l', rs'. split; [exact E|]. split; [exact Hw | exact Hp].
Defined.

Lemma update_free_flight_witness :
  Game.game_over tilted_game = false /\
  TiltEscape.Level.check_caught_by_guard (Game.level tilted_game) = false /\
  TiltEscape.Level.fell_in_hole (Game.level tilted_game) = false /\
  exists g' rs',
    Game.update (lm := tilt_libm) (fs := small_disk) one_frame tilted_game tt
      = Some (g', rs') /\
    Game.player_acceleration g'
      = glm.mkvec2 F32.zero (S754_finite false 11658564 (-21)) /\
    TiltEscape.Level.player (Game.level g')
      = TiltEscape.Player.make
          (glm.mkvec2 F32.one (S754_finite false 13264857 (-34)))
          F32.half
          (glm.mkvec2 F32.zero (S754_finite false 12435802 (-27))).
Proof.
  assert (H1 : Game.game_over tilted_game = false) by (vm_compute; reflexivity).
  assert (H2 : TiltEscape.Level.check_caught_by_guard (Game.level tilted_game) = false)
    by (vm_compute; reflexivity).
  assert (H3 : TiltEscape.Level.fell_in_hole (Game.level tilted_game) = false)
    by (vm_compute; reflexivity).
  assert (H4 : Forall (fun gd => TiltEscape.Guard.waypoints gd <> [])
                 (TiltEscape.Level.guards (Game.level tilted_game)))
    by (replace (TiltEscape.Level.guards (Game.level tilted_game)) with (@nil (TiltEscape.Guard.t (rt := zero_runtime)))
          by (vm_compute; reflexivity);
        constructor).
  assert (H5 : Forall
                 (fun w => fst (fst (TiltEscape.Level.check_wall_collision
                                       (rt := zero_runtime)
                                       (level_with_player
                                          (kinematic_step (lm := tilt_libm) one_frame
                                             (tilt_acceleration (lm := tilt_libm) tilted_game)
                                             (TiltEscape.Level.player (Game.level tilted_game))))
                                       w)) = false)
                 (TiltEscape.Level.walls (Game.level tilted_game)))
    by (replace (TiltEscape.Level.walls (Game.level tilted_game)) with [wall_at (0, 0)]
          by (vm_compute; reflexivity);
        constructor; [vm_compute; reflexivity | constructor]).
  split; [exact H1|]. split; [exact H2|]. split; [exact H3|].
  destruct (update_free_flight (rt := zero_runtime) (fs := small_disk) (lm := tilt_libm)
              one_frame tilted_game tt H1 H2 H3 H4 H5) as (g' & rs' & E & Ha & Hp).
  exists g', rs'. split; [exact E|]. split.
  - rewrite Ha. vm_compute. reflexivity.
  - rewrite Hp. vm_compute. reflexivity.
Defined.

Lemma reset_rebuilds_level_witness :
  read_lines (FileSystem := small_disk)
    (nth (Z.to_nat (Game.level_index small_game)) (Game.level_names small_game) ""%string)
    = Some small_map /\
  TiltEscape.Level.walls
    (Game.level (fst (Game.reset (fs := small_disk) small_game tt)))
    = map wall_at (cells_of "#" 0 small_map) /\
  Game.board_size (fst (Game.reset (fs := small_disk) small_game tt)) = glm.mkuvec2 2 2.
Proof.
  assert (H : read_lines (FileSystem := small_disk)
                (nth (Z.to_nat (Game.level_index small_game))
                   (Game.level_names small_game) ""%string) = Some small_map)
    by reflexivity.
  split; [exact H|].
  pose proof (reset_rebuilds_level (rt := zero_runtime) (fs := small_disk)
                small_game tt small_map H) as T.
  cbv zeta in T. destruct T as (_ & Hw & _ & _ & _ & Hb & _).
  split; [exact Hw | exact Hb].
Defined.

Lemma reset_without_file_witness :
  read_lines (FileSystem := small_disk)
    (nth (Z.to_nat (Game.level_index small_game_at_level3))
       (Game.level_names small_game_at_level3) ""%string) = None /\
  Game.board_size (fst (Game.reset (fs := small_disk) small_game_at_level3 tt))
    = glm.mkuvec2 0 0 /\
  TiltEscape.Level.walls
    (Game.level (fst (Game.reset (fs := small_disk) small_game_at_level3 tt))) = [].
Proof.
  assert (H : read_lines (FileSystem := small_disk)
                (nth (Z.to_nat (Game.level_index small_game_at_level3))
                   (Game.level_names small_game_at_level3) ""%string) = None)
    by reflexivity.
  split; [exact H|].
  rewrite (proj1 (reset_without_file (rt := zero_runtime) (fs := small_disk)
                    small_game_at_level3 tt H)).
  split; reflexivity.
Defined.

Lemma next_level_cycles_witness :
  0 <= Game.level_index small_game
    < Z.of_nat (List.length (Game.level_names small_game)) /\
  Game.level_index (fst (Game.next_level (fs := small_disk) small_game tt)) = 1.
Proof.
  assert (H : 0 <= Game.level_index small_game
                < Z.of_nat (List.length (Game.level_names small_game)))
    by (vm_compute; split; [discriminate | reflexivity]).
  split; [exact H|].
  pose proof (next_level_cycles (rt := zero_runtime) (fs := small_disk) small_game tt H) as T.
  cbv zeta in T. destruct T as (T & _). rewrite T. reflexivity.
Defined.

(** ** Game::handle_event *)

Section HandleEvent.
Context {rt : Runtime}.
Import TiltEscape.

(** X19. An event is handled exactly when it is a key press that is not a
    repeat, or a key release, of W, S, A or D; the flag of that key then
    tells whether the key is down, the flags of the other keys keep their
    values, and an event that is not handled changes nothing. Nothing but
    the controls is ever changed. *)
Theorem handle_event_sets_one_flag (evt : Game.Event) (g : Game.t) :
  let g' := fst (Game.handle_event evt g) in
  let handled := snd (Game.handle_event evt g) in
  (handled = true <->
     ((Game.is_keydown evt = true /\ Game.key_repeat evt = false)
      \/ Game.is_keyup evt = true)
     /\ Game.scancode evt <> Game.SDL_SCANCODE_OTHER)
  /\ (handled = true ->
      flag_of (Game.scancode evt) (Game.controls g') = Some (Game.is_keydown evt))
  /\ (forall k, k <> Game.scancode evt \/ handled = false ->
      flag_of k (Game.controls g') = flag_of k (Game.controls g))
  /\ (handled = false -> g' = g)
  /\ Game.set_controls (Game.controls g) g' = g.
Proof.
  unfold Game.handle_event, Game.is_keydown, Game.is_keyup.
  destruct g as [bs c pa gr et names idx l]. destruct c as [tl tr tu td].
  destruct evt as [ty rep k]. game_fields. cbn [Game.evt_type Game.key_repeat Game.scancode].
  destruct ty, rep, k; cbn [andb orb fst snd flag_of]; game_fields;
    (split; [ intuition (try discriminate; try congruence) |]);
    (split; [ intros H; try discriminate H; reflexivity |]);
    (split; [ intros k' [Hk | Hk]; try discriminate Hk;
              destruct k'; try reflexivity; congruence |]);
    (split; [ intros H; try discriminate H; reflexivity | reflexivity ]).
Qed.

(** X20. Pressing and releasing. A press of W, S, A or D followed by the
    release of the same key leaves the flag of the key off and the game
    otherwise as it was; while the key is held, repeated press events are
    ignored. *)
Theorem handle_event_press_release (k : Game.Scancode) (g : Game.t) :
  k <> Game.SDL_SCANCODE_OTHER ->
  let pressed := fst (Game.handle_event (Game.mkEvent Game.SDL_KEYDOWN false k) g) in
  let released := fst (Game.handle_event (Game.mkEvent Game.SDL_KEYUP false k) pressed) in
  flag_of k (Game.controls pressed) = Some true /\
  Game.handle_event (Game.mkEvent Game.SDL_KEYDOWN true k) pressed = (pressed, false) /\
  flag_of k (Game.controls released) = Some false /\
  (flag_of k (Game.controls g) = Some false -> released = g).
Proof.
  intros Hk. unfold Game.handle_event, Game.is_keydown, Game.is_keyup.
  destruct g as [bs c pa gr et names idx l]. destruct c as [tl tr tu td].
  destruct k; try congruence; cbn [Game.evt_type Game.key_repeat Game.scancode andb orb fst];
    game_fields; cbn [flag_of]; game_fields;
    (split; [reflexivity | split; [reflexivity | split; [reflexivity|]]]);
    intros H; injection H as ->; reflexivity.
Qed.
End HandleEvent.

Lemma handle_event_press_release_witness :
  Game.SDL_SCANCODE_A <> Game.SDL_SCANCODE_OTHER /\
  flag_of Game.SDL_SCANCODE_A
    (Game.controls
       (fst (Game.handle_event
               (Game.mkEvent Game.SDL_KEYDOWN false Game.SDL_SCANCODE_A) small_game)))
  = Some true.
Proof.
  assert (H : Game.SDL_SCANCODE_A <> Game.SDL_SCANCODE_OTHER) by discriminate.
  split; [exact H|].
  exact (proj1 (handle_event_press_release (rt := zero_runtime)
                  Game.SDL_SCANCODE_A small_game H)).
Defined.

Lemma handle_event_sets_one_flag_witness :
  snd (Game.handle_event (Game.mkEvent Game.SDL_KEYDOWN false Game.SDL_SCANCODE_W) small_game)
    = true /\
  flag_of Game.SDL_SCANCODE_W
    (Game.controls
       (fst (Game.handle_event
               (Game.mkEvent Game.SDL_KEYDOWN false Game.SDL_SCANCODE_W) small_game)))
  = Some true.
Proof.
  assert (H : snd (Game.handle_event
                     (Game.mkEvent Game.SDL_KEYDOWN false Game.SDL_SCANCODE_W) small_game)
              = true) by reflexivity.
  split; [exact H|].
  exact (proj1 (proj2 (handle_event_sets_one_flag (rt := zero_runtime)
                         (Game.mkEvent Game.SDL_KEYDOWN false Game.SDL_SCANCODE_W)
                         small_game)) H).
Defined.

(** ** Collision resolution *)

Section Resolution.
Context {rt : Runtime} {fs : FileSystem} {lm : Libm}.
Import TiltEscape.

(** X21. One axis at a time. Resolving a hit reported LEFT or RIGHT zeroes the
    X velocity and moves the player along X by [radius - |diff.x|], to
    the right for LEFT and to the left for RIGHT; any other direction
    value does the same on Y, downwards for UP and upwards otherwise.
    The other axis, the radius and the rest of the level are not
    touched, and without a hit nothing is. *)
Theorem resolve_collision_one_axis (l : Level.t) (w : Wall.t) :
  let p := Level.player l in
  let p' := Level.player (Game.resolve_collision l w) in
  let hit := fst (fst (Level.check_wall_collision l w)) in
  let dir := snd (fst (Level.check_wall_collision l w)) in
  let diff := snd (Level.check_wall_collision l w) in
  (hit = false -> Game.resolve_collision l w = l)
  /\ (hit = true -> dir = Direction.to_Z Direction.LEFT ->
      p' = Player.make
             (glm.mkvec2 (F32.add (glm.x (Player.position p))
                            (F32.sub (Player.radius p) (F32.abs (glm.x diff))))
                         (glm.y (Player.position p)))
             (Player.radius p)
             (glm.mkvec2 (F32.of_Z 0) (glm.y (Player.velocity p))))
  /\ (hit = true -> dir = Direction.to_Z Direction.RIGHT ->
      p' = Player.make
             (glm.mkvec2 (F32.sub (glm.x (Player.position p))
                            (F32.sub (Player.radius p) (F32.abs (glm.x diff))))
                         (glm.y (Player.position p)))
             (Player.radius p)
             (glm.mkvec2 (F32.of_Z 0) (glm.y (Player.velocity p))))
  /\ (hit = true -> dir = Direction.to_Z Direction.UP ->
      p' = Player.make
             (glm.mkvec2 (glm.x (Player.position p))
                         (F32.sub (glm.y (Player.position p))
                            (F32.sub (Player.radius p) (F32.abs (glm.y diff)))))
             (Player.radius p)
             (glm.mkvec2 (glm.x (Player.velocity p)) (F32.of_Z 0)))
  /\ (hit = true -> dir <> Direction.to_Z Direction.LEFT ->
      dir <> Direction.to_Z Direction.RIGHT -> dir <> Direction.to_Z Direction.UP ->
      p' = Player.make
             (glm.mkvec2 (glm.x (Player.position p))
                         (F32.add (glm.y (Player.position p))
                            (F32.sub (Player.radius p) (F32.abs (glm.y diff)))))
             (Player.radius p)
             (glm.mkvec2 (glm.x (Player.velocity p)) (F32.of_Z 0))).
Proof.
  unfold Game.resolve_collision.
  destruct (Level.check_wall_collision l w) as [[hit dir] diff]. cbn [fst snd].
  unfold Direction.is_dir.
  destruct hit.
  2:{ repeat split; intros; try discriminate; reflexivity. }
  split; [discriminate|].
  split; [intros _ ->; reflexivity|].
  split; [intros _ ->; reflexivity|].
  split; [intros _ ->; reflexivity|].
  intros _ H1 H2 H3.
  apply Z.eqb_neq in H1, H2, H3. rewrite H1, H2, H3. reflexivity.
Qed.

Lemma sub_abs_zero r : F32.ltb F32.zero r = true -> F32.sub r (F32.abs F32.zero) = r.
Proof. destruct r as [[]|[]| |[] m e]; try discriminate; reflexivity. Qed.

(** X22. The center on the box. When the closest point of the box is the
    circle center itself, so that the difference is the zero vector, a
    player of positive radius collides, the direction reported is the
    value -1 that names no direction, and the resolution treats it like
    DOWN: the player is moved up by its whole radius and loses its Y
    velocity. *)
Theorem resolve_collision_center_on_box (l : Level.t) (w : Wall.t) :
  to_closest l w = origin ->
  F32.ltb F32.zero (Player.radius (Level.player l)) = true ->
  Level.check_wall_collision l w = (true, -1, origin) /\
  Level.player (Game.resolve_collision l w)
  = Player.make
      (glm.mkvec2 (glm.x (Player.position (Level.player l)))
                  (F32.add (glm.y (Player.position (Level.player l)))
                           (Player.radius (Level.player l))))
      (Player.radius (Level.player l))
      (glm.mkvec2 (glm.x (Player.velocity (Level.player l))) (F32.of_Z 0)).
Proof.
  intros Hz Hr.
  assert (E : Level.check_wall_collision l w = (true, -1, origin)).
  { rewrite check_wall_collision_unfold, Hz.
    change (glm.length origin) with F32.zero. rewrite Hr.
    replace (vector_direction origin) with (-1) by (vm_compute; reflexivity).
    reflexivity. }
  split; [exact E|].
  unfold Game.resolve_collision. rewrite E.
  change (Direction.is_dir Direction.LEFT (-1)) with false.
  change (Direction.is_dir Direction.RIGHT (-1)) with false.
  change (Direction.is_dir Direction.UP (-1)) with false.
  cbn [orb]. level_fields.
  change (glm.y origin) with F32.zero. rewrite (sub_abs_zero _ Hr). reflexivity.
Qed.
End Resolution.

(** ** The look directions *)

Section Looking.
Context {rt : Runtime}.
Import TiltEscape.

(** The numbering of the look directions is a bijection with [0, 7], so
    the direction [change_look_dir] picks, numbered [mt() mod 8], is
    always one of the eight. *)
Lemma LookDirection_round_trip :
  (forall d, LookDirection.of_Z (LookDirection.to_Z d) = d) /\
  (forall d, 0 <= LookDirection.to_Z d <= 7) /\
  (forall n, 0 <= n <= 7 -> LookDirection.to_Z (LookDirection.of_Z n) = n) /\
  (forall n, LookDirection.to_Z (LookDirection.of_Z (n mod 8)) = n mod 8).
Proof.
  assert (H : forall n, 0 <= n <= 7 -> LookDirection.to_Z (LookDirection.of_Z n) = n).
  { intros n Hn.
    assert (n = 0 \/ n = 1 \/ n = 2 \/ n = 3 \/ n = 4 \/ n = 5 \/ n = 6 \/ n = 7) by lia.
    repeat (destruct H as [-> | H]; [reflexivity|]). subst; reflexivity. }
  split; [intros []; reflexivity|]. split; [intros []; cbn; lia|]. split; [exact H|].
  intros n. apply H. pose proof (Z.mod_pos_bound n 8). lia.
Qed.

(** X23. The watched cell. The offset of the field of view is, for each of
    the eight look directions, one of the eight neighbouring cells: both
    components are -1, 0 or 1, not both 0, and two directions never share
    an offset. *)
Theorem get_fov_offset_neighbour (g g2 : Guard.t) :
  let o := Guard.get_fov_offset g in
  (exists dx dy, -1 <= dx <= 1 /\ -1 <= dy <= 1 /\ (dx <> 0 \/ dy <> 0) /\
                 o = glm.vec2_of_Z dx dy)
  /\ (Guard.get_fov_offset g = Guard.get_fov_offset g2 ->
      GuardVision.look_direction (Guard.fov g) = GuardVision.look_direction (Guard.fov g2)).
Proof.
  unfold Guard.get_fov_offset. split.
  - destruct (GuardVision.look_direction (Guard.fov g));
      [exists 0, 1 | exists (-1), 1 | exists (-1), 0 | exists (-1), (-1)
      | exists 0, (-1) | exists 1, (-1) | exists 1, 0 | exists 1, 1];
      repeat split; try lia; (left; lia) || (right; lia).
  - destruct (GuardVision.look_direction (Guard.fov g)),
             (GuardVision.look_direction (Guard.fov g2));
      intros H; try reflexivity; vm_compute in H; discriminate H.
Qed.
End Looking.

Lemma resolve_collision_center_on_box_witness :
  to_closest (rt := zero_runtime)
    (level_with_player (TiltEscape.Player.new TiltEscape.origin F32.half))
    unit_wall_at_origin = TiltEscape.origin /\
  F32.ltb F32.zero F32.half = true /\
  TiltEscape.Level.player
    (Game.resolve_collision (rt := zero_runtime)
       (level_with_player (TiltEscape.Player.new TiltEscape.origin F32.half))
       unit_wall_at_origin)
  = TiltEscape.Player.make (glm.mkvec2 F32.zero F32.half) F32.half TiltEscape.origin.
Proof.
  assert (H1 : to_closest (rt := zero_runtime)
                 (level_with_player (TiltEscape.Player.new TiltEscape.origin F32.half))
                 unit_wall_at_origin = TiltEscape.origin) by (vm_compute; reflexivity).
  assert (H2 : F32.ltb F32.zero F32.half = true) by (vm_compute; reflexivity).
  split; [exact H1|]. split; [exact H2|].
  rewrite (proj2 (resolve_collision_center_on_box (rt := zero_runtime)
                    (level_with_player (TiltEscape.Player.new TiltEscape.origin F32.half))
                    unit_wall_at_origin H1 H2)).
  vm_compute. reflexivity.
Defined.

Lemma resolve_collision_one_axis_witness :
  fst (fst (TiltEscape.Level.check_wall_collision (rt := zero_runtime)
              (level_with_player player_right_of_wall) unit_wall_at_origin)) = true /\
  snd (fst (TiltEscape.Level.check_wall_collision (rt := zero_runtime)
              (level_with_player player_right_of_wall) unit_wall_at_origin))
    = TiltEscape.Direction.to_Z TiltEscape.Direction.LEFT /\
  TiltEscape.Player.velocity
    (TiltEscape.Level.player
       (Game.resolve_collision (rt := zero_runtime)
          (level_with_player player_right_of_wall) unit_wall_at_origin))
  = TiltEscape.origin.
Proof.
  assert (H1 : fst (fst (TiltEscape.Level.check_wall_collision (rt := zero_runtime)
                           (level_with_player player_right_of_wall) unit_wall_at_origin))
               = true) by (vm_compute; reflexivity).
  assert (H2 : snd (fst (TiltEscape.Level.check_wall_collision (rt := zero_runtime)
                           (level_with_player player_right_of_wall) unit_wall_at_origin))
               = TiltEscape.Direction.to_Z TiltEscape.Direction.LEFT)
    by (vm_compute; reflexivity).
  split; [exact H1|]. split; [exact H2|].
  pose proof (resolve_collision_one_axis (rt := zero_runtime)
                (level_with_player player_right_of_wall) unit_wall_at_origin) as T.
  cbv zeta in T. destruct T as (_ & T & _).
  rewrite (T H1 H2). reflexivity.
Defined.

Lemma LookDirection_round_trip_witness :
  0 <= 5 <= 7 /\
  TiltEscape.LookDirection.to_Z (TiltEscape.LookDirection.of_Z 5) = 5.
Proof.
  assert (H : 0 <= 5 <= 7) by lia.
  split; [exact H|].
  exact (proj1 (proj2 (proj2 LookDirection_round_trip)) 5 H).
Defined.

Lemma get_fov_offset_neighbour_witness :
  TiltEscape.Guard.get_fov_offset patrol_guard
    = TiltEscape.Guard.get_fov_offset arriving_guard /\
  TiltEscape.GuardVision.look_direction (TiltEscape.Guard.fov patrol_guard)
    = TiltEscape.GuardVision.look_direction (TiltEscape.Guard.fov arriving_guard).
Proof.
  assert (H : TiltEscape.Guard.get_fov_offset patrol_guard
              = TiltEscape.Guard.get_fov_offset arriving_guard) by reflexivity.
  split; [exact H|].
  exact (proj2 (get_fov_offset_neighbour (rt := zero_runtime) patrol_guard arriving_guard) H).
Defined.

(** ** A game from its construction on *)

Section GameRun.
Context {rt : Runtime} {fs : FileSystem} {lm : Libm}.
Import TiltEscape.

Lemma new_well_formed (rs : rand_state) : well_formed (fst (Game.new rs)).
Proof.
  unfold Game.new.
  match goal with |- context [Level.load_level ?n ?st] =>
    pose proof (load_level_from_cleared n Level.empty rs) as HL;
    change (Level.clear_level Level.empty) with Level.empty in HL;
    destruct (Level.load_level n st) as [l1 rs1] end.
  cbv zeta in HL. cbn [fst] in *. unfold well_formed. game_fields.
  split; [cbn; lia|]. split; [reflexivity | exact HL].
Qed.

Lemma handle_event_well_formed evt (g : Game.t) :
  well_formed g -> well_formed (fst (Game.handle_event evt g)).
Proof.
  intros H. unfold Game.handle_event.
  destruct (Game.is_keydown evt && Game.key_repeat evt); [exact H|].
  destruct (Game.is_keydown evt || Game.is_keyup evt); [|exact H].
  destruct (Game.scancode evt); exact H.
Qed.

(** X24. No undefined behaviour. [Game()] is well formed whatever the level
    files hold: the level index names a level, the board has the extents
    of the map and every guard has a route. From a well-formed game every
    sequence of frames and key events runs to its end (no frame reads the
    front of an empty deque) and leaves a well-formed game. *)
Theorem game_never_fails (rs : rand_state) :
  well_formed (fst (Game.new rs)) /\
  forall (inputs : list Input) (g : Game.t) (rs0 : rand_state),
    well_formed g ->
    exists g' rs',
      run_inputs inputs g rs0 = Some (g', rs') /\ well_formed g'.
Proof.
  split; [apply new_well_formed|].
  induction inputs as [|[elapsed|evt] rest IH]; intros g rs0 H; cbn [run_inputs].
  - eauto.
  - destruct (update_well_formed elapsed g rs0 H) as (g1 & rs1 & -> & H1).
    apply IH. exact H1.
  - apply IH. now apply handle_event_well_formed.
Qed.
End GameRun.

Lemma game_never_fails_witness :
  well_formed small_game /\
  exists g' rs',
    run_inputs (fs := small_disk) (lm := plain_libm)
      [Key (Game.mkEvent Game.SDL_KEYUP false Game.SDL_SCANCODE_S);
       Frame one_frame; Frame one_frame] small_game tt = Some (g', rs') /\
    well_formed g'.
Proof.
  assert (H : well_formed small_game).
  { unfold well_formed. split; [vm_compute; split; [discriminate | reflexivity]|].
    split; [vm_compute; reflexivity|].
    replace (TiltEscape.Level.guards (Game.level small_game))
      with (@nil (TiltEscape.Guard.t (rt := zero_runtime))) by (vm_compute; reflexivity).
    constructor. }
  split; [exact H|].
  exact (proj2 (game_never_fails (rt := zero_runtime) (fs := small_disk) (lm := plain_libm) tt)
           _ small_game tt H).
Defined.

(** ** check_caught_by_guard *)



Section Caught.
Context {rt : Runtime}.
Import TiltEscape.


End Caught.

